(** * dg-cal: synchronisation engine and feed generator

    A shallow embedding of the Go sources of [resterle/dg-cal] (packages
    [gto], [db], [service], [web] and [model]) together with the parts of
    the Go standard library they rely on ([time], [strings], [strconv]).

    Layout of the development:
    - Part I   : definitions (one module per Go package);
    - Part II  : auxiliary lemmas;
    - Part III : the properties of the specification, one theorem each. *)

From Stdlib Require Import ZArith Lia List Bool Ascii String.
From stdpp Require Import base option gmap strings list fin_maps pretty.

Local Open Scope string_scope.
Local Open Scope Z_scope.

(* ===================================================================== *)
(** * Part I. Definitions                                                 *)
(* ===================================================================== *)

(** ** Outcomes of Go calls

    A Go function with an [error] result either returns normally, returns
    an error, or aborts with a run-time panic (index out of range, nil
    dereference).  The three outcomes are kept apart. *)

Inductive error : Type :=
  | NotFoundError                 (* service.NotFoundError *)
  | OtherError (msg : string).    (* fmt.Errorf / errors of collaborators *)

Inductive outcome (A : Type) : Type :=
  | Ok (a : A)
  | Err (e : error)
  | Panic (msg : string).

Arguments Ok {A} a.
Arguments Err {A} e.
Arguments Panic {A} msg.

Definition bind {A B : Type} (x : outcome A) (f : A -> outcome B) : outcome B :=
  match x with
  | Ok a => f a
  | Err e => Err e
  | Panic m => Panic m
  end.

Notation "'do' x <- c1 ; c2" := (bind c1 (fun x => c2))
  (at level 10, x pattern, c1 at level 100, c2 at level 200).

Definition is_ok {A : Type} (x : outcome A) : bool :=
  match x with Ok _ => true | _ => false end.

Definition is_panic {A : Type} (x : outcome A) : bool :=
  match x with Panic _ => true | _ => false end.

(** Results of the storage layer: a value or a storage error.  The [db]
    package does not know [service.NotFoundError], so its errors are kept
    in a type of their own. *)
Inductive dbresult (A : Type) : Type :=
  | DbOk (a : A)
  | DbErr (msg : string).

Arguments DbOk {A} a.
Arguments DbErr {A} msg.

(** ** Package [time] (Go standard library) *)

Module GoTime.

(** A location is known through the offset (seconds east of UTC) that is
    in force at each UTC instant. *)
Record Location : Type := { zoneName : string; zoneOffset : Z -> Z }.

Definition UTC : Location := {| zoneName := "UTC"; zoneOffset := fun _ => 0 |}.

Definition FixedZone (name : string) (offset : Z) : Location :=
  {| zoneName := name; zoneOffset := fun _ => offset |}.

(** An instant (seconds and nanoseconds since the Unix epoch) presented
    in a location. *)
Record Time : Type := { unix : Z; nsec : Z; loc : Location }.

Definition secondsPerDay : Z := 86400.

(** [norm hi lo base] carries the excess of [lo] into [hi]. *)
Definition norm (hi lo base : Z) : Z * Z := (hi + lo / base, lo mod base).

(** Days since 1970-01-01 of a proleptic Gregorian date.  The day is not
    required to lie inside the month: the result is linear in [d]. *)
Definition civilToDays (y m d : Z) : Z :=
  let y' := if m <=? 2 then y - 1 else y in
  let era := y' / 400 in
  let yoe := y' - era * 400 in
  let mp := if 2 <? m then m - 3 else m + 9 in
  let doy := (153 * mp + 2) / 5 + d - 1 in
  let doe := yoe * 365 + yoe / 4 - yoe / 100 + doy in
  era * 146097 + doe - 719468.

Definition daysToCivil (z : Z) : Z * Z * Z :=
  let z' := z + 719468 in
  let era := z' / 146097 in
  let doe := z' - era * 146097 in
  let yoe := (doe - doe / 1460 + doe / 36524 - doe / 146096) / 365 in
  let doy := doe - (365 * yoe + yoe / 4 - yoe / 100) in
  let mp := (5 * doy + 2) / 153 in
  let d := doy - (153 * mp + 2) / 5 + 1 in
  let m := if mp <? 10 then mp + 3 else mp - 9 in
  ((if m <=? 2 then yoe + era * 400 + 1 else yoe + era * 400), m, d).

Definition isLeap (y : Z) : bool :=
  (y mod 4 =? 0) && (negb (y mod 100 =? 0) || (y mod 400 =? 0)).

Definition daysIn (m y : Z) : Z :=
  if m =? 2 then (if isLeap y then 29 else 28)
  else if (m =? 4) || (m =? 6) || (m =? 9) || (m =? 11) then 30 else 31.

(** Wall-clock reading of [t] in its location, in seconds. *)
Definition abs (t : Time) : Z := unix t + zoneOffset (loc t) (unix t).

Definition wallDay (t : Time) : Z := abs t / secondsPerDay.

Definition Year (t : Time) : Z := (daysToCivil (wallDay t)).1.1.
Definition Month (t : Time) : Z := (daysToCivil (wallDay t)).1.2.
Definition Day (t : Time) : Z := (daysToCivil (wallDay t)).2.
Definition Hour (t : Time) : Z := (abs t mod secondsPerDay) / 3600.
Definition Minute (t : Time) : Z := (abs t mod 3600) / 60.
Definition Second (t : Time) : Z := abs t mod 60.
Definition Location_of (t : Time) : Location := loc t.

(** [time.Date].  The fields are normalised, turned into a wall-clock
    reading [w], and the zone offset is found as Go does: look the zone
    up at [w] taken as UTC, and look it up again at [w] minus that
    offset.  When [w] does not exist in the location (a clock change
    skipped it) the result is an instant whose wall clock differs from
    [w]. *)
Definition Date (year month day hour min sec ns : Z) (l : Location) : Time :=
  let '(year, m) := norm year (month - 1) 12 in
  let month := m + 1 in
  let '(sec, ns) := norm sec ns 1000000000 in
  let '(min, sec) := norm min sec 60 in
  let '(hour, min) := norm hour min 60 in
  let '(day, hour) := norm day hour 24 in
  let w := civilToDays year month day * secondsPerDay
           + hour * 3600 + min * 60 + sec in
  let offset := zoneOffset l (w - zoneOffset l w) in
  {| unix := w - offset; nsec := ns; loc := l |}.

Definition AddDate (t : Time) (years months days : Z) : Time :=
  Date (Year t + years) (Month t + months) (Day t + days)
       (Hour t) (Minute t) (Second t) (nsec t) (loc t).

(** [t.Add(d)], [d] in nanoseconds. *)
Definition Add (t : Time) (d : Z) : Time :=
  let n := nsec t + d in
  {| unix := unix t + n / 1000000000; nsec := n mod 1000000000; loc := loc t |}.

Definition Hour_ns : Z := 3600 * 1000000000.

Definition Before (t u : Time) : bool :=
  (unix t <? unix u) || ((unix t =? unix u) && (nsec t <? nsec u)).

(** The same instant, whatever the location. *)
Definition Equal (t u : Time) : bool :=
  (unix t =? unix u) && (nsec t =? nsec u).

(** [time.Time{}]: 0001-01-01 00:00:00 UTC. *)
Definition zeroTime : Time := {| unix := -62135596800; nsec := 0; loc := UTC |}.

(** *** Europe/Berlin

    Central European Time with the EU summer-time rule (in force since
    1996): summer time from the last Sunday of March, 01:00 UTC, to the
    last Sunday of October, 01:00 UTC. *)
Definition weekday (days : Z) : Z := (days + 4) mod 7.   (* 0 = Sunday *)

Definition lastSunday (y m : Z) : Z :=
  let d := civilToDays y m 31 in d - weekday d.

Definition berlinOffset (u : Z) : Z :=
  let y := (daysToCivil (u / secondsPerDay)).1.1 in
  let dstStart := lastSunday y 3 * secondsPerDay + 3600 in
  let dstEnd := lastSunday y 10 * secondsPerDay + 3600 in
  if (dstStart <=? u) && (u <? dstEnd) then 7200 else 3600.

Definition Berlin : Location :=
  {| zoneName := "Europe/Berlin"; zoneOffset := berlinOffset |}.

(** *** Layouts and [time.ParseInLocation]

    Only the layout elements used by this program are recognised:
    "02" (two-digit day), "01" (two-digit month), "2006" (four-digit
    year), "15" (hour, one or two digits) and "04" (two-digit minute);
    every other character of a layout is literal text. *)
Inductive chunk : Type :=
  | stdZeroDay | stdZeroMonth | stdLongYear | stdHour | stdZeroMinute
  | literal (c : ascii).

Fixpoint nextStdChunks (layout : string) : list chunk :=
  match layout with
  | String "2" (String "0" (String "0" (String "6" rest))) =>
      stdLongYear :: nextStdChunks rest
  | String "0" (String "2" rest) => stdZeroDay :: nextStdChunks rest
  | String "0" (String "1" rest) => stdZeroMonth :: nextStdChunks rest
  | String "0" (String "4" rest) => stdZeroMinute :: nextStdChunks rest
  | String "1" (String "5" rest) => stdHour :: nextStdChunks rest
  | String c rest => literal c :: nextStdChunks rest
  | EmptyString => []
  end.

Definition isDigit (c : ascii) : bool :=
  let n := nat_of_ascii c in (48 <=? n)%nat && (n <=? 57)%nat.

Definition digitVal (c : ascii) : Z := Z.of_nat (nat_of_ascii c) - 48.

(** [getnum]: one or two leading digits; exactly two when [fixed]. *)
Definition getnum (s : string) (fixed : bool) : option (Z * string) :=
  match s with
  | String a rest =>
      if isDigit a then
        match rest with
        | String b rest' =>
            if isDigit b then Some (digitVal a * 10 + digitVal b, rest')
            else if fixed then None else Some (digitVal a, rest)
        | EmptyString => if fixed then None else Some (digitVal a, rest)
        end
      else None
  | EmptyString => None
  end.

(** The four-digit year of [stdLongYear]. *)
Definition getyear (s : string) : option (Z * string) :=
  match s with
  | String a (String b (String c (String d rest))) =>
      if isDigit a && isDigit b && isDigit c && isDigit d
      then Some (((digitVal a * 10 + digitVal b) * 10 + digitVal c) * 10 + digitVal d, rest)
      else None
  | _ => None
  end.

Fixpoint cutspace (s : string) : string :=
  match s with
  | String " " rest => cutspace rest
  | _ => s
  end.

(** The civil fields collected while parsing; month and day start at -1. *)
Record fields : Type :=
  { f_year : Z; f_month : Z; f_day : Z; f_hour : Z; f_min : Z }.

Definition noFields : fields :=
  {| f_year := 0; f_month := -1; f_day := -1; f_hour := 0; f_min := 0 |}.

Fixpoint parseChunks (cs : list chunk) (value : string) (f : fields)
  : option fields :=
  match cs with
  | [] => match value with EmptyString => Some f | _ => None end  (* extra text *)
  | literal " " :: cs' =>
      (* a space of the layout stands for any run of spaces *)
      match value with
      | String c _ =>
          if Ascii.eqb c " " then parseChunks cs' (cutspace value) f else None
      | EmptyString => parseChunks cs' value f
      end
  | literal c :: cs' =>
      match value with
      | String c' rest => if Ascii.eqb c c' then parseChunks cs' rest f else None
      | EmptyString => None
      end
  | stdLongYear :: cs' =>
      match getyear value with
      | Some (y, rest) =>
          parseChunks cs' rest
            {| f_year := y; f_month := f_month f; f_day := f_day f;
               f_hour := f_hour f; f_min := f_min f |}
      | None => None
      end
  | stdZeroDay :: cs' =>
      match getnum value true with
      | Some (d, rest) =>
          parseChunks cs' rest
            {| f_year := f_year f; f_month := f_month f; f_day := d;
               f_hour := f_hour f; f_min := f_min f |}
      | None => None
      end
  | stdZeroMonth :: cs' =>
      match getnum value true with
      | Some (m, rest) =>
          if (m <=? 0) || (12 <? m) then None
          else parseChunks cs' rest
            {| f_year := f_year f; f_month := m; f_day := f_day f;
               f_hour := f_hour f; f_min := f_min f |}
      | None => None
      end
  | stdHour :: cs' =>
      match getnum value false with
      | Some (h, rest) =>
          if (h <? 0) || (24 <=? h) then None
          else parseChunks cs' rest
            {| f_year := f_year f; f_month := f_month f; f_day := f_day f;
               f_hour := h; f_min := f_min f |}
      | None => None
      end
  | stdZeroMinute :: cs' =>
      match getnum value true with
      | Some (mi, rest) =>
          if (mi <? 0) || (60 <=? mi) then None
          else parseChunks cs' rest
            {| f_year := f_year f; f_month := f_month f; f_day := f_day f;
               f_hour := f_hour f; f_min := mi |}
      | None => None
      end
  end.

Definition ParseInLocation (layout value : string) (l : Location)
  : outcome Time :=
  match parseChunks (nextStdChunks layout) value noFields with
  | Some f =>
      if (f_day f <? 1) || (daysIn (f_month f) (f_year f) <? f_day f)
      then Err (OtherError "parsing time: day out of range")
      else Ok (Date (f_year f) (f_month f) (f_day f) (f_hour f) (f_min f) 0 0 l)
  | None => Err (OtherError "parsing time: cannot parse")
  end.

Definition After (t u : Time) : bool := Before u t.

(** [t.In(loc)]: the same instant, presented in [l]. *)
Definition In (t : Time) (l : Location) : Time :=
  {| unix := unix t; nsec := nsec t; loc := l |}.

Definition minDuration : Z := -9223372036854775808.
Definition maxDuration : Z := 9223372036854775807.

(** [t.Sub(u)] in nanoseconds; the result saturates at the bounds of
    [time.Duration]. *)
Definition Sub (t u : Time) : Z :=
  let d := (unix t - unix u) * 1000000000 + (nsec t - nsec u) in
  Z.max minDuration (Z.min maxDuration d).

End GoTime.

(** ** Packages [strings] and [strconv] (Go standard library)

    Go strings are byte sequences; [ascii] is the byte. *)

Module GoStrings.

Definition HasPrefix (s p : string) : bool := String.prefix p s.

Fixpoint drop (n : nat) (s : string) : string :=
  match n, s with
  | S n', String _ rest => drop n' rest
  | _, _ => s
  end.

Definition HasSuffix (s suffix : string) : bool :=
  (String.length suffix <=? String.length s)%nat
  && String.eqb (drop (String.length s - String.length suffix) s) suffix.

(** [strings.CutSuffix] *)
Definition CutSuffix (s suffix : string) : string * bool :=
  if HasSuffix s suffix
  then (String.substring 0 (String.length s - String.length suffix) s, true)
  else (s, false).

(** [strings.Cut]: the text before and after the first [sep]. *)
Fixpoint Cut (s sep : string) : option (string * string) :=
  if HasPrefix s sep then Some ("", drop (String.length sep) s)
  else match s with
       | EmptyString => None
       | String c rest =>
           match Cut rest sep with
           | Some (before, after) => Some (String c before, after)
           | None => None
           end
       end.

(** [genSplit] for a non-empty separator; [cuts] is the number of cuts
    still allowed (Go's [n-1]). *)
Fixpoint genSplit (s sep : string) (sepSave : bool) (cuts : nat) : list string :=
  match cuts with
  | O => [s]
  | S cuts' =>
      match Cut s sep with
      | None => [s]
      | Some (before, after) =>
          (if sepSave then before ++ sep else before)
            :: genSplit after sep sepSave cuts'
      end
  end.

(** [strings.Split(s, sep)]: every occurrence of [sep] cuts. *)
Definition Split (s sep : string) : list string :=
  genSplit s sep false (String.length s).

(** [strings.SplitAfterN(s, sep, n)] for [n > 0]. *)
Definition SplitAfterN (s sep : string) (n : nat) : list string :=
  genSplit s sep true (Nat.min n (S (String.length s)) - 1).

Definition isSpace (c : ascii) : bool :=
  let n := nat_of_ascii c in
  (n =? 32)%nat || ((9 <=? n)%nat && (n <=? 13)%nat).

Fixpoint trimLeft (s : string) : string :=
  match s with
  | String c rest => if isSpace c then trimLeft rest else s
  | EmptyString => s
  end.

Fixpoint trimRight (s : string) : string :=
  match s with
  | String c rest =>
      match trimRight rest with
      | EmptyString => if isSpace c then EmptyString else String c EmptyString
      | r => String c r
      end
  | EmptyString => EmptyString
  end.

(** [strings.TrimSpace], on ASCII text. *)
Definition TrimSpace (s : string) : string := trimRight (trimLeft s).

Fixpoint parseDigits (s : string) (acc : Z) : option Z :=
  match s with
  | EmptyString => Some acc
  | String c rest =>
      if GoTime.isDigit c then parseDigits rest (acc * 10 + GoTime.digitVal c)
      else None
  end.

Definition maxInt : Z := 9223372036854775807.
Definition minInt : Z := -9223372036854775808.

(** [strconv.Atoi]: an optional sign, at least one decimal digit, and a
    value that fits an [int]. *)
Definition Atoi (s : string) : option Z :=
  let '(neg, digits) :=
    match s with
    | String "-" rest => (true, rest)
    | String "+" rest => (false, rest)
    | _ => (false, s)
    end in
  match digits with
  | EmptyString => None
  | _ =>
      match parseDigits digits 0 with
      | Some n =>
          let v := if neg then - n else n in
          if (minInt <=? v) && (v <=? maxInt) then Some v else None
      | None => None
      end
  end.

(** [strings.Replace(s, old, new, -1)] for a non-empty [old]: the
    occurrences are found from the left and do not overlap; [cuts] bounds
    their number. *)
Fixpoint replace (s old new : string) (cuts : nat) : string :=
  match cuts with
  | O => s
  | S cuts' =>
      match Cut s old with
      | None => s
      | Some (before, after) => before ++ new ++ replace after old new cuts'
      end
  end.

(** [strings.ReplaceAll(s, old, new)] for a non-empty [old]. *)
Definition ReplaceAll (s old new : string) : string :=
  replace s old new (String.length s).

End GoStrings.

(** ** Package [ics] (github.com/arran4/golang-ical)

    A calendar entry is known through the getters the program calls. *)

Module Ical.

Record VEvent : Type :=
  { EventId : string;                       (* event.Id() *)
    GetStartAt : outcome GoTime.Time;       (* event.GetStartAt() *)
    GetEndAt : outcome GoTime.Time;         (* event.GetEndAt() *)
    Summary : option string }.              (* the SUMMARY property *)

End Ical.

(** ** Package [model] *)

Module Model.
Import GoTime.

Definition EVENT_TYPE_TURNAMENT : Z := 0.
Definition EVENT_TYPE_REGISTRATION : Z := 1.

Definition TOURNAMENT_STATUS_PROVISIONAL : string := "PROVISIONAL".
Definition TOURNAMENT_STATUS_ANNOUNCED : string := "ANNOUNCED".
Definition TOURNAMENT_STATUS_REGISTRATION : string := "REGISTRATION".
Definition TOURNAMENT_STATUS_IN_PROGRESS : string := "IN PROGESS".
Definition TOURNAMENT_STATUS_DONE : string := "DONE".
Definition TOURNAMENT_STATUS_CANCELLED : string := "CANCELLED".

Record Registration : Type :=
  { RegTitle : string; RegStartDate : Time; RegEndDate : Time }.

Record Tournament : Type :=
  { Id : Z;
    Status : string;
    UpdatedAt : Time;
    StartDate : Time;
    EndDate : Time;
    Title : string;
    Localtion : string;
    GeoLocation : string;
    Series : list string;
    PdgaTier : string;
    PdgaId : string;
    DRating : bool;
    Registrations : list Registration }.

(** [model.Tournament{Id: id, Status: status}] *)
Definition newTournament (id : Z) (status : string) : Tournament :=
  {| Id := id; Status := status; UpdatedAt := zeroTime; StartDate := zeroTime;
     EndDate := zeroTime; Title := ""; Localtion := ""; GeoLocation := "";
     Series := []; PdgaTier := ""; PdgaId := ""; DRating := false;
     Registrations := [] |}.

Record SubscriptionConfig : Type :=
  { CfgTournaments : list Z; CfgSeries : list string }.

Record Calendar : Type :=
  { CalId_ : string;
    CalTitle : string;
    CalEmail : string;
    CalCreatedAt : Time;
    CalUpdatedAt : Time;
    CalRetrievedAt : option Time;
    Config : option SubscriptionConfig }.   (* *SubscriptionConfig *)

Record RegistrationPhase : Type :=
  { Name : string; PhaseStartDate : Time; PhaseEndDate : Time }.

Record EventDetails : Type :=
  { DetID : Z;
    DetTitle : string;
    DetStartDate : Time;
    DetEndDate : Time;
    DetLocation : string;
    DetGeoLocation : string;
    DetSeries : list string;
    PDGATier : string;
    PDGAId : string;
    DRatingConsideration : bool;
    RegistrationPhases : list RegistrationPhase }.

End Model.

(** ** Package [gto]: the extractors and the merged remote fetch *)

Module Gto.
Import GoTime GoStrings Ical Model.

Definition dateTimeLayout : string := "02.01.2006 15:04".

(** [typeAndId] (ics.go).  [parts[1]] and [parts[2]] are indexed without
    a length check: a missing element is a run-time panic. *)
Definition typeAndId (uid : string) : outcome (Z * Z) :=
  let '(s, ok) := CutSuffix uid "@turniere.discgolf.de" in
  if negb ok then Err (OtherError "Unknown uid fromat")
  else
    let parts := SplitAfterN s "-" 3 in
    match parts !! 1%nat with
    | None => Panic "index out of range [1]"
    | Some p1 =>
        do (t, tid_str) <-
           (if bool_decide (parts !! 0%nat = Some "registration-")
            then match parts !! 2%nat with
                 | None => Panic "index out of range [2]"
                 | Some p2 => Ok (EVENT_TYPE_REGISTRATION, p2)
                 end
            else Ok (EVENT_TYPE_TURNAMENT, p1));
        match Atoi tid_str with
        | None => Err (OtherError "Id is not an int")
        | Some tid => Ok (t, tid)
        end
    end.

(** The inclusive end date computed from the raw [DTEND] (ics.go:135). *)
Definition inclusiveEnd (dtEnd : Time) : Time :=
  AddDate (Date (Year dtEnd) (Month dtEnd) (Day dtEnd) 0 0 0 0 (Location_of dtEnd))
          0 0 (-1).

Definition parseTournament (event : VEvent) (tournament : Tournament)
  : outcome Tournament :=
  do dtStart <- GetStartAt event;
  do dtEnd <- GetEndAt event;
  let summary := match Summary event with Some v => v | None => "" end in
  Ok {| Id := Id tournament; Status := Status tournament;
        UpdatedAt := UpdatedAt tournament;
        StartDate := dtStart;
        EndDate := inclusiveEnd dtEnd;
        Title := summary;
        Localtion := Localtion tournament; GeoLocation := GeoLocation tournament;
        Series := Series tournament; PdgaTier := PdgaTier tournament;
        PdgaId := PdgaId tournament; DRating := DRating tournament;
        Registrations := Registrations tournament |}.

Fixpoint parseIcsEventsFrom (events : list VEvent) (result : gmap Z Tournament)
  : outcome (gmap Z Tournament) :=
  match events with
  | [] => Ok result
  | event :: rest =>
      do (t, id) <- typeAndId (EventId event);
      let '(tournament, result) :=
        match result !! id with
        | Some tournament => (tournament, result)
        | None => (newTournament id "", <[id := newTournament id ""]> result)
        end in
      if t =? EVENT_TYPE_REGISTRATION then parseIcsEventsFrom rest result
      else
        do tournament' <- parseTournament event tournament;
        parseIcsEventsFrom rest (<[id := tournament']> result)
  end.

Definition parseIcsEvents (events : list VEvent) : outcome (gmap Z Tournament) :=
  parseIcsEventsFrom events ∅.

Record tournamentUpdate : Type := { updated : Time; status : string }.

(** One round of the loop of [FetchTournaments] (ics.go:33-45). *)
Definition mergeUpdate (tournaments : gmap Z Tournament)
    (result : gmap Z Tournament) (entry : Z * tournamentUpdate)
  : gmap Z Tournament :=
  let '(id, update) := entry in
  let found :=
    match tournaments !! id with
    | Some tournament => Some tournament
    | None =>
        if bool_decide (status update ∈
               [TOURNAMENT_STATUS_CANCELLED; TOURNAMENT_STATUS_DONE])
        then Some (newTournament id (status update))
        else None                                        (* continue *)
    end in
  match found with
  | None => result
  | Some tournament =>
      <[id := {| Id := Id tournament; Status := status update;
                 UpdatedAt := updated update;
                 StartDate := StartDate tournament; EndDate := EndDate tournament;
                 Title := Title tournament; Localtion := Localtion tournament;
                 GeoLocation := GeoLocation tournament; Series := Series tournament;
                 PdgaTier := PdgaTier tournament; PdgaId := PdgaId tournament;
                 DRating := DRating tournament;
                 Registrations := Registrations tournament |}]> result
  end.

(** [FetchTournaments].  [updates] is what [fetchTournamentUpdates]
    returned, [icsEvents] what [fetchIcs] returned; the listing map is
    visited in the order [visit]. *)
Definition FetchTournaments
    (updates : outcome (gmap Z tournamentUpdate))
    (visit : gmap Z tournamentUpdate -> list (Z * tournamentUpdate))
    (icsEvents : outcome (list VEvent)) : outcome (gmap Z Tournament) :=
  do updates <- updates;
  do icsEvents <- icsEvents;
  do tournaments <- parseIcsEvents icsEvents;
  Ok (foldl (mergeUpdate tournaments) ∅ (visit updates)).

(** [parseDateRange] (gto.go); the location is Europe/Berlin. *)
Definition parseDateRange (dateText layout : string)
  : outcome (option Time * option Time) :=
  match Split dateText "-" with
  | [] => Ok (None, None)                                 (* len(parts) == 0 *)
  | part0 :: rest =>
      match ParseInLocation layout (TrimSpace part0) Berlin with
      | Ok startDate =>
          match rest with
          | [part1] =>                                    (* len(parts) == 2 *)
              match ParseInLocation layout (TrimSpace part1) Berlin with
              | Ok d => Ok (Some startDate, Some d)
              | _ => Err (OtherError "failed to parse end date")
              end
          | _ => Ok (Some startDate, None)
          end
      | _ => Err (OtherError "failed to parse start date")
      end
  end.


(** One sub-block of [parseRegistrationPhases]: both bounds are needed. *)
Definition parseRegistrationPhase (title dateText : string)
  : option RegistrationPhase :=
  match parseDateRange (TrimSpace dateText) dateTimeLayout with
  | Ok (Some startDate, Some endDate) =>
      Some {| Name := title; PhaseStartDate := startDate; PhaseEndDate := endDate |}
  | _ => None
  end.

(** *** The listing page ([parseTournamentUpdates], gto.go)

    The page is known through what goquery selects from it: the texts of
    the header cells of [table#list_tournaments] and, for every body row,
    its cells.  [net/url] and the Unicode tables behind [strings.ToLower]
    are not modelled: [queryId href] is the value of the query parameter
    [id] of [href] ([None] when [url.Parse] fails), [ToLower] is
    [strings.ToLower]. *)
Record listingCell : Type :=
  { cellText : string;                 (* td.Text() *)
    cellLinks : list (option string);  (* the href, if any, of each link of the cell *)
    cellSpans : string }.              (* td.Find("span").Text() *)

Record listingTable : Type :=
  { headerCells : list string;         (* the texts of "thead tr th" *)
    bodyRows : list (list listingCell) }.

Section Listing.
Variable queryId : string -> option string.
Variable ToLower : string -> string.

Definition extractTournamentID (href : string) : outcome Z :=
  match queryId href with
  | None => Err (OtherError "failed to parse URL")
  | Some idStr =>
      if String.eqb idStr "" then Err (OtherError "no id parameter found in URL")
      else match Atoi idStr with
           | None => Err (OtherError "failed to parse tournament ID")
           | Some id => Ok id
           end
  end.

(** The index of the last header cell whose trimmed text is [name]
    ([-1] in the source when there is none). *)
Definition columnIndex (name : string) (headers : list string) : option nat :=
  foldl (λ found entry,
           if String.eqb (TrimSpace entry.2) name then Some entry.1 else found)
        None (imap pair headers).

(** [Eq(i)] on the cells of a row: an empty selection when out of range. *)
Definition cellAt (row : list listingCell) (i : nat) : listingCell :=
  default {| cellText := ""; cellLinks := []; cellSpans := "" |} (row !! i).

(** The body of the callback run for every body row. *)
Definition parseUpdateRow (titleColIndex lastUpdateColIndex : nat)
    (updates : gmap Z tournamentUpdate) (row : list listingCell)
  : gmap Z tournamentUpdate :=
  match head (cellLinks (cellAt row titleColIndex)) with
  | Some (Some href) =>
      match extractTournamentID href with
      | Ok tournamentID =>
          let lastUpdateText := TrimSpace (cellText (cellAt row lastUpdateColIndex)) in
          if String.eqb lastUpdateText "" then updates
          else if bool_decide (is_Some (updates !! tournamentID)) then updates
          else
            match ParseInLocation "02.01.2006 15:04" lastUpdateText Berlin with
            | Ok lastUpdate =>
                let badge := TrimSpace (cellSpans (cellAt row 0)) in
                let st :=
                  if String.eqb (ToLower badge) "abgesagt"
                  then TOURNAMENT_STATUS_CANCELLED
                  else if String.eqb (ToLower badge) "vorläufig"
                  then TOURNAMENT_STATUS_PROVISIONAL
                  else TOURNAMENT_STATUS_ANNOUNCED in
                <[tournamentID := {| updated := lastUpdate; status := st |}]> updates
            | _ => updates
            end
      | _ => updates
      end
  | _ => updates
  end.

(** [parseTournamentUpdates]; [table] is [None] when the page has no
    [table#list_tournaments]. *)
Definition parseTournamentUpdates (table : option listingTable)
  : outcome (gmap Z tournamentUpdate) :=
  match table with
  | None => Err (OtherError "could not find tournaments table")
  | Some table =>
      match columnIndex "Letzte Änderung" (headerCells table) with
      | None => Err (OtherError "could not find 'Letzte Änderung' column in table header")
      | Some lastUpdateColIndex =>
          match columnIndex "Turnier" (headerCells table) with
          | None => Err (OtherError "could not find 'Turnier' column in table header")
          | Some titleColIndex =>
              Ok (foldl (parseUpdateRow titleColIndex lastUpdateColIndex) ∅
                        (bodyRows table))
          end
      end
  end.

End Listing.

End Gto.


(** ** Package [db]: the SQLite repository

    Tables are kept as their rows.  [tournaments] and [calendars] have a
    primary key and are finite maps; [registrations] and
    [tournament_history] are row lists in insertion order, with their
    UNIQUE constraints checked on insertion.  Foreign keys are not
    enforced (the connection does not enable them).  The engine itself is
    taken to be reliable: the only storage errors are constraint
    violations. *)

Module Db.
Import GoTime Model.

Record TournamentRow : Type :=
  { title : string;
    status : string;
    location : string;
    geo_location : string;
    updated_at : Time;
    start_date : Time;
    end_date : Time;
    series : list string;
    pdga_tier : string;
    pdga_id : string;
    drating : bool }.

Record HistoryRow : Type :=
  { tournament_id : Z;
    date : Time;
    history_updated_at : Time;
    snapshot : Tournament }.

Record CalendarRow : Type :=
  { edit_id : string; calendar : Calendar }.

Record Repo : Type :=
  { tournaments_table : gmap Z TournamentRow;
    registrations_table : list (Z * Registration);   (* UNIQUE(id, title) *)
    calendars_table : gmap string CalendarRow;
    tournament_history_table : list HistoryRow }.     (* UNIQUE(tournament_id, date) *)

Definition emptyRepo : Repo :=
  {| tournaments_table := ∅; registrations_table := [];
     calendars_table := ∅; tournament_history_table := [] |}.

Definition sameRegistrationKey (id : Z) (t : string) (row : Z * Registration) : bool :=
  (row.1 =? id) && String.eqb (RegTitle row.2) t.

(** INSERT ... ON CONFLICT(id, title) DO UPDATE *)
Fixpoint upsertRegistrationRow (rows : list (Z * Registration))
    (id : Z) (registration : Registration) : list (Z * Registration) :=
  match rows with
  | [] => [(id, registration)]
  | row :: rest =>
      if sameRegistrationKey id (RegTitle registration) row
      then (id, registration) :: rest
      else row :: upsertRegistrationRow rest id registration
  end.

Definition UpsertRegistration (r : Repo) (tournamentId : Z)
    (registration : Registration) : Repo * dbresult unit :=
  ({| tournaments_table := tournaments_table r;
      registrations_table :=
        upsertRegistrationRow (registrations_table r) tournamentId registration;
      calendars_table := calendars_table r;
      tournament_history_table := tournament_history_table r |}, DbOk tt).

Definition rowOf (tournament : Tournament) : TournamentRow :=
  {| title := Title tournament; status := Status tournament;
     location := Localtion tournament; geo_location := GeoLocation tournament;
     updated_at := UpdatedAt tournament; start_date := StartDate tournament;
     end_date := EndDate tournament; series := Series tournament;
     pdga_tier := PdgaTier tournament; pdga_id := PdgaId tournament;
     drating := DRating tournament |}.

Fixpoint upsertRegistrations (r : Repo) (tournamentId : Z)
    (registrations : list Registration) : Repo * dbresult unit :=
  match registrations with
  | [] => (r, DbOk tt)
  | registration :: rest =>
      match UpsertRegistration r tournamentId registration with
      | (r', DbOk _) => upsertRegistrations r' tournamentId rest
      | (r', DbErr m) => (r', DbErr m)
      end
  end.

(** INSERT ... ON CONFLICT(id) DO UPDATE, then the registrations the
    tournament carries. *)
Definition UpsertTournament (r : Repo) (tournament : Tournament)
  : Repo * dbresult unit :=
  upsertRegistrations
    {| tournaments_table := <[Id tournament := rowOf tournament]> (tournaments_table r);
       registrations_table := registrations_table r;
       calendars_table := calendars_table r;
       tournament_history_table := tournament_history_table r |}
    (Id tournament) (Registrations tournament).

Definition getRegistrations (r : Repo) (tournamentId : Z) : list Registration :=
  (filter (λ row, row.1 = tournamentId) (registrations_table r)).*2.

Definition sameHistoryKey (id : Z) (now : Time) (row : HistoryRow) : bool :=
  (tournament_id row =? id) && Equal (date row) now.

(** [CreateTurnamentHistory]; [now] is the reading of [time.Now()].  The
    insert is refused when a row with the same tournament id and the same
    [date] value exists. *)
Definition CreateTurnamentHistory (r : Repo) (tournament : Tournament) (now : Time)
  : Repo * dbresult unit :=
  if existsb (sameHistoryKey (Id tournament) now) (tournament_history_table r)
  then (r, DbErr "UNIQUE constraint failed: tournament_history.tournament_id, tournament_history.date")
  else
    ({| tournaments_table := tournaments_table r;
        registrations_table := registrations_table r;
        calendars_table := calendars_table r;
        tournament_history_table :=
          tournament_history_table r ++
            [{| tournament_id := Id tournament; date := now;
                history_updated_at := UpdatedAt tournament;
                snapshot := tournament |}] |}, DbOk tt).

(** The number of history rows of each tournament id (a GROUP BY count):
    ids without a row are absent from the result. *)
Definition GetCalendarUpdateCount (r : Repo) : dbresult (gmap Z Z) :=
  DbOk (foldr (λ row result,
                 <[tournament_id row :=
                     default 0 (result !! tournament_id row) + 1]> result)
              ∅ (tournament_history_table r)).

Definition GetTournamentHistory (r : Repo) (id : Z) : dbresult (list Tournament) :=
  DbOk (snapshot <$> filter (λ row, tournament_id row = id) (tournament_history_table r)).

Definition GetAllTournaments (r : Repo) : dbresult (list Tournament) :=
  DbOk ((λ entry : Z * TournamentRow,
           let (id, row) := entry in
           {| Id := id; Status := status row; UpdatedAt := updated_at row;
              StartDate := start_date row; EndDate := end_date row;
              Title := title row; Localtion := location row;
              GeoLocation := geo_location row; Series := series row;
              PdgaTier := pdga_tier row; PdgaId := pdga_id row;
              DRating := drating row;
              Registrations := getRegistrations r id |})
          <$> map_to_list (tournaments_table r)).

Definition GetCalendarById (r : Repo) (id : string) : dbresult (option Calendar) :=
  DbOk (calendar <$> calendars_table r !! id).

Definition GetCalendarByEditId (r : Repo) (editId : string) : dbresult (option Calendar) :=
  DbOk (calendar <$> head (filter (λ row, edit_id row = editId)
                                  (map_to_list (calendars_table r)).*2)).

Definition SetCalendarRetrievedAt (r : Repo) (calendarId : string) (now : Time)
  : Repo * dbresult unit :=
  ({| tournaments_table := tournaments_table r;
      registrations_table := registrations_table r;
      calendars_table :=
        alter (λ row,
                 {| edit_id := edit_id row;
                    calendar :=
                      {| CalId_ := CalId_ (calendar row);
                         CalTitle := CalTitle (calendar row);
                         CalEmail := CalEmail (calendar row);
                         CalCreatedAt := CalCreatedAt (calendar row);
                         CalUpdatedAt := CalUpdatedAt (calendar row);
                         CalRetrievedAt := Some now;
                         Config := Config (calendar row) |} |})
              calendarId (calendars_table r);
      tournament_history_table := tournament_history_table r |}, DbOk tt).

(** *** Calendars

    The [calendars] table keeps each row as [getCalendar] decodes it: the
    [subscription_config] column holds the JSON of the configuration, and a
    JSON [null] (a nil configuration) is read back as the empty
    configuration the decoder starts from. *)

(** [model.SubscriptionConfig{Tournaments: []int{}, Series: []string{}}] *)
Definition emptyConfig : SubscriptionConfig :=
  {| CfgTournaments := []; CfgSeries := [] |}.

(** [CreateCalendar]: a plain INSERT, [id] is the primary key.
    [createdAt] and [updatedAt] are the two readings of [time.Now()]. *)
Definition CreateCalendar (r : Repo) (id editId title : string)
    (config : SubscriptionConfig) (createdAt updatedAt : Time)
  : Repo * dbresult unit :=
  match calendars_table r !! id with
  | Some _ => (r, DbErr "UNIQUE constraint failed: calendars.id")
  | None =>
      ({| tournaments_table := tournaments_table r;
          registrations_table := registrations_table r;
          calendars_table :=
            <[id := {| edit_id := editId;
                       calendar :=
                         {| CalId_ := id; CalTitle := title; CalEmail := "";
                            CalCreatedAt := createdAt; CalUpdatedAt := updatedAt;
                            CalRetrievedAt := None;
                            Config := Some config |} |}]> (calendars_table r);
          tournament_history_table := tournament_history_table r |}, DbOk tt)
  end.

(** [UpdateCalendar]: UPDATE ... SET title, updated_at, subscription_config
    WHERE id; [now] is the reading of [time.Now()].  No row is touched
    when the id is unknown, and that is no error. *)
Definition UpdateCalendar (r : Repo) (cal : option Calendar) (now : Time)
  : Repo * dbresult unit :=
  match cal with
  | None => (r, DbErr "Empty calendar cannot be saved")
  | Some cal =>
      ({| tournaments_table := tournaments_table r;
          registrations_table := registrations_table r;
          calendars_table :=
            alter (λ row,
                     {| edit_id := edit_id row;
                        calendar :=
                          {| CalId_ := CalId_ (calendar row);
                             CalTitle := CalTitle cal;
                             CalEmail := CalEmail (calendar row);
                             CalCreatedAt := CalCreatedAt (calendar row);
                             CalUpdatedAt := now;
                             CalRetrievedAt := CalRetrievedAt (calendar row);
                             Config := Some (default emptyConfig (Config cal)) |} |})
                  (CalId_ cal) (calendars_table r);
          tournament_history_table := tournament_history_table r |}, DbOk tt)
  end.

(** [DeleteCalendar]: DELETE ... WHERE id. *)
Definition DeleteCalendar (r : Repo) (id : string) : Repo * dbresult unit :=
  ({| tournaments_table := tournaments_table r;
      registrations_table := registrations_table r;
      calendars_table := delete id (calendars_table r);
      tournament_history_table := tournament_history_table r |}, DbOk tt).

(** [GetCalendars]: every row, in the order the engine returns them. *)
Definition GetCalendars (r : Repo) : dbresult (list Calendar) :=
  DbOk (calendar <$> (map_to_list (calendars_table r)).*2).

End Db.

(** ** Package [service] *)

Module Service.
Import GoTime Model.

(** *** The collaborators, as the interfaces the package declares *)

Class TournamentRepo (R : Type) : Type :=
  { UpsertTournament : R -> Tournament -> R * dbresult unit;
    GetAllTournaments : R -> dbresult (list Tournament);
    CreateTurnamentHistory : R -> Tournament -> Time -> R * dbresult unit;
    UpsertRegistration : R -> Z -> Registration -> R * dbresult unit;
    GetTournamentHistory : R -> Z -> dbresult (list Tournament) }.

Class CalendarRepo (R : Type) : Type :=
  { GetCalendarById : R -> string -> dbresult (option Calendar);
    GetCalendarByEditId : R -> string -> dbresult (option Calendar);
    GetCalendarUpdateCount : R -> dbresult (gmap Z Z);
    SetCalendarRetrievedAt : R -> string -> Time -> R * dbresult unit }.

(** What the remote source answers during one cycle.  [FetchTournaments]
    is the returned map as the [range] statement visits it. *)
Record GtoService : Type :=
  { FetchEventDetails : Z -> outcome EventDetails;
    FetchTournaments : outcome (list Tournament) }.

(** *** TournamentService

    [tournaments] maps an id to a pointer; [heap] holds the tournament
    objects the pointers denote (a pointer is an index of [heap], [None]
    is nil). *)
Record TournamentService (R : Type) : Type :=
  { tournaments : gmap Z nat;
    heap : list Tournament;
    repo : R;
    lastSync : option Time }.

Arguments tournaments {R} _.
Arguments heap {R} _.
Arguments repo {R} _.
Arguments lastSync {R} _.

Section TournamentService.
Context {R : Type}.

Definition GetTournament (s : TournamentService R) (id : Z) : option nat :=
  tournaments s !! id.

Definition deref (s : TournamentService R) (p : option nat) : option Tournament :=
  p ≫= λ a, heap s !! a.

(** [getTournaments]; [visit] is the order in which the map is ranged over. *)
Definition getTournaments (s : TournamentService R) (visit : list (Z * nat))
    (filter : Tournament -> bool) : list (option nat) :=
  foldl (λ result entry,
           match heap s !! entry.2 with
           | Some t => if filter t then (result ++ [Some entry.2])%list else result
           | None => result
           end) [] visit.

Definition GetTournamentsForSeries (s : TournamentService R)
    (visit : list (Z * nat)) (series : list string) : list (option nat) :=
  getTournaments s visit
    (λ t, existsb (λ se, bool_decide (se ∈ series)) (Series t)).

Definition withRepo (s : TournamentService R) (r : R) : TournamentService R :=
  {| tournaments := tournaments s; heap := heap s; repo := r; lastSync := lastSync s |}.

Context `{!TournamentRepo R}.

(** [init]: every stored tournament becomes an object of its own. *)
Definition init (s : TournamentService R) : TournamentService R * outcome unit :=
  match GetAllTournaments (repo s) with
  | DbOk t =>
      (foldl (λ (s : TournamentService R) tt,
                {| tournaments := <[Id tt := length (heap s)]> (tournaments s);
                   heap := heap s ++ [tt];
                   repo := repo s;
                   lastSync := lastSync s |}) s t, Ok tt)
  | DbErr m => (s, Err (OtherError m))
  end.

Definition NewTournamentService (r : R) : TournamentService R * outcome unit :=
  init {| tournaments := ∅; heap := []; repo := r; lastSync := None |}.

(** The fields copied from the detail page (Sync). *)
Definition enrich (fetchedTournament : Tournament) (details : EventDetails)
  : Tournament :=
  {| Id := Id fetchedTournament; Status := Status fetchedTournament;
     UpdatedAt := UpdatedAt fetchedTournament;
     StartDate := DetStartDate details;
     EndDate := DetEndDate details;
     Title := DetTitle details;
     Localtion := DetLocation details;
     GeoLocation := DetGeoLocation details;
     Series := DetSeries details;
     PdgaTier := PDGATier details;
     PdgaId := PDGAId details;
     DRating := DRatingConsideration details;
     Registrations := Registrations fetchedTournament |}.

Definition registrationOf (p : RegistrationPhase) : Registration :=
  {| RegTitle := Name p; RegStartDate := PhaseStartDate p; RegEndDate := PhaseEndDate p |}.

(** The phase loop: every phase is upserted (the error is dropped) and
    appended to the tournament's registrations. *)
Fixpoint syncPhases (r : R) (fetchedTournament : Tournament)
    (phases : list RegistrationPhase) : R * Tournament :=
  match phases with
  | [] => (r, fetchedTournament)
  | p :: rest =>
      let reg := registrationOf p in
      let r' := (UpsertRegistration r (Id fetchedTournament) reg).1 in
      syncPhases r'
        {| Id := Id fetchedTournament; Status := Status fetchedTournament;
           UpdatedAt := UpdatedAt fetchedTournament;
           StartDate := StartDate fetchedTournament;
           EndDate := EndDate fetchedTournament;
           Title := Title fetchedTournament;
           Localtion := Localtion fetchedTournament;
           GeoLocation := GeoLocation fetchedTournament;
           Series := Series fetchedTournament;
           PdgaTier := PdgaTier fetchedTournament;
           PdgaId := PdgaId fetchedTournament;
           DRating := DRating fetchedTournament;
           Registrations := Registrations fetchedTournament ++ [reg] |}
        rest
  end.

(** The test that guards the body of the loop of [Sync]. *)
Definition changed (storedTournament : option Tournament)
    (fetchedTournament : Tournament) : bool :=
  match storedTournament with
  | None => true
  | Some stored => Before (UpdatedAt stored) (UpdatedAt fetchedTournament)
  end.

(** One round of the loop of [Sync]; [now] is the reading of
    [time.Now()] during the round.  The object stored in the map is the
    fetched object itself, so the map entry sees the registrations
    appended after the assignment: the object enters [heap] with them.
    A failure ends the cycle and keeps what the round has already done. *)
Definition syncRound (gto : GtoService) (now : Time)
    (fetchedTournament : Tournament) (s : TournamentService R)
  : TournamentService R * outcome unit :=
  let storedTournament := deref s (GetTournament s (Id fetchedTournament)) in
  if changed storedTournament fetchedTournament then
    match FetchEventDetails gto (Id fetchedTournament) with
    | Ok details =>
        let fetchedTournament := enrich fetchedTournament details in
        let r1 := (UpsertTournament (repo s) fetchedTournament).1 in
        let '(r2, fetchedTournament) :=
          syncPhases r1 fetchedTournament (RegistrationPhases details) in
        let s' : TournamentService R :=
          {| tournaments := <[Id fetchedTournament := length (heap s)]> (tournaments s);
             heap := heap s ++ [fetchedTournament];
             repo := r2;
             lastSync := lastSync s |} in
        match CreateTurnamentHistory r2 fetchedTournament now with
        | (r3, DbOk _) => (withRepo s' r3, Ok tt)
        | (r3, DbErr m) => (withRepo s' r3, Err (OtherError m))
        end
    | Err e => (s, Err e)
    | Panic m => (s, Panic m)
    end
  else (s, Ok tt).

(** The loop of [Sync] from its [i]-th round on; [clock i] is the reading
    of the clock during round [i]. *)
Fixpoint syncFrom (gto : GtoService) (clock : nat -> Time) (i : nat)
    (fetched : list Tournament) (s : TournamentService R)
  : TournamentService R * outcome unit :=
  match fetched with
  | [] => (s, Ok tt)
  | fetchedTournament :: rest =>
      match syncRound gto (clock i) fetchedTournament s with
      | (s', Ok _) => syncFrom gto clock (S i) rest s'
      | (s', failure) => (s', failure)
      end
  end.

(** [Sync]: one cycle. *)
Definition Sync (gto : GtoService) (clock : nat -> Time) (s : TournamentService R)
  : TournamentService R * outcome unit :=
  match FetchTournaments gto with
  | Ok gtoTournaments =>
      match syncFrom gto clock 0 gtoTournaments s with
      | (s', Ok _) =>
          ({| tournaments := tournaments s'; heap := heap s'; repo := repo s';
              lastSync := Some (clock (length gtoTournaments)) |}, Ok tt)
      | (s', failure) => (s', failure)
      end
  | Err e => (s, Err e)
  | Panic m => (s, Panic m)
  end.

(** [GetTournaments]: every pointer of the map. *)
Definition GetTournaments (s : TournamentService R) (visit : list (Z * nat))
  : list (option nat) :=
  getTournaments s visit (λ _, true).

(** One tournament's round of the loop of [GetAllSeries]: its series that
    are not yet in [set] are appended. *)
Definition addSeries (acc : gset string * list string) (series : list string)
  : gset string * list string :=
  foldl (λ (acc : gset string * list string) se,
           if bool_decide (se ∈ acc.1) then acc
           else ({[ se ]} ∪ acc.1, (acc.2 ++ [se])%list))
        acc series.

(** [GetAllSeries(active...)]: the variadic [active] counts only when it
    has exactly one element, otherwise it is [true]. *)
Definition GetAllSeries (s : TournamentService R) (visit : list (Z * nat))
    (active : list bool) : list string :=
  let active0 := match active with [a] => a | _ => true end in
  (foldl (λ (acc : gset string * list string) entry,
            match heap s !! entry.2 with
            | Some t =>
                if active0
                   && bool_decide (Status t ∈
                        [TOURNAMENT_STATUS_CANCELLED; TOURNAMENT_STATUS_DONE])
                then acc
                else addSeries acc (Series t)
            | None => acc
            end) (∅, []) visit).2.

(** [GetLastSync]: a copy of the time of the last completed cycle. *)
Definition GetLastSync (s : TournamentService R) : option Time := lastSync s.

End TournamentService.

(** *** CalendarService *)

Record CalId : Type := { cal_t : Z; cal_id : string }.

Definition CalendarId (id : string) : CalId := {| cal_t := 0; cal_id := id |}.
Definition CalendarEditId (id : string) : CalId := {| cal_t := 1; cal_id := id |}.

Definition GetCalendar {R : Type} `{!CalendarRepo R} (r : R) (id : CalId)
  : dbresult (option Calendar) :=
  if cal_t id =? 1 then GetCalendarByEditId r (cal_id id)
  else GetCalendarById r (cal_id id).

Definition GetUpdateCount {R : Type} `{!CalendarRepo R} (r : R)
  : dbresult (gmap Z Z) := GetCalendarUpdateCount r.

(** *** IcsService

    The export is kept as the calendar object that [Serialize] prints. *)

Record Alarm : Type :=
  { AlarmDescription : string; AlarmAction : string; AlarmTrigger : string }.

Record IcsEvent : Type :=
  { UID : string;
    Sequence : Z;
    DtStamp : Time;
    EventSummary : string;
    Description : string;
    AllDayStartAt : option Time;
    AllDayEndAt : option Time;
    StartAt : option Time;
    EndAt : option Time;
    TimeTransparency : string;
    LocationProp : option string;
    RelatedTo : option string;
    MicrosoftAllDay : option string;
    Alarms : list Alarm }.

Record IcsCalendar : Type :=
  { ProductId : string; Method : string; CalName : string; Events : list IcsEvent }.

Definition newline : string := String (ascii_of_nat 10) EmptyString.

Definition eventUrl (id : Z) : string :=
  "https://turniere.discgolf.de/index.php?p=events&sp=view&id=" ++ pretty id.

Definition tournamentUID (id : Z) : string :=
  "tournament-" ++ pretty id ++ "@dg-cal".

Definition registrationUID (id : Z) (i : nat) : string :=
  "registration-" ++ pretty id ++ "-" ++ pretty i ++ "@dg-cal".

(** [updateCount[id]]: a missing key reads as 0. *)
Definition countOf (updateCount : gmap Z Z) (id : Z) : Z :=
  default 0 (updateCount !! id).

Definition tournamentEvent (updateCount : gmap Z Z) (tournament : Tournament)
  : IcsEvent :=
  {| UID := tournamentUID (Id tournament);
     Sequence := countOf updateCount (Id tournament);
     DtStamp := UpdatedAt tournament;
     EventSummary := Title tournament;
     Description := eventUrl (Id tournament);
     AllDayStartAt := Some (StartDate tournament);
     AllDayEndAt := Some (Add (EndDate tournament) (Hour_ns * 24));
     StartAt := None;
     EndAt := None;
     TimeTransparency := "TRANSPARENT";
     LocationProp := Some (Localtion tournament);
     RelatedTo := None;
     MicrosoftAllDay := Some "TRUE";
     Alarms := [] |}.

Definition registrationEvent (updateCount : gmap Z Z) (tournament : Tournament)
    (i : nat) (reg : Registration) : IcsEvent :=
  {| UID := registrationUID (Id tournament) i;
     Sequence := countOf updateCount (Id tournament);
     DtStamp := UpdatedAt tournament;
     EventSummary := "Anmeldung: " ++ Title tournament;
     Description := RegTitle reg ++ newline ++ eventUrl (Id tournament);
     AllDayStartAt := None;
     AllDayEndAt := None;
     StartAt := Some (RegStartDate reg);
     EndAt := Some (Add (RegStartDate reg) (Hour_ns * 2));
     TimeTransparency := "TRANSPARENT";
     LocationProp := None;
     RelatedTo := Some (tournamentUID (Id tournament));
     MicrosoftAllDay := None;
     Alarms := [{| AlarmDescription :=
                     "Anmeldung: " ++ Title tournament ++ " (" ++ RegTitle reg ++ ")";
                   AlarmAction := "DISPLAY";
                   AlarmTrigger := "-PT15M" |}] |}.

(** The events added for one tournament: its own, then one per
    registration, in order. *)
Definition eventsOf (updateCount : gmap Z Z) (tournament : Tournament)
  : list IcsEvent :=
  tournamentEvent updateCount tournament
    :: imap (registrationEvent updateCount tournament) (Registrations tournament).

Section IcsService.
Context {R : Type} `{!CalendarRepo R}.

(** The subscriber's filter resolved to pointers (ics.go:40-47): the
    series matches, then every listed id whose pointer is not yet in the
    slice ([slices.Contains] compares pointers; an unknown id yields nil). *)
Definition resolveTournaments (s : TournamentService R) (visit : list (Z * nat))
    (config : SubscriptionConfig) : list (option nat) :=
  foldl (λ tournaments tid,
           let tournament := GetTournament s tid in
           if bool_decide (tournament ∈ tournaments) then tournaments
           else (tournaments ++ [tournament])%list)
        (GetTournamentsForSeries s visit (CfgSeries config))
        (CfgTournaments config).

(** The events of the resolved tournaments; nil entries are skipped. *)
Definition exportEvents (s : TournamentService R) (updateCount : gmap Z Z)
    (resolved : list (option nat)) : list IcsEvent :=
  flat_map (λ tournament,
              match deref s tournament with
              | Some t => eventsOf updateCount t
              | None => []
              end) resolved.

(** [CreateIcs]; [now] is the reading of [time.Now()] when the retrieval
    is recorded (a failure to record it is only logged). *)
Definition CreateIcs (s : TournamentService R) (visit : list (Z * nat))
    (now : Time) (id : string) : TournamentService R * outcome IcsCalendar :=
  match GetCalendar (repo s) (CalendarId id) with
  | DbErr m => (s, Err (OtherError m))
  | DbOk None => (s, Err NotFoundError)
  | DbOk (Some calendar) =>
      match GetUpdateCount (repo s) with
      | DbErr m => (s, Err (OtherError m))
      | DbOk updateCount =>
          match Config calendar with
          | None => (s, Panic "nil pointer dereference")
          | Some config =>
              let tournaments := resolveTournaments s visit config in
              let events := exportEvents s updateCount tournaments in
              let r' := (SetCalendarRetrievedAt (repo s) (CalId_ calendar) now).1 in
              (withRepo s r',
               Ok {| ProductId := "dg-cal v0.1"; Method := "PUBLISH";
                     CalName := CalTitle calendar; Events := events |})
          end
      end
  end.

End IcsService.

(** *** CalendarService: creating, changing and deleting calendars *)

(** The remaining methods of the interface [CalendarRepo]. *)
Class CalendarAdminRepo (R : Type) : Type :=
  { CreateCalendar :
      R -> string -> string -> string -> SubscriptionConfig -> Time -> Time
      -> R * dbresult unit;
    UpdateCalendar : R -> option Calendar -> Time -> R * dbresult unit;
    GetCalendars : R -> dbresult (list Calendar);
    DeleteCalendar : R -> string -> R * dbresult unit }.

Definition idGroupLen : nat := 4.
Definition idGroups : nat := 4.
Definition charset : string := "abcdefghjkmnpqrstuvwxyz23456789".

(** The loop of [generateSecret] from position [i] on; [draw i] is the
    number [rand.Int] returns for position [i].  [charset] is indexed
    with it. *)
Fixpoint secretFrom (draw : nat -> Z) (i n : nat) : outcome string :=
  match n with
  | O => Ok ""
  | S n' =>
      match (if draw i <? 0 then None
             else String.get (Z.to_nat (draw i)) charset) with
      | Some c => do rest <- secretFrom draw (S i) n'; Ok (String c rest)
      | None => Panic "index out of range"
      end
  end.

Definition generateSecret (draw : nat -> Z) : outcome string :=
  secretFrom draw 0 (idGroupLen * idGroups).

Module CalendarService.
Section CalendarService.
Context {R : Type} `{!CalendarRepo R} `{!CalendarAdminRepo R}.

(** [CreateCalendar]; [id] is what [rand.Text()] returns, [draw] are the
    numbers drawn for the edit identifier. *)
Definition CreateCalendar (r : R) (id : string) (draw : nat -> Z)
    (title : string) (config : SubscriptionConfig) (createdAt updatedAt : Time)
  : R * outcome string :=
  match generateSecret draw with
  | Ok editId =>
      match Service.CreateCalendar r id editId title config createdAt updatedAt with
      | (r', DbOk _) => (r', Ok editId)
      | (r', DbErr m) => (r', Err (OtherError m))
      end
  | Err e => (r, Err e)
  | Panic m => (r, Panic m)
  end.

Definition UpdateCalendar (r : R) (cal : option Calendar) (now : Time)
  : R * outcome (option Calendar) :=
  match Service.UpdateCalendar r cal now with
  | (r', DbOk _) => (r', Ok cal)
  | (r', DbErr m) => (r', Err (OtherError m))
  end.

Definition GetAllCalendars (r : R) : dbresult (list Calendar) :=
  Service.GetCalendars r.

Definition DeleteCalendar (r : R) (id : string) : R * dbresult unit :=
  Service.DeleteCalendar r id.

End CalendarService.
End CalendarService.

End Service.

(** ** Package [web]: the feed handler *)

Module Web.
Import GoTime Model Service.

Inductive body : Type :=
  | Text (s : string)
  | CalendarFile (c : IcsCalendar).     (* text/calendar, the serialised export *)

Record Response : Type := { StatusCode : Z; Body : body }.

Definition StatusOK : Z := 200.
Definition StatusNotFound : Z := 404.
Definition StatusInternalServerError : Z := 500.

Definition errorText (e : error) : string :=
  match e with
  | NotFoundError => "Not found"
  | OtherError m => m
  end.

Definition IcsHandler {R : Type} `{!CalendarRepo R} (s : TournamentService R)
    (visit : list (Z * nat)) (now : Time) (id : string)
  : TournamentService R * outcome Response :=
  match CreateIcs s visit now id with
  | (s', Err NotFoundError) =>
      (s', Ok {| StatusCode := StatusNotFound; Body := Text "Not found" |})
  | (s', Err e) =>
      (s', Ok {| StatusCode := StatusInternalServerError; Body := Text (errorText e) |})
  | (s', Ok result) =>
      (s', Ok {| StatusCode := StatusOK; Body := CalendarFile result |})
  | (s', Panic m) => (s', Panic m)
  end.

(** *** Calendar management *)

(** What the calendar handlers answer: [http.Error(w, msg, code)] or
    [http.Redirect(w, r, url, code)]. *)
Inductive reply : Type :=
  | Error (msg : string) (code : Z)
  | Redirect (url : string) (code : Z).

Definition StatusSeeOther : Z := 303.
Definition StatusBadRequest : Z := 400.
Definition StatusMethodNotAllowed : Z := 405.

(** A request as the handlers read it: the method, the path value [id]
    and the parsed form ([None] when [ParseForm] fails). *)
Record Request : Type :=
  { Method : string;
    PathId : string;
    Form : option (gmap string (list string)) }.

(** [r.FormValue(key)]: the first value of the key, or the empty string. *)
Definition FormValue (r : Request) (key : string) : string :=
  match Form r with
  | Some form => default "" (form !! key ≫= head)
  | None => ""
  end.

Section CalendarHandlers.
Context {R : Type} `{!CalendarRepo R} `{!CalendarAdminRepo R}.

(** [CreateCalendarHandler]; [id], [draw] and the two clock readings are
    what the calendar service draws and reads when it is called. *)
Definition CreateCalendarHandler (repo : R) (r : Request) (id : string)
    (draw : nat -> Z) (createdAt updatedAt : Time) : R * outcome reply :=
  match Form r with
  | None => (repo, Ok (Error "Failed to parse form" StatusBadRequest))
  | Some _ =>
      let title := FormValue r "title" in
      if String.eqb title "" then (repo, Ok (Error "Title is required" StatusBadRequest))
      else
        match CalendarService.CreateCalendar repo id draw title
                {| CfgTournaments := []; CfgSeries := [] |} createdAt updatedAt with
        | (repo', Ok editId) =>
            (repo', Ok (Redirect ("/calendar/created?id=" ++ editId) StatusSeeOther))
        | (repo', Err e) =>
            (repo', Ok (Error (errorText e) StatusInternalServerError))
        | (repo', Panic m) => (repo', Panic m)
        end
  end.

(** [DeleteCalendarHandler] *)
Definition DeleteCalendarHandler (repo : R) (r : Request) : R * reply :=
  if negb (String.eqb (Method r) "POST")
  then (repo, Error "Method not allowed" StatusMethodNotAllowed)
  else
    let calendarId := PathId r in
    if String.eqb calendarId "" then (repo, Error "Calendar ID is required" StatusBadRequest)
    else
      match CalendarService.DeleteCalendar repo calendarId with
      | (repo', DbOk _) => (repo', Redirect "/admin" StatusSeeOther)
      | (repo', DbErr _) =>
          (repo', Error "Failed to delete calendar" StatusInternalServerError)
      end.

End CalendarHandlers.

(** *** Template functions *)

(** [formatAccessCode] *)
Definition formatAccessCode (code : string) : string :=
  let code := GoStrings.ReplaceAll code "-" "" in
  if negb (String.length code =? 16)%nat then code
  else String.substring 0 4 code ++ "-" ++ String.substring 4 4 code ++ "-"
       ++ String.substring 8 4 code ++ "-" ++ String.substring 12 4 code.

(** [sameDay]; an argument that is not a [time.Time] is [None]. *)
Definition sameDay (start end_ : option Time) : bool :=
  match start, end_ with
  | Some startDate, Some endDate =>
      (Year startDate =? Year endDate)
      && (Month startDate =? Month endDate)
      && (Day startDate =? Day endDate)
  | _, _ => false
  end.

(** *** Translations *)

Record Translator : Type :=
  { translations : gmap string (gmap string string);   (* lang -> key -> value *)
    translatorDefaultLang : string }.

(** [Translator.T] *)
Definition T (t : Translator) (lang key : string) : string :=
  match translations t !! lang ≫= (λ langMap, langMap !! key) with
  | Some val => val
  | None =>
      if negb (String.eqb lang (translatorDefaultLang t)) then
        match translations t !! translatorDefaultLang t
                ≫= (λ langMap, langMap !! key) with
        | Some val => val
        | None => key
        end
      else key
  end.

(** [Translator.TWithArgs]; every argument is given as [fmt.Sprint]
    prints it. *)
Definition TWithArgs (t : Translator) (lang key : string) (args : list string)
  : string :=
  foldl (λ translated (entry : nat * string),
           GoStrings.ReplaceAll translated ("{" ++ pretty entry.1 ++ "}") entry.2)
        (T t lang key) (imap pair args).

(** [Translator.HasLanguage] *)
Definition HasLanguage (t : Translator) (lang : string) : bool :=
  bool_decide (is_Some (translations t !! lang)).

(** *** The registrations page

    The rows [RegistrationsHandler] builds for the phases that are not
    closed, before it sorts them by start.  [daysOf d] is
    [int(d.Hours() / 24)] for a duration of [d] nanoseconds, a float64
    computation that is not modelled. *)

Record RegistrationWithTournament : Type :=
  { TournamentId : Z;
    TournamentTitle : string;
    TournamentDate : Time;
    TournamentEndDate : Time;
    TournamentSeries : list string;
    PhaseTitle : string;
    RegistrationStart : Time;
    RegistrationEnd : Time;
    IsActive : bool;
    OpensToday : bool;
    OpensTomorrow : bool;
    ClosesToday : bool;
    ClosesTomorrow : bool;
    DaysLeft : Z;
    OpensInDays : Z }.

Section RegistrationsPage.
Variable daysOf : Z -> Z.

Definition registrationRow (now : Time) (t : Tournament) (phase : Registration)
  : RegistrationWithTournament :=
  let today := Date (Year now) (Month now) (Day now) 0 0 0 0 (Location_of now) in
  let tomorrow := Add today (24 * Hour_ns) in
  let dayAfterTomorrow := Add tomorrow (24 * Hour_ns) in
  let isActive := After now (RegStartDate phase) && Before now (RegEndDate phase) in
  let opensToday :=
    negb isActive && After (RegStartDate phase) now
    && Before (RegStartDate phase) tomorrow in
  let opensTomorrow :=
    negb isActive && After (RegStartDate phase) tomorrow
    && Before (RegStartDate phase) dayAfterTomorrow in
  let closesToday :=
    isActive && After (RegEndDate phase) now && Before (RegEndDate phase) tomorrow in
  let closesTomorrow :=
    isActive && After (RegEndDate phase) tomorrow
    && Before (RegEndDate phase) dayAfterTomorrow in
  let daysLeft :=
    if isActive then Z.max 0 (daysOf (Sub (RegEndDate phase) now)) else 0 in
  let opensInDays :=
    if negb isActive && After (RegStartDate phase) now
    then Z.max 0 (daysOf (Sub (RegStartDate phase) now)) else 0 in
  {| TournamentId := Id t; TournamentTitle := Title t;
     TournamentDate := StartDate t; TournamentEndDate := EndDate t;
     TournamentSeries := Series t; PhaseTitle := RegTitle phase;
     RegistrationStart := RegStartDate phase; RegistrationEnd := RegEndDate phase;
     IsActive := isActive; OpensToday := opensToday; OpensTomorrow := opensTomorrow;
     ClosesToday := closesToday; ClosesTomorrow := closesTomorrow;
     DaysLeft := daysLeft; OpensInDays := opensInDays |}.

(** The two lists, [(open, upcoming)]; [clock] is [time.Now()], [tournaments]
    what [GetTournaments] returned. *)
Definition registrationRows (l : Location) (clock : Time)
    (tournaments : list Tournament)
  : list RegistrationWithTournament * list RegistrationWithTournament :=
  let now := GoTime.In clock l in
  foldl (λ lists t,
           foldl (λ (lists : list RegistrationWithTournament
                              * list RegistrationWithTournament) phase,
                    if Before (RegEndDate phase) now then lists
                    else
                      let reg := registrationRow now t phase in
                      if IsActive reg then ((lists.1 ++ [reg])%list, lists.2)
                      else (lists.1, (lists.2 ++ [reg])%list))
                 lists (Registrations t))
        ([], []) tournaments.

End RegistrationsPage.

End Web.

(** ** Package [main]: the scheduler *)

Module Main.
Import GoTime Model Service.

Section Scheduler.
Context {R : Type} `{!TournamentRepo R}.


End Scheduler.
End Main.

(** ** Wiring ([main]): the SQLite repository implements both interfaces *)

#[export] Instance Repo_TournamentRepo : Service.TournamentRepo Db.Repo :=
  {| Service.UpsertTournament := Db.UpsertTournament;
     Service.GetAllTournaments := Db.GetAllTournaments;
     Service.CreateTurnamentHistory := Db.CreateTurnamentHistory;
     Service.UpsertRegistration := Db.UpsertRegistration;
     Service.GetTournamentHistory := Db.GetTournamentHistory |}.

#[export] Instance Repo_CalendarRepo : Service.CalendarRepo Db.Repo :=
  {| Service.GetCalendarById := Db.GetCalendarById;
     Service.GetCalendarByEditId := Db.GetCalendarByEditId;
     Service.GetCalendarUpdateCount := Db.GetCalendarUpdateCount;
     Service.SetCalendarRetrievedAt := Db.SetCalendarRetrievedAt |}.

#[export] Instance Repo_CalendarAdminRepo : Service.CalendarAdminRepo Db.Repo :=
  {| Service.CreateCalendar := Db.CreateCalendar;
     Service.UpdateCalendar := Db.UpdateCalendar;
     Service.GetCalendars := Db.GetCalendars;
     Service.DeleteCalendar := Db.DeleteCalendar |}.

(** ** Vocabulary of the properties *)

(** The wall-clock reading [w] (seconds) exists in location [l] and
    [time.Date] finds it: the offset that [Date] settles on is the one in
    force at the instant it returns. *)
Definition wallClockExists (l : GoTime.Location) (w : Z) : Prop :=
  let o := GoTime.zoneOffset l (w - GoTime.zoneOffset l w) in
  GoTime.zoneOffset l (w - o) = o.

(** The calendar date that precedes a calendar date. *)
Definition prevCivil (date : Z * Z * Z) : Z * Z * Z :=
  let '(y, m, d) := date in
  if 1 <? d then (y, m, d - 1)
  else if 1 <? m then (y, m - 1, GoTime.daysIn (m - 1) y)
  else (y - 1, 12, 31).

(** Midnight at the start of wall-clock day [day], in seconds. *)
Definition midnight (day : Z) : Z := day * GoTime.secondsPerDay.

(** A location whose clocks go forward at local midnight: America/Havana
    in 2024 (UTC-5; summer time UTC-4 from 2024-03-10 05:00 UTC, when
    local 00:00 becomes 01:00, until 2024-11-03 05:00 UTC). *)
Definition Havana2024 : GoTime.Location :=
  {| GoTime.zoneName := "America/Havana";
     GoTime.zoneOffset := fun u =>
       if (1710046800 <=? u) && (u <? 1730610000) then -14400 else -18000 |}.

(** A schedule-feed entry with the given identifier and bounds. *)
Definition feedEntry (uid : string) (dtStart dtEnd : GoTime.Time) : Ical.VEvent :=
  {| Ical.EventId := uid; Ical.GetStartAt := Ok dtStart;
     Ical.GetEndAt := Ok dtEnd; Ical.Summary := Some "Turnier" |}.

(** What one listing entry contributes to the merged result. *)
Definition merged (feed : gmap Z Model.Tournament) (id : Z)
    (u : Gto.tournamentUpdate) : option Model.Tournament :=
  Gto.mergeUpdate feed ∅ (id, u) !! id.

(** America/Los_Angeles around the start of summer time in 2011
    (02:00 PST = 10:00 UTC on 2011-03-13), the case of Go's own test
    table for [time.Date]. *)
Definition LosAngeles2011 : GoTime.Location :=
  {| GoTime.zoneName := "America/Los_Angeles";
     GoTime.zoneOffset := fun u => if 1300010400 <=? u then -25200 else -28800 |}.

(** The entry of the specification's example for C4. *)
Definition juneEntry : Ical.VEvent :=
  feedEntry "tournament-1@turniere.discgolf.de"
            (GoTime.Date 2024 6 1 0 0 0 0 GoTime.Berlin)
            (GoTime.Date 2024 6 3 0 0 0 0 GoTime.Berlin).

(** A small listing and schedule feed: tournament 1 is in both, 2 is
    cancelled and only in the listing, 3 is announced and only in the
    listing, 4 is only in the feed. *)
Definition listing0 : gmap Z Gto.tournamentUpdate :=
  <[1 := {| Gto.updated := GoTime.Date 2024 5 1 9 30 0 0 GoTime.UTC;
            Gto.status := Model.TOURNAMENT_STATUS_ANNOUNCED |}]>
  (<[2 := {| Gto.updated := GoTime.Date 2024 5 2 9 30 0 0 GoTime.UTC;
             Gto.status := Model.TOURNAMENT_STATUS_CANCELLED |}]>
  (<[3 := {| Gto.updated := GoTime.Date 2024 5 3 9 30 0 0 GoTime.UTC;
             Gto.status := Model.TOURNAMENT_STATUS_ANNOUNCED |}]> ∅)).

Definition feed0 : list Ical.VEvent :=
  [feedEntry "tournament-1@turniere.discgolf.de"
             (GoTime.Date 2024 6 1 0 0 0 0 GoTime.UTC)
             (GoTime.Date 2024 6 3 0 0 0 0 GoTime.UTC);
   feedEntry "tournament-4@turniere.discgolf.de"
             (GoTime.Date 2024 7 1 0 0 0 0 GoTime.UTC)
             (GoTime.Date 2024 7 2 0 0 0 0 GoTime.UTC)].

Definition parsedFeed0 : gmap Z Model.Tournament :=
  match Gto.parseIcsEvents feed0 with
  | Ok feed => feed
  | _ => ∅
  end.

(** The number of history snapshots stored for a tournament id. *)
Definition historyCount (r : Db.Repo) (id : Z) : Z :=
  Z.of_nat (length (filter (λ row, Db.tournament_id row = id)
                           (Db.tournament_history_table r))).

(** A tournament belongs to one of the subscribed series. *)
Definition seriesMatch (t : Model.Tournament) (series : list string) : Prop :=
  exists se, se ∈ Model.Series t /\ se ∈ series.

(** The tournaments for which events are emitted: the non-nil entries of
    the resolved slice. *)
Definition emitted {R : Type} (s : Service.TournamentService R)
    (resolved : list (option nat)) : list Model.Tournament :=
  omap (Service.deref s) resolved.

(** The in-memory map is well formed: every pointer denotes an object
    whose [Id] is the key it is stored under, and two keys never share an
    object. *)
Definition wfService {R : Type} (s : Service.TournamentService R) : Prop :=
  (forall k a, Service.tournaments s !! k = Some a ->
     exists t, Service.heap s !! a = Some t /\ Model.Id t = k)
  /\ (forall k1 k2 a, Service.tournaments s !! k1 = Some a ->
        Service.tournaments s !! k2 = Some a -> k1 = k2).

(** The test [getTournaments] applies to a visited map entry. *)
Definition selects {R : Type} (s : Service.TournamentService R)
    (f : Model.Tournament -> bool) (e : Z * nat) : bool :=
  match Service.heap s !! e.2 with
  | Some t => f t
  | None => false
  end.

(** Event [e] was emitted for tournament [t]: it carries the identifier
    of the tournament itself or of one of its registration phases. *)
Definition eventOfTournament (e : Service.IcsEvent) (t : Model.Tournament) : Prop :=
  Service.UID e = Service.tournamentUID (Model.Id t)
  \/ exists i reg, Model.Registrations t !! i = Some reg
                   /\ Service.UID e = Service.registrationUID (Model.Id t) i.

(** The record held in memory for an id, if any. *)
Definition stored {R : Type} (s : Service.TournamentService R) (id : Z)
  : option Model.Tournament :=
  Service.deref s (Service.GetTournament s id).

(** What the store holds about one tournament id: its row, its
    registration rows and its history rows. *)
Definition storeRows (r : Db.Repo) (id : Z)
  : option Db.TournamentRow * list (Z * Model.Registration) * list Db.HistoryRow :=
  (Db.tournaments_table r !! id,
   filter (λ row, row.1 = id) (Db.registrations_table r),
   filter (λ row, Db.tournament_id row = id) (Db.tournament_history_table r)).

(** The key of a history row as the UNIQUE constraint sees it, and the
    key the specification speaks of (tournament id, calendar day). *)
Definition historyKey (row : Db.HistoryRow) : Z * Z * Z :=
  (Db.tournament_id row, GoTime.unix (Db.date row), GoTime.nsec (Db.date row)).

Definition historyDayKey (row : Db.HistoryRow) : Z * Z :=
  (Db.tournament_id row, GoTime.wallDay (Db.date row)).

Definition historyUnique (r : Db.Repo) : Prop :=
  NoDup (historyKey <$> Db.tournament_history_table r).

Definition onePerDay (r : Db.Repo) : Prop :=
  NoDup (historyDayKey <$> Db.tournament_history_table r).

Definition registrationKey (row : Z * Model.Registration) : Z * string :=
  (row.1, Model.RegTitle row.2).

Definition registrationsUnique (r : Db.Repo) : Prop :=
  NoDup (registrationKey <$> Db.registrations_table r).

(** The registration rows after upserting [registrations], one after the
    other, for tournament [id]. *)
Definition upsertAll (rows : list (Z * Model.Registration)) (id : Z)
    (registrations : list Model.Registration) : list (Z * Model.Registration) :=
  foldl (λ rows registration, Db.upsertRegistrationRow rows id registration)
        rows registrations.

(** Every pointer of the map denotes an object of the heap. *)
Definition noDangling {R : Type} (s : Service.TournamentService R) : Prop :=
  forall k a, Service.tournaments s !! k = Some a -> (a < length (Service.heap s))%nat.

(** *** Two sync cycles on the same calendar day

    Tournament 1 is first seen in the morning of 2024-05-02 with one
    registration phase "Phase A"; at noon of the same day the remote
    record has a later [updatedAt] and its detail page shows the single
    phase "Phase B". *)
Definition emptyService : Service.TournamentService Db.Repo :=
  {| Service.tournaments := ∅; Service.heap := [];
     Service.repo := Db.emptyRepo; Service.lastSync := None |}.

Definition fetchedSample (id : Z) (updatedAt : GoTime.Time) : Model.Tournament :=
  {| Model.Id := id; Model.Status := Model.TOURNAMENT_STATUS_ANNOUNCED;
     Model.UpdatedAt := updatedAt;
     Model.StartDate := GoTime.Date 2024 6 1 0 0 0 0 GoTime.UTC;
     Model.EndDate := GoTime.Date 2024 6 2 0 0 0 0 GoTime.UTC;
     Model.Title := "Turnier"; Model.Localtion := ""; Model.GeoLocation := "";
     Model.Series := []; Model.PdgaTier := ""; Model.PdgaId := "";
     Model.DRating := false; Model.Registrations := [] |}.

Definition phaseSample (name : string) (day : Z) : Model.RegistrationPhase :=
  {| Model.Name := name;
     Model.PhaseStartDate := GoTime.Date 2024 4 day 18 0 0 0 GoTime.UTC;
     Model.PhaseEndDate := GoTime.Date 2024 4 (day + 7) 18 0 0 0 GoTime.UTC |}.

Definition detailsSample (id : Z) (phases : list Model.RegistrationPhase)
  : Model.EventDetails :=
  {| Model.DetID := id; Model.DetTitle := "Turnier";
     Model.DetStartDate := GoTime.Date 2024 6 1 0 0 0 0 GoTime.UTC;
     Model.DetEndDate := GoTime.Date 2024 6 2 0 0 0 0 GoTime.UTC;
     Model.DetLocation := "Berlin"; Model.DetGeoLocation := "";
     Model.DetSeries := ["A"]; Model.PDGATier := "C"; Model.PDGAId := "";
     Model.DRatingConsideration := true;
     Model.RegistrationPhases := phases |}.

Definition gtoMorning : Service.GtoService :=
  {| Service.FetchEventDetails := fun id => Ok (detailsSample id [phaseSample "Phase A" 1]);
     Service.FetchTournaments :=
       Ok [fetchedSample 1 (GoTime.Date 2024 5 1 9 30 0 0 GoTime.UTC)] |}.

Definition gtoNoon : Service.GtoService :=
  {| Service.FetchEventDetails := fun id => Ok (detailsSample id [phaseSample "Phase B" 8]);
     Service.FetchTournaments :=
       Ok [fetchedSample 1 (GoTime.Date 2024 5 2 10 0 0 0 GoTime.UTC)] |}.

Definition clockMorning : nat -> GoTime.Time :=
  fun _ => GoTime.Date 2024 5 2 8 0 0 0 GoTime.UTC.

Definition clockNoon : nat -> GoTime.Time :=
  fun _ => GoTime.Date 2024 5 2 12 0 0 0 GoTime.UTC.

Definition afterMorning : Service.TournamentService Db.Repo :=
  (Service.Sync gtoMorning clockMorning emptyService).1.

Definition afterNoon : Service.TournamentService Db.Repo :=
  (Service.Sync gtoNoon clockNoon afterMorning).1.

(** The noon round on its own (the cycle has not yet recorded its end). *)
Definition fetchedNoon : Model.Tournament :=
  fetchedSample 1 (GoTime.Date 2024 5 2 10 0 0 0 GoTime.UTC).

Definition afterNoonRound : Service.TournamentService Db.Repo :=
  (Service.syncRound gtoNoon (clockNoon 0%nat) fetchedNoon afterMorning).1.

(** *** A small system state used to exercise the feed generator

    Tournament 7 belongs to series "B" and has two registration phases,
    tournament 9 belongs to series "A".  The calendar "cal1" subscribes to
    series "A" and lists the ids 7 and 42 explicitly; 42 is unknown.
    The history holds two snapshots of tournament 7 and one of 9. *)
Definition sampleTournament (id : Z) (series : list string)
    (registrations : list Model.Registration) : Model.Tournament :=
  {| Model.Id := id; Model.Status := Model.TOURNAMENT_STATUS_ANNOUNCED;
     Model.UpdatedAt := GoTime.Date 2024 5 1 9 30 0 0 GoTime.UTC;
     Model.StartDate := GoTime.Date 2024 6 1 0 0 0 0 GoTime.UTC;
     Model.EndDate := GoTime.Date 2024 6 2 0 0 0 0 GoTime.UTC;
     Model.Title := "Turnier"; Model.Localtion := "Berlin";
     Model.GeoLocation := ""; Model.Series := series;
     Model.PdgaTier := "C"; Model.PdgaId := ""; Model.DRating := true;
     Model.Registrations := registrations |}.

Definition samplePhases : list Model.Registration :=
  [{| Model.RegTitle := "Phase 1";
      Model.RegStartDate := GoTime.Date 2024 4 1 18 0 0 0 GoTime.UTC;
      Model.RegEndDate := GoTime.Date 2024 4 8 18 0 0 0 GoTime.UTC |};
   {| Model.RegTitle := "Phase 2";
      Model.RegStartDate := GoTime.Date 2024 4 8 18 0 0 0 GoTime.UTC;
      Model.RegEndDate := GoTime.Date 2024 5 1 18 0 0 0 GoTime.UTC |}].

Definition sampleConfig : Model.SubscriptionConfig :=
  {| Model.CfgTournaments := [7; 42]; Model.CfgSeries := ["A"] |}.

Definition sampleCalendar : Model.Calendar :=
  {| Model.CalId_ := "cal1"; Model.CalTitle := "Meine Turniere";
     Model.CalEmail := "";
     Model.CalCreatedAt := GoTime.Date 2024 3 1 0 0 0 0 GoTime.UTC;
     Model.CalUpdatedAt := GoTime.Date 2024 3 1 0 0 0 0 GoTime.UTC;
     Model.CalRetrievedAt := None;
     Model.Config := Some sampleConfig |}.

Definition sampleSnapshot (id day : Z) : Db.HistoryRow :=
  {| Db.tournament_id := id;
     Db.date := GoTime.Date 2024 5 day 12 0 0 0 GoTime.UTC;
     Db.history_updated_at := GoTime.Date 2024 5 day 9 30 0 0 GoTime.UTC;
     Db.snapshot := sampleTournament id [] [] |}.

Definition sampleRepo : Db.Repo :=
  {| Db.tournaments_table := ∅;
     Db.registrations_table := [];
     Db.calendars_table :=
       <["cal1" := {| Db.edit_id := "edit1"; Db.calendar := sampleCalendar |}]> ∅;
     Db.tournament_history_table :=
       [sampleSnapshot 7 1; sampleSnapshot 9 1; sampleSnapshot 7 2] |}.

Definition sampleService : Service.TournamentService Db.Repo :=
  {| Service.tournaments := <[7 := 0%nat]> (<[9 := 1%nat]> ∅);
     Service.heap := [sampleTournament 7 ["B"] samplePhases;
                      sampleTournament 9 ["A"] []];
     Service.repo := sampleRepo;
     Service.lastSync := None |}.

Definition sampleNow : GoTime.Time := GoTime.Date 2024 5 3 8 0 0 0 GoTime.UTC.

(** The export of calendar "cal1" from the sample state. *)
Definition sampleExported
  : Service.TournamentService Db.Repo * outcome Service.IcsCalendar :=
  Service.CreateIcs sampleService (map_to_list (Service.tournaments sampleService))
                    sampleNow "cal1".

Definition sampleExport : Service.IcsCalendar :=
  match sampleExported.2 with
  | Ok cal => cal
  | _ => {| Service.ProductId := ""; Service.Method := "";
            Service.CalName := ""; Service.Events := [] |}
  end.

(** *** Calendars *)

(** The calendar [CreateCalendar] stores. *)
Definition newCalendar (id title : string) (config : Model.SubscriptionConfig)
    (createdAt updatedAt : GoTime.Time) : Model.Calendar :=
  {| Model.CalId_ := id; Model.CalTitle := title; Model.CalEmail := "";
     Model.CalCreatedAt := createdAt; Model.CalUpdatedAt := updatedAt;
     Model.CalRetrievedAt := None; Model.Config := Some config |}.

(** The stores the program can reach: from the empty database, by the
    methods of the repository. *)
Inductive reachable : Db.Repo -> Prop :=
  | reach_empty : reachable Db.emptyRepo
  | reach_UpsertTournament r t :
      reachable r -> reachable (Db.UpsertTournament r t).1
  | reach_UpsertRegistration r id reg :
      reachable r -> reachable (Db.UpsertRegistration r id reg).1
  | reach_CreateTurnamentHistory r t now :
      reachable r -> reachable (Db.CreateTurnamentHistory r t now).1
  | reach_CreateCalendar r id editId title config createdAt updatedAt :
      reachable r ->
      reachable (Db.CreateCalendar r id editId title config createdAt updatedAt).1
  | reach_UpdateCalendar r cal now :
      reachable r -> reachable (Db.UpdateCalendar r cal now).1
  | reach_DeleteCalendar r id :
      reachable r -> reachable (Db.DeleteCalendar r id).1
  | reach_SetCalendarRetrievedAt r id now :
      reachable r -> reachable (Db.SetCalendarRetrievedAt r id now).1.

(** A creation request for a calendar titled "Liga 2024", and the store
    after it was served on the sample store with the id "cal2". *)
Definition createRequest : Web.Request :=
  {| Web.Method := "POST"; Web.PathId := "";
     Web.Form := Some {[ "title" := ["Liga 2024"] ]} |}.

Definition createdRepo : Db.Repo :=
  (Web.CreateCalendarHandler sampleRepo createRequest "cal2" Z.of_nat
                             sampleNow sampleNow).1.

(** The request that deletes the calendar "cal1". *)
Definition deleteRequest : Web.Request :=
  {| Web.Method := "POST"; Web.PathId := "cal1"; Web.Form := None |}.

(** The sample tournaments over a store built with the repository's own
    methods: one calendar, "cal1", with the sample subscription. *)
Definition reachedService : Service.TournamentService Db.Repo :=
  Service.withRepo sampleService
    (Db.CreateCalendar Db.emptyRepo "cal1" "edit1" "Meine Turniere" sampleConfig
                       sampleNow sampleNow).1.

(** *** Synchronisation *)

(** The record a storing round leaves in memory for the fetched record
    [f] and the detail page [details]. *)
Definition appliedRecord (f : Model.Tournament) (details : Model.EventDetails)
  : Model.Tournament :=
  {| Model.Id := Model.Id f; Model.Status := Model.Status f;
     Model.UpdatedAt := Model.UpdatedAt f;
     Model.StartDate := Model.DetStartDate details;
     Model.EndDate := Model.DetEndDate details;
     Model.Title := Model.DetTitle details;
     Model.Localtion := Model.DetLocation details;
     Model.GeoLocation := Model.DetGeoLocation details;
     Model.Series := Model.DetSeries details;
     Model.PdgaTier := Model.PDGATier details;
     Model.PdgaId := Model.PDGAId details;
     Model.DRating := Model.DRatingConsideration details;
     Model.Registrations :=
       (Model.Registrations f
          ++ (Service.registrationOf <$> Model.RegistrationPhases details))%list |}.

(** The tournament [GetAllTournaments] builds from the row stored under
    [id]. *)
Definition tournamentOfRow (r : Db.Repo) (id : Z) (row : Db.TournamentRow)
  : Model.Tournament :=
  {| Model.Id := id; Model.Status := Db.status row;
     Model.UpdatedAt := Db.updated_at row;
     Model.StartDate := Db.start_date row; Model.EndDate := Db.end_date row;
     Model.Title := Db.title row; Model.Localtion := Db.location row;
     Model.GeoLocation := Db.geo_location row; Model.Series := Db.series row;
     Model.PdgaTier := Db.pdga_tier row; Model.PdgaId := Db.pdga_id row;
     Model.DRating := Db.drating row;
     Model.Registrations := Db.getRegistrations r id |}.



(** *** A listing page

    Three rows: tournament 5 is cancelled, tournament 6 carries no badge,
    and a second row for tournament 5 follows.  The links have the form
    of the site, and their query parameter [id] is read off the text. *)
Definition sampleQueryId (href : string) : option string :=
  match GoStrings.Cut href "&id=" with
  | Some (_, after) => Some after
  | None => Some ""
  end.

Definition sampleCell (text : string) : Gto.listingCell :=
  {| Gto.cellText := text; Gto.cellLinks := []; Gto.cellSpans := "" |}.

Definition sampleRow (badge : string) (id title lastUpdate : string)
  : list Gto.listingCell :=
  [ {| Gto.cellText := badge; Gto.cellLinks := []; Gto.cellSpans := badge |};
    {| Gto.cellText := title;
       Gto.cellLinks := [Some ("index.php?p=events&sp=view&id=" ++ id)];
       Gto.cellSpans := "" |};
    sampleCell "Berlin";
    sampleCell lastUpdate ].

Definition sampleHeaders : list string :=
  ["Status"; "Turnier"; "Ort"; "Letzte Änderung"].

Definition sampleRows : list (list Gto.listingCell) :=
  [sampleRow "abgesagt" "5" "Stadtpark Open" "01.05.2024 09:30";
   sampleRow "" "6" "Waldrunde" "02.05.2024 10:00"].

Definition sampleMoreRows : list (list Gto.listingCell) :=
  [sampleRow "" "5" "Stadtpark Open" "03.05.2024 11:00"].

Definition sampleListing : outcome (gmap Z Gto.tournamentUpdate) :=
  Gto.parseTournamentUpdates sampleQueryId (fun s => s)
    (Some {| Gto.headerCells := sampleHeaders; Gto.bodyRows := sampleRows |}).

Definition sampleUpdates : gmap Z Gto.tournamentUpdate :=
  match sampleListing with
  | Ok updates => updates
  | _ => ∅
  end.

(** What the merged fetch returns for the small listing and feed. *)
Definition mergedFetch0 : gmap Z Model.Tournament :=
  match Gto.FetchTournaments (Ok listing0) map_to_list (Ok feed0) with
  | Ok result => result
  | _ => ∅
  end.

(** *** Pages *)

(** A translator that has loaded German only. *)
Definition sampleTranslator : Web.Translator :=
  {| Web.translations :=
       {[ "de" := {[ "nav.home" := "Startseite";
                     "reg.days" := "noch {0} Tage" ]} ]};
     Web.translatorDefaultLang := "de" |}.

(** *** Further examples *)

(** A schedule-feed entry that ends at noon of 2024-03-10 in
    America/Havana, the day on which local midnight was skipped. *)
Definition havanaEntry : Ical.VEvent :=
  feedEntry "tournament-1@turniere.discgolf.de"
            (GoTime.Date 2024 3 9 12 0 0 0 Havana2024)
            (GoTime.Date 2024 3 10 12 0 0 0 Havana2024).

(** The sample calendar as an edit form without a subscription sends it
    back: a new title and a nil configuration. *)
Definition retitledCalendar : Model.Calendar :=
  {| Model.CalId_ := "cal1"; Model.CalTitle := "Nur Liga";
     Model.CalEmail := "";
     Model.CalCreatedAt := GoTime.Date 2024 3 1 0 0 0 0 GoTime.UTC;
     Model.CalUpdatedAt := GoTime.Date 2024 3 1 0 0 0 0 GoTime.UTC;
     Model.CalRetrievedAt := None;
     Model.Config := None |}.

Definition retitledRepo : Db.Repo :=
  (Service.CalendarService.UpdateCalendar (Service.repo sampleService)
     (Some retitledCalendar) sampleNow).1.

(* ===================================================================== *)
(** * Part II. Auxiliary lemmas                                           *)
(* ===================================================================== *)

Section CivilCalendar.
Import GoTime.

Lemma yearOfEra_bounds (doe : Z) :
  0 <= doe < 146097 ->
  let yoe := (doe - doe / 1460 + doe / 36524 - doe / 146096) / 365 in
  0 <= yoe < 400 /\ 0 <= doe - (365 * yoe + yoe / 4 - yoe / 100) <= 365.
Proof.
  intros Hdoe yoe. subst yoe.
  Z.div_mod_to_equations. lia.
Qed.

(** The month computed by [daysToCivil] is a month. *)
Lemma daysToCivil_month (z : Z) : 1 <= (daysToCivil z).1.2 <= 12.
Proof.
  unfold daysToCivil. cbn [fst snd].
  set (era := (z + 719468) / 146097).
  set (doe := z + 719468 - era * 146097).
  assert (Hdoe : 0 <= doe < 146097).
  { subst doe era. Z.div_mod_to_equations. lia. }
  destruct (yearOfEra_bounds doe Hdoe) as [_ Hdoy]. cbn zeta in Hdoy.
  set (yoe := (doe - doe / 1460 + doe / 36524 - doe / 146096) / 365) in *.
  set (doy := doe - (365 * yoe + yoe / 4 - yoe / 100)) in *.
  assert (Hmp : 0 <= (5 * doy + 2) / 153 <= 11).
  { Z.div_mod_to_equations. lia. }
  destruct ((5 * doy + 2) / 153 <? 10) eqn:E; lia.
Qed.

(** Converting a day number to a civil date and back is the identity. *)
Lemma civilToDays_daysToCivil (z : Z) :
  civilToDays (daysToCivil z).1.1 (daysToCivil z).1.2 (daysToCivil z).2 = z.
Proof.
  unfold daysToCivil. cbn [fst snd].
  set (era := (z + 719468) / 146097).
  set (doe := z + 719468 - era * 146097).
  assert (Hdoe : 0 <= doe < 146097).
  { subst doe era. Z.div_mod_to_equations. lia. }
  destruct (yearOfEra_bounds doe Hdoe) as [Hyoe Hdoy]. cbn zeta in Hyoe, Hdoy.
  set (yoe := (doe - doe / 1460 + doe / 36524 - doe / 146096) / 365) in *.
  set (doy := doe - (365 * yoe + yoe / 4 - yoe / 100)) in *.
  set (mp := (5 * doy + 2) / 153).
  assert (Hmp : 0 <= mp <= 11).
  { subst mp. Z.div_mod_to_equations. lia. }
  set (m := if mp <? 10 then mp + 3 else mp - 9).
  assert (Hm : (m <=? 2) = negb (mp <? 10) /\ (2 <? m) = (mp <? 10)
               /\ (if 2 <? m then m - 3 else m + 9) = mp).
  { subst m. destruct (mp <? 10) eqn:E.
    - apply Z.ltb_lt in E.
      replace (mp + 3 <=? 2) with false by (symmetry; apply Z.leb_gt; lia).
      replace (2 <? mp + 3) with true by (symmetry; apply Z.ltb_lt; lia).
      cbn. repeat split; lia.
    - apply Z.ltb_ge in E.
      replace (mp - 9 <=? 2) with true by (symmetry; apply Z.leb_le; lia).
      replace (2 <? mp - 9) with false by (symmetry; apply Z.ltb_ge; lia).
      cbn. repeat split; lia. }
  destruct Hm as (Hm1 & Hm2 & Hm3).
  unfold civilToDays. rewrite Hm3. clear Hm1 Hm2 Hm3.
  assert (Hera : (yoe + era * 400) / 400 = era).
  { Z.div_mod_to_equations. lia. }
  destruct (m <=? 2);
    replace (yoe + era * 400 + 1 - 1) with (yoe + era * 400) by lia;
    rewrite Hera;
    replace (yoe + era * 400 - era * 400) with yoe by lia;
    subst doy doe; lia.
Qed.

(** [civilToDays] is linear in the day of the month. *)
Lemma civilToDays_day_shift (y m d k : Z) :
  civilToDays y m (d + k) = civilToDays y m d + k.
Proof. unfold civilToDays. lia. Qed.

End CivilCalendar.

Section DateFacts.
Import GoTime.

Lemma Date_midnight (y m d : Z) (l : Location) :
  1 <= m <= 12 ->
  Date y m d 0 0 0 0 l =
    {| unix := midnight (civilToDays y m d)
               - zoneOffset l (midnight (civilToDays y m d)
                               - zoneOffset l (midnight (civilToDays y m d)));
       nsec := 0; loc := l |}.
Proof.
  intros Hm. unfold Date, norm, midnight.
  replace ((m - 1) / 12) with 0 by (Z.div_mod_to_equations; lia).
  replace ((m - 1) mod 12 + 1) with m by (Z.div_mod_to_equations; lia).
  change (0 / 1000000000) with 0. change (0 mod 1000000000) with 0.
  change (0 / 60) with 0. change (0 mod 60) with 0.
  change (0 / 24) with 0. change (0 mod 24) with 0.
  cbn [Z.add]. rewrite !Z.add_0_r.
  replace (civilToDays y m d * secondsPerDay + 0 * 3600 + 0 * 60)
    with (civilToDays y m d * secondsPerDay) by lia.
  reflexivity.
Qed.

(** When midnight of the day exists, [Date] returns exactly it. *)
Lemma Date_midnight_abs (y m d : Z) (l : Location) :
  1 <= m <= 12 ->
  wallClockExists l (midnight (civilToDays y m d)) ->
  abs (Date y m d 0 0 0 0 l) = midnight (civilToDays y m d).
Proof.
  intros Hm Hex. rewrite Date_midnight by assumption.
  unfold abs, wallClockExists in *. cbn [unix loc] in *.
  rewrite Hex. lia.
Qed.

Lemma midnight_wallDay (t : Time) (day : Z) :
  abs t = midnight day ->
  wallDay t = day /\ Hour t = 0 /\ Minute t = 0 /\ Second t = 0.
Proof.
  unfold wallDay, Hour, Minute, Second, midnight, secondsPerDay.
  intros ->. repeat split; Z.div_mod_to_equations; lia.
Qed.

(** The computation of ics.go:135, spelled out. *)
Lemma inclusiveEnd_abs (dtEnd : Time) :
  wallClockExists (loc dtEnd) (midnight (wallDay dtEnd)) ->
  wallClockExists (loc dtEnd) (midnight (wallDay dtEnd - 1)) ->
  abs (Gto.inclusiveEnd dtEnd) = midnight (wallDay dtEnd - 1)
  /\ nsec (Gto.inclusiveEnd dtEnd) = 0
  /\ loc (Gto.inclusiveEnd dtEnd) = loc dtEnd.
Proof.
  intros H0 H1. unfold Gto.inclusiveEnd, Location_of.
  set (t1 := Date (Year dtEnd) (Month dtEnd) (Day dtEnd) 0 0 0 0 (loc dtEnd)).
  pose proof (daysToCivil_month (wallDay dtEnd)) as Hm.
  pose proof (civilToDays_daysToCivil (wallDay dtEnd)) as Hrt.
  assert (Ht1 : abs t1 = midnight (wallDay dtEnd)).
  { subst t1. unfold Year, Month, Day.
    rewrite Date_midnight_abs; rewrite ?Hrt; auto. }
  assert (Hl1 : loc t1 = loc dtEnd /\ nsec t1 = 0).
  { subst t1. unfold Year, Month, Day. rewrite Date_midnight by exact Hm. auto. }
  destruct Hl1 as [Hl1 Hn1].
  destruct (midnight_wallDay t1 _ Ht1) as (Hd & Hh & Hmi & Hs).
  unfold AddDate. rewrite Hh, Hmi, Hs, Hn1, Hl1.
  unfold Year, Month, Day. rewrite Hd, !Z.add_0_r.
  split.
  - rewrite Date_midnight_abs; rewrite ?civilToDays_day_shift, ?Hrt; auto.
  - rewrite Date_midnight by exact Hm. auto.
Qed.

(** Every wall-clock reading exists in a location with a fixed offset. *)
Lemma wallClockExists_fixed (name : string) (offset w : Z) :
  wallClockExists (FixedZone name offset) w.
Proof. reflexivity. Qed.

End DateFacts.

Section MergeFacts.
Import GoTime Model Gto.

Lemma mergeUpdate_lookup_ne feed acc id u j :
  id ≠ j -> mergeUpdate feed acc (id, u) !! j = acc !! j.
Proof.
  intros Hne. unfold mergeUpdate.
  destruct (feed !! id); [by rewrite lookup_insert_ne|].
  case_bool_decide; [by rewrite lookup_insert_ne|done].
Qed.

Lemma mergeUpdate_lookup_eq feed acc id u :
  mergeUpdate feed acc (id, u) !! id =
    match merged feed id u with Some t => Some t | None => acc !! id end.
Proof.
  unfold merged, mergeUpdate.
  destruct (feed !! id); [by rewrite !lookup_insert_eq|].
  case_bool_decide; [by rewrite !lookup_insert_eq|by rewrite lookup_empty].
Qed.

Lemma foldl_mergeUpdate_notin feed (l : list (Z * tournamentUpdate)) acc j :
  j ∉ l.*1 -> foldl (mergeUpdate feed) acc l !! j = acc !! j.
Proof.
  revert acc. induction l as [|[id u] l IH]; intros acc Hj; [done|].
  cbn [foldl]. rewrite fmap_cons in Hj. apply not_elem_of_cons in Hj as [Hne Hj].
  rewrite IH by done. apply mergeUpdate_lookup_ne. cbn in Hne. congruence.
Qed.

Lemma foldl_mergeUpdate_in feed (l : list (Z * tournamentUpdate)) acc id u :
  NoDup l.*1 -> (id, u) ∈ l ->
  foldl (mergeUpdate feed) acc l !! id =
    match merged feed id u with Some t => Some t | None => acc !! id end.
Proof.
  revert acc. induction l as [|[id' u'] l IH]; intros acc Hnd Hin.
  - by apply elem_of_nil in Hin.
  - rewrite fmap_cons in Hnd. apply NoDup_cons in Hnd as [Hnotin Hnd].
    cbn [foldl]. apply elem_of_cons in Hin as [Heq|Hin].
    + injection Heq as <- <-. rewrite foldl_mergeUpdate_notin by done.
      apply mergeUpdate_lookup_eq.
    + rewrite IH by done.
      assert (id' ≠ id).
      { intros ->. apply Hnotin. apply (list_elem_of_fmap_2 fst) in Hin. done. }
      by rewrite mergeUpdate_lookup_ne.
Qed.

Lemma merged_spec feed id u t :
  merged feed id u = Some t ->
    Status t = status u /\ UpdatedAt t = updated u
    /\ (is_Some (feed !! id) \/ status u = TOURNAMENT_STATUS_CANCELLED
        \/ status u = TOURNAMENT_STATUS_DONE).
Proof.
  unfold merged, mergeUpdate. intros H.
  destruct (feed !! id) as [t0|] eqn:Hf.
  - rewrite lookup_insert_eq in H. injection H as <-. cbn. eauto 10.
  - case_bool_decide as Hst.
    + rewrite lookup_insert_eq in H. injection H as <-. cbn.
      repeat split; auto. right.
      apply elem_of_cons in Hst as [Hst|Hst]; [auto|].
      apply elem_of_cons in Hst as [Hst|Hst]; [auto|].
      by apply elem_of_nil in Hst.
    + by rewrite lookup_empty in H.
Qed.


End MergeFacts.


Section MoreCivil.
Import GoTime.

(** Recovering the year of the era: the inverse of the forward map. *)
Lemma yearOfEra_inverse (yoe doy : Z) :
  0 <= yoe < 400 -> 0 <= doy <= 365 ->
  (doy = 365 -> (yoe + 1) mod 4 = 0 /\ ((yoe + 1) mod 100 <> 0 \/ yoe = 399)) ->
  let doe := yoe * 365 + yoe / 4 - yoe / 100 + doy in
  0 <= doe < 146097
  /\ (doe - doe / 1460 + doe / 36524 - doe / 146096) / 365 = yoe.
Proof.
  intros Hy Hd Hleap doe. subst doe.
  Z.div_mod_to_equations; lia.
Qed.

(** Evaluate the comparisons of the goal whose operands are numerals. *)
Ltac decide_closed :=
  repeat match goal with
    | |- context [Z.eqb ?a ?b] =>
        let v := eval vm_compute in (Z.eqb a b) in
        match v with
        | true => change (Z.eqb a b) with true
        | false => change (Z.eqb a b) with false
        end
    | |- context [Z.leb ?a ?b] =>
        let v := eval vm_compute in (Z.leb a b) in
        match v with
        | true => change (Z.leb a b) with true
        | false => change (Z.leb a b) with false
        end
    | |- context [Z.ltb ?a ?b] =>
        let v := eval vm_compute in (Z.ltb a b) in
        match v with
        | true => change (Z.ltb a b) with true
        | false => change (Z.ltb a b) with false
        end
    end.

Lemma isLeap_spec (y : Z) :
  isLeap y = true <-> y mod 4 = 0 /\ (y mod 100 <> 0 \/ y mod 400 = 0).
Proof.
  unfold isLeap. rewrite andb_true_iff, orb_true_iff, negb_true_iff.
  rewrite !Z.eqb_eq, Z.eqb_neq. done.
Qed.

(** Converting a valid civil date to a day number and back is the
    identity. *)
Lemma daysToCivil_civilToDays (y m d : Z) :
  1 <= m <= 12 -> 1 <= d <= daysIn m y ->
  daysToCivil (civilToDays y m d) = (y, m, d).
Proof.
  intros Hm Hd.
  set (y' := if m <=? 2 then y - 1 else y).
  set (era := y' / 400). set (yoe := y' - era * 400).
  set (mp := if 2 <? m then m - 3 else m + 9).
  set (doy := (153 * mp + 2) / 5 + d - 1).
  assert (Hyoe : 0 <= yoe < 400) by (subst yoe era; Z.div_mod_to_equations; lia).
  assert (Hfeb : m = 2 -> d = 29 ->
                 (yoe + 1) mod 4 = 0 /\ ((yoe + 1) mod 100 <> 0 \/ yoe = 399)).
  { intros -> ->. unfold daysIn in Hd. cbn in Hd.
    destruct (isLeap y) eqn:Hl; [|lia]. apply isLeap_spec in Hl.
    subst yoe era y'. cbn. clear Hyoe doy mp Hd Hm.
    destruct Hl as [H4 [H100|H400]].
    - split; [clear H100; Z.div_mod_to_equations; lia|]. left. clear H4.
      replace (y - 1 - (y - 1) / 400 * 400 + 1)
        with (y + (- 4 * ((y - 1) / 400)) * 100) by lia.
      by rewrite Z_mod_plus_full.
    - split; [clear H400; Z.div_mod_to_equations; lia|]. right. clear H4.
      Z.div_mod_to_equations. lia. }
  assert (Hcases : m = 1 \/ m = 2 \/ m = 3 \/ m = 4 \/ m = 5 \/ m = 6 \/ m = 7
                   \/ m = 8 \/ m = 9 \/ m = 10 \/ m = 11 \/ m = 12) by lia.
  assert (Hdoy : 0 <= doy <= 365
                 /\ (doy = 365 -> m = 2 /\ d = 29)
                 /\ (5 * doy + 2) / 153 = mp
                 /\ (if mp <? 10 then mp + 3 else mp - 9) = m).
  { unfold daysIn in Hd.
    destruct Hcases as [->|[->|[->|[->|[->|[->|[->|[->|[->|[->|[->| ->]]]]]]]]]]];
      cbn in Hd; subst doy mp; cbn;
      match type of Hd with
      | context [isLeap y] => destruct (isLeap y)
      | _ => idtac
      end;
      (split; [Z.div_mod_to_equations; lia|]);
      (split; [Z.div_mod_to_equations; lia|]);
      (split; [Z.div_mod_to_equations; lia|]);
      match goal with |- context [?a <? 10] => destruct (Z.ltb_spec a 10) end; lia. }
  destruct Hdoy as (Hdoy & H365 & Hmp & Hmm).
  destruct (yearOfEra_inverse yoe doy Hyoe Hdoy) as [Hdoe Hinv].
  { intros H. destruct (H365 H) as [-> ->]. by apply Hfeb. }
  cbn zeta in Hdoe, Hinv.
  set (doe := yoe * 365 + yoe / 4 - yoe / 100 + doy) in *.
  assert (Hz : civilToDays y m d + 719468 = era * 146097 + doe).
  { unfold civilToDays. fold y' era yoe mp doy. subst doe. lia. }
  unfold daysToCivil. rewrite Hz.
  replace ((era * 146097 + doe) / 146097) with era by (Z.div_mod_to_equations; lia).
  replace (era * 146097 + doe - era * 146097) with doe by lia.
  rewrite Hinv.
  replace (doe - (365 * yoe + yoe / 4 - yoe / 100)) with doy by (subst doe; lia).
  rewrite Hmp, Hmm.
  f_equal; [f_equal|].
  - subst yoe y'. destruct (m <=? 2); lia.
  - subst doy. lia.
Qed.


Lemma yearOfEra_leap_day (doe : Z) :
  0 <= doe < 146097 ->
  let yoe := (doe - doe / 1460 + doe / 36524 - doe / 146096) / 365 in
  doe - (365 * yoe + yoe / 4 - yoe / 100) = 365 ->
  (yoe + 1) mod 4 = 0 /\ ((yoe + 1) mod 100 <> 0 \/ yoe = 399).
Proof.
  intros Hdoe yoe Hdoy. subst yoe. split.
  - Z.div_mod_to_equations; lia.
  - destruct (decide (doe / 36524 = 4)) as [H|H];
      [right|left]; Z.div_mod_to_equations; lia.
Qed.

(** The date computed by [daysToCivil] is a date of the calendar. *)
Lemma daysToCivil_valid (z : Z) :
  1 <= (daysToCivil z).1.2 <= 12
  /\ 1 <= (daysToCivil z).2 <= daysIn (daysToCivil z).1.2 (daysToCivil z).1.1.
Proof.
  split; [apply daysToCivil_month|].
  unfold daysToCivil. cbn [fst snd].
  set (era := (z + 719468) / 146097).
  set (doe := z + 719468 - era * 146097).
  assert (Hdoe : 0 <= doe < 146097).
  { subst doe era. Z.div_mod_to_equations. lia. }
  destruct (yearOfEra_bounds doe Hdoe) as [Hyoe Hdoy].
  pose proof (yearOfEra_leap_day doe Hdoe) as Hleap.
  cbn zeta in Hyoe, Hdoy, Hleap.
  set (yoe := (doe - doe / 1460 + doe / 36524 - doe / 146096) / 365) in *.
  set (doy := doe - (365 * yoe + yoe / 4 - yoe / 100)) in *.
  set (mp := (5 * doy + 2) / 153).
  assert (Hmp : 0 <= mp <= 11) by (subst mp; Z.div_mod_to_equations; lia).
  assert (Hfeb : isLeap (yoe + era * 400 + 1) = false -> doy <= 364).
  { intros Hl. destruct (decide (doy = 365)) as [H365|]; [|lia].
    destruct (Hleap H365) as [H4 H100].
    assert (isLeap (yoe + era * 400 + 1) = true); [|congruence].
    apply isLeap_spec. split.
    - replace (yoe + era * 400 + 1) with (yoe + 1 + (100 * era) * 4) by lia.
      by rewrite Z_mod_plus_full.
    - destruct H100 as [H100|H399].
      + left. replace (yoe + era * 400 + 1) with (yoe + 1 + (4 * era) * 100) by lia.
        by rewrite Z_mod_plus_full.
      + right. rewrite H399. replace (399 + era * 400 + 1) with (0 + (era + 1) * 400) by lia.
        by rewrite Z_mod_plus_full. }
  assert (Hcases : mp = 0 \/ mp = 1 \/ mp = 2 \/ mp = 3 \/ mp = 4 \/ mp = 5 \/ mp = 6
                   \/ mp = 7 \/ mp = 8 \/ mp = 9 \/ mp = 10 \/ mp = 11) by lia.
  assert (Hd : 1 <= doy - (153 * mp + 2) / 5 + 1
               /\ (153 * mp + 2) / 5 <= doy < (153 * (mp + 1) + 2) / 5).
  { subst mp. Z.div_mod_to_equations. lia. }
  unfold daysIn. clearbody mp doy yoe era. clear Hleap Hdoe doe.
  destruct Hcases as [E|[E|[E|[E|[E|[E|[E|[E|[E|[E|[E|E]]]]]]]]]]];
    subst mp; decide_closed; cbn [orb];
    try (destruct (isLeap (yoe + era * 400 + 1)) eqn:Hl; [|specialize (Hfeb eq_refl)]);
    Z.div_mod_to_equations; lia.
Qed.


Lemma civilToDays_prevCivil (y m d : Z) :
  1 <= m <= 12 -> 1 <= d <= daysIn m y ->
  civilToDays (prevCivil (y, m, d)).1.1 (prevCivil (y, m, d)).1.2 (prevCivil (y, m, d)).2
    = civilToDays y m d - 1
  /\ 1 <= (prevCivil (y, m, d)).1.2 <= 12
  /\ 1 <= (prevCivil (y, m, d)).2
       <= daysIn (prevCivil (y, m, d)).1.2 (prevCivil (y, m, d)).1.1.
Proof.
  intros Hm Hd. unfold prevCivil.
  destruct (Z.ltb_spec 1 d) as [Hd1|Hd1]; cbn [fst snd].
  { split; [|split; [done|lia]].
    replace (d - 1) with (d + -1) by lia. apply civilToDays_day_shift. }
  assert (d = 1) by lia. subst d. clear Hd Hd1.
  destruct (Z.ltb_spec 1 m) as [Hm1|Hm1]; cbn [fst snd].
  2:{ assert (m = 1) by lia. subst m. unfold civilToDays, daysIn.
      decide_closed. cbn [orb]. repeat split; try lia.
      Z.div_mod_to_equations. lia. }
  assert (Hcases : m = 2 \/ m = 3 \/ m = 4 \/ m = 5 \/ m = 6 \/ m = 7
                   \/ m = 8 \/ m = 9 \/ m = 10 \/ m = 11 \/ m = 12) by lia.
  destruct (decide (m = 3)) as [->|Hne3].
  - (* the day before 1 March *)
    unfold daysIn. decide_closed. cbn [orb].
    split; [|split; [lia|destruct (isLeap y); lia]].
    unfold civilToDays. decide_closed.
    destruct (isLeap y) eqn:Hl.
    + apply isLeap_spec in Hl as [H4 [H100|H400]].
      * clear Hm Hm1 Hcases. Z.div_mod_to_equations. lia.
      * clear Hm Hm1 Hcases H4. Z.div_mod_to_equations. lia.
    + assert (Hn : y mod 4 <> 0 \/ (y mod 100 = 0 /\ y mod 400 <> 0)).
      { destruct (decide (y mod 4 = 0)) as [H4|]; [|by left]. right.
        destruct (decide (y mod 100 = 0)) as [H100|H100].
        - split; [done|]. intros H400.
          assert (isLeap y = true) by (apply isLeap_spec; auto). congruence.
        - assert (isLeap y = true) by (apply isLeap_spec; auto). congruence. }
      clear Hm Hm1 Hcases Hl. destruct Hn as [H4|[H100 H400]].
      * Z.div_mod_to_equations. lia.
      * Z.div_mod_to_equations. lia.
  - unfold civilToDays, daysIn.
    destruct Hcases as [->|[->|[->|[->|[->|[->|[->|[->|[->|[->| ->]]]]]]]]]];
      try done; decide_closed; cbn [orb];
      (split; [Z.div_mod_to_equations; lia|lia]).
Qed.

(** The day before day number [z] is the calendar date before the date
    of [z]. *)
Lemma daysToCivil_pred (z : Z) : daysToCivil (z - 1) = prevCivil (daysToCivil z).
Proof.
  destruct (daysToCivil_valid z) as [Hm Hd].
  pose proof (civilToDays_daysToCivil z) as Hrt.
  destruct (daysToCivil z) as [[y m] d] eqn:E. cbn [fst snd] in *.
  destruct (civilToDays_prevCivil y m d Hm Hd) as (Hp & Hpm & Hpd).
  rewrite Hrt in Hp. rewrite <- Hp.
  rewrite daysToCivil_civilToDays by done.
  by destruct (prevCivil (y, m, d)) as [[? ?] ?].
Qed.

End MoreCivil.


Section BerlinFacts.
Import GoTime.

(** Within one UTC day, from 01:00 on, the Berlin offset does not change:
    the clocks change at 01:00 UTC. *)
Lemma berlinOffset_day (day c1 c2 : Z) :
  3600 <= c1 < 86400 -> 3600 <= c2 < 86400 ->
  berlinOffset (day * 86400 + c1) = berlinOffset (day * 86400 + c2).
Proof.
  intros H1 H2. unfold berlinOffset, secondsPerDay.
  replace ((day * 86400 + c1) / 86400) with day by (Z.div_mod_to_equations; lia).
  replace ((day * 86400 + c2) / 86400) with day by (Z.div_mod_to_equations; lia).
  set (y := (daysToCivil day).1.1).
  set (a := lastSunday y 3). set (b := lastSunday y 10).
  assert (Ha : (a * 86400 + 3600 <=? day * 86400 + c1)
               = (a * 86400 + 3600 <=? day * 86400 + c2)).
  { destruct (Z.leb_spec (a * 86400 + 3600) (day * 86400 + c1));
      destruct (Z.leb_spec (a * 86400 + 3600) (day * 86400 + c2)); lia. }
  assert (Hb : (day * 86400 + c1 <? b * 86400 + 3600)
               = (day * 86400 + c2 <? b * 86400 + 3600)).
  { destruct (Z.ltb_spec (day * 86400 + c1) (b * 86400 + 3600));
      destruct (Z.ltb_spec (day * 86400 + c2) (b * 86400 + 3600)); lia. }
  by rewrite Ha, Hb.
Qed.

Lemma berlinOffset_values (u : Z) : berlinOffset u = 3600 \/ berlinOffset u = 7200.
Proof. unfold berlinOffset. destruct (_ && _); auto. Qed.

(** Local midnight exists in Europe/Berlin on every day. *)
Lemma wallClockExists_Berlin (day : Z) : wallClockExists Berlin (midnight day).
Proof.
  unfold wallClockExists, midnight, secondsPerDay. cbn [zoneOffset Berlin].
  assert (H : forall o, o = 3600 \/ o = 7200 ->
                berlinOffset (day * 86400 - o)
                = berlinOffset ((day - 1) * 86400 + 79200)).
  { intros o [-> | ->].
    - replace (day * 86400 - 3600) with ((day - 1) * 86400 + 82800) by lia.
      apply berlinOffset_day; lia.
    - f_equal. lia. }
  rewrite (H _ (berlinOffset_values _)).
  rewrite (H _ (berlinOffset_values _)). done.
Qed.

End BerlinFacts.

Section ResolutionFacts.
Import GoTime Model Service.
Context {R : Type}.

Lemma getTournaments_filter (s : TournamentService R) (visit : list (Z * nat))
    (f : Tournament -> bool) :
  getTournaments s visit f =
    (λ e : Z * nat, Some e.2) <$> filter (λ e, selects s f e = true) visit.
Proof.
  unfold getTournaments.
  enough (H : forall acc,
            foldl (λ result (entry : Z * nat),
                     match heap s !! entry.2 with
                     | Some t => if f t then (result ++ [Some entry.2])%list else result
                     | None => result
                     end) acc visit
            = (acc ++ ((λ e : Z * nat, Some e.2)
                 <$> filter (λ e, selects s f e = true) visit))%list).
  { by rewrite H. }
  induction visit as [|e visit IH]; intros acc; cbn [foldl].
  - by rewrite filter_nil, fmap_nil, app_nil_r.
  - rewrite IH. unfold selects at 2. destruct (heap s !! e.2) as [t|] eqn:Hh.
    + destruct (f t) eqn:Hf.
      * rewrite filter_cons_True by (unfold selects; by rewrite Hh).
        by rewrite fmap_cons, <- app_assoc.
      * rewrite filter_cons_False; [done|]. unfold selects. rewrite Hh. congruence.
    + rewrite filter_cons_False; [done|]. unfold selects. by rewrite Hh.
Qed.

Lemma seriesMatch_existsb (t : Tournament) (series : list string) :
  existsb (λ se, bool_decide (se ∈ series)) (Series t) = true <-> seriesMatch t series.
Proof.
  unfold seriesMatch. rewrite existsb_exists. split.
  - intros (se & Hin & Hd). apply bool_decide_eq_true in Hd.
    exists se. split; [by apply list_elem_of_In|done].
  - intros (se & Hin & Hd). exists se. split; [by apply list_elem_of_In|].
    by apply bool_decide_eq_true.
Qed.

(** The loop over the explicitly listed ids. *)
Lemma resolve_explicit_elem (s : TournamentService R) (ids : list Z)
    (acc : list (option nat)) (p : option nat) :
  p ∈ foldl (λ tournaments tid,
               let tournament := GetTournament s tid in
               if bool_decide (tournament ∈ tournaments) then tournaments
               else (tournaments ++ [tournament])%list) acc ids
  <-> p ∈ acc \/ exists tid, tid ∈ ids /\ GetTournament s tid = p.
Proof.
  revert acc. induction ids as [|tid ids IH]; intros acc; cbn [foldl].
  - split; [auto|]. intros [H|(tid & H & _)]; [done|]. by apply elem_of_nil in H.
  - rewrite IH. cbn zeta. case_bool_decide as Hin.
    + split.
      * intros [H|(tid' & H1 & H2)]; [auto|]. right. exists tid'. split; [|done].
        by apply elem_of_cons; right.
      * intros [H|(tid' & H1 & H2)]; [auto|].
        apply elem_of_cons in H1 as [->|H1]; [left; by subst|].
        right. eauto.
    + rewrite elem_of_app, list_elem_of_singleton. split.
      * intros [[H|H]|(tid' & H1 & H2)]; [auto| |].
        -- right. exists tid. split; [apply elem_of_cons; by left|done].
        -- right. exists tid'. split; [apply elem_of_cons; by right|done].
      * intros [H|(tid' & H1 & H2)]; [auto|].
        apply elem_of_cons in H1 as [->|H1]; [left; right; by subst|].
        right. eauto.
Qed.

Lemma resolve_explicit_NoDup (s : TournamentService R) (ids : list Z)
    (acc : list (option nat)) :
  NoDup acc ->
  NoDup (foldl (λ tournaments tid,
                  let tournament := GetTournament s tid in
                  if bool_decide (tournament ∈ tournaments) then tournaments
                  else (tournaments ++ [tournament])%list) acc ids).
Proof.
  revert acc. induction ids as [|tid ids IH]; intros acc Hnd; cbn [foldl]; [done|].
  apply IH. cbn zeta. case_bool_decide as Hin; [done|].
  apply NoDup_app. split; [done|]. split; [|apply NoDup_singleton].
  intros x Hx Hx'. apply list_elem_of_singleton in Hx'. by subst.
Qed.

Lemma visit_pointers_NoDup (s : TournamentService R) (visit : list (Z * nat)) :
  wfService s -> visit ≡ₚ map_to_list (tournaments s) -> NoDup visit.*2.
Proof.
  intros [_ Hinj] Hperm. rewrite Hperm.
  apply NoDup_fmap_2_strong; [|apply NoDup_map_to_list].
  intros [k1 a1] [k2 a2] H1 H2 Heq. cbn in Heq. subst a2.
  apply elem_of_map_to_list in H1, H2. by rewrite (Hinj k1 k2 a1).
Qed.

Lemma series_pointers_NoDup (s : TournamentService R) (visit : list (Z * nat))
    (series : list string) :
  wfService s -> visit ≡ₚ map_to_list (tournaments s) ->
  NoDup (GetTournamentsForSeries s visit series).
Proof.
  intros Hwf Hperm. unfold GetTournamentsForSeries. rewrite getTournaments_filter.
  pose proof (visit_pointers_NoDup s visit Hwf Hperm) as Hnd.
  assert (Hc : forall l : list (Z * nat),
            (λ e : Z * nat, Some e.2) <$> l = Some <$> l.*2).
  { intros l. by rewrite <- list_fmap_compose. }
  rewrite Hc. apply NoDup_fmap_2; [by intros ? ? [= ->]|].
  revert Hnd. generalize visit. intros l. induction l as [|e l IH]; intros Hnd.
  - rewrite filter_nil. constructor.
  - rewrite fmap_cons in Hnd. apply NoDup_cons in Hnd as [Hnotin Hnd].
    rewrite filter_cons. case_decide; [|auto].
    rewrite fmap_cons. apply NoDup_cons. split; [|auto].
    intros Hin. apply Hnotin. apply list_elem_of_fmap in Hin as (e' & -> & Hin).
    apply list_elem_of_fmap. exists e'. split; [done|].
    by apply list_elem_of_filter in Hin as [_ ?].
Qed.

End ResolutionFacts.

Section ExportFacts.
Import GoTime Model Service.

Lemma NoDup_omap_key {A B C : Type} (f : A -> option B) (g : B -> C) (l : list A) :
  NoDup l ->
  (forall x y b b', x ∈ l -> y ∈ l -> f x = Some b -> f y = Some b' -> g b = g b' -> x = y) ->
  NoDup (g <$> omap f l).
Proof.
  induction l as [|x l IH]; intros Hnd Hinj; [constructor|].
  apply NoDup_cons in Hnd as [Hx Hnd]. simpl.
  assert (IH' : NoDup (g <$> omap f l)).
  { apply IH; [done|]. intros y z b b' Hy Hz. apply Hinj; by apply elem_of_cons; right. }
  destruct (f x) as [b|] eqn:Hfx; [|done].
  rewrite fmap_cons. apply NoDup_cons. split; [|done].
  intros Hin. apply list_elem_of_fmap in Hin as (b' & Hg & Hb').
  apply list_elem_of_omap in Hb' as (y & Hy & Hfy).
  assert (x = y).
  { apply (Hinj x y b b'); [apply elem_of_cons; by left|apply elem_of_cons; by right|done..]. }
  by subst.
Qed.

Lemma exportEvents_emitted {R : Type} (s : TournamentService R)
    (updateCount : gmap Z Z) (resolved : list (option nat)) :
  exportEvents s updateCount resolved
    = flat_map (eventsOf updateCount) (emitted s resolved).
Proof.
  unfold exportEvents, emitted. induction resolved as [|p l IH]; [done|].
  simpl. rewrite IH. by destruct (deref s p).
Qed.

Lemma eventsOf_sequence (updateCount : gmap Z Z) (t : Tournament) (e : IcsEvent) :
  e ∈ eventsOf updateCount t ->
  Sequence e = countOf updateCount (Id t) /\ eventOfTournament e t.
Proof.
  unfold eventsOf. intros [->|Hin]%elem_of_cons.
  - split; [done|]. by left.
  - apply elem_of_lookup_imap in Hin as (i & reg & -> & Hreg).
    split; [done|]. right. eauto.
Qed.

Lemma countOf_historyCount (r : Db.Repo) :
  exists updateCount,
    Db.GetCalendarUpdateCount r = DbOk updateCount
    /\ forall id, countOf updateCount id = historyCount r id.
Proof.
  unfold Db.GetCalendarUpdateCount, historyCount. eexists. split; [reflexivity|].
  intros id. induction (Db.tournament_history_table r) as [|row rows IH]; [done|].
  cbn [foldr]. unfold countOf in *. rewrite filter_cons.
  destruct (decide (Db.tournament_id row = id)) as [->|Hne].
  - rewrite lookup_insert_eq. cbn [default from_option Datatypes.id length].
    rewrite IH. lia.
  - by rewrite lookup_insert_ne.
Qed.

End ExportFacts.

Section TimeOrder.
Import GoTime.

Lemma Before_irrefl (t : Time) : Before t t = false.
Proof.
  unfold Before. rewrite Z.ltb_irrefl, Z.eqb_refl, Z.ltb_irrefl. done.
Qed.

Lemma Before_spec (t u : Time) :
  Before t u = true <-> unix t < unix u \/ (unix t = unix u /\ nsec t < nsec u).
Proof.
  unfold Before. rewrite orb_true_iff, andb_true_iff.
  rewrite !Z.ltb_lt, Z.eqb_eq. done.
Qed.

Lemma Before_false_spec (t u : Time) :
  Before t u = false <-> unix u < unix t \/ (unix t = unix u /\ nsec u <= nsec t).
Proof.
  destruct (Before t u) eqn:E.
  - apply Before_spec in E. split; [done|]. lia.
  - split; [intros _|done]. apply not_true_iff_false in E.
    rewrite Before_spec in E. lia.
Qed.

Lemma Before_asym (t u : Time) : Before t u = true -> Before u t = false.
Proof. rewrite Before_spec, Before_false_spec. lia. Qed.

(** "Not before" is transitive: if [b] is not before [a] and [c] is not
    before [b], then [c] is not before [a]. *)
Lemma notBefore_trans (a b c : Time) :
  Before b a = false -> Before c b = false -> Before c a = false.
Proof. rewrite !Before_false_spec. lia. Qed.

End TimeOrder.

Section SyncFacts.
Import GoTime Model Service.
Context {R : Type} `{!TournamentRepo R}.

Lemma syncPhases_tournament (r : R) (t : Tournament) (phases : list RegistrationPhase) :
  Id (syncPhases r t phases).2 = Id t
  /\ UpdatedAt (syncPhases r t phases).2 = UpdatedAt t
  /\ Registrations (syncPhases r t phases).2
     = (Registrations t ++ (registrationOf <$> phases))%list.
Proof.
  revert r t. induction phases as [|p phases IH]; intros r t; cbn [syncPhases].
  - by rewrite app_nil_r.
  - destruct (IH (UpsertRegistration r (Id t) (registrationOf p)).1
               {| Id := Id t; Status := Status t; UpdatedAt := UpdatedAt t;
                  StartDate := StartDate t; EndDate := EndDate t; Title := Title t;
                  Localtion := Localtion t; GeoLocation := GeoLocation t;
                  Series := Series t; PdgaTier := PdgaTier t; PdgaId := PdgaId t;
                  DRating := DRating t;
                  Registrations := (Registrations t ++ [registrationOf p])%list |})
      as (H1 & H2 & H3).
    rewrite H1, H2, H3. cbn. by rewrite <- app_assoc.
Qed.

(** What a round that stores does to the memory. *)
Lemma syncRound_cases (gto : GtoService) (now : Time) (f : Tournament)
    (s s' : TournamentService R) (o : outcome unit) :
  syncRound gto now f s = (s', o) ->
  (tournaments s' = tournaments s /\ heap s' = heap s /\ repo s' = repo s
   /\ lastSync s' = lastSync s
   /\ (changed (stored s (Id f)) f = false \/ o <> Ok tt))
  \/ (changed (stored s (Id f)) f = true
      /\ exists details t',
           FetchEventDetails gto (Id f) = Ok details
           /\ Id t' = Id f /\ UpdatedAt t' = UpdatedAt f
           /\ Registrations t'
              = (Registrations f ++ (registrationOf <$> RegistrationPhases details))%list
           /\ tournaments s' = <[Id f := length (heap s)]> (tournaments s)
           /\ heap s' = (heap s ++ [t'])%list
           /\ lastSync s' = lastSync s).
Proof.
  unfold syncRound, stored.
  destruct (changed (deref s (GetTournament s (Id f))) f) eqn:Hch.
  - destruct (FetchEventDetails gto (Id f)) as [details|e|m] eqn:Hd.
    + destruct (syncPhases (UpsertTournament (repo s) (enrich f details)).1
                  (enrich f details) (RegistrationPhases details)) as [r2 t'] eqn:Hp.
      pose proof (syncPhases_tournament
                    (UpsertTournament (repo s) (enrich f details)).1
                    (enrich f details) (RegistrationPhases details)) as (H1 & H2 & H3).
      rewrite Hp in H1, H2, H3. cbn [snd enrich Id UpdatedAt Registrations] in H1, H2, H3.
      destruct (CreateTurnamentHistory r2 t' now) as [r3 [[]|m]];
        intros [= <- <-]; right; (split; [done|]); exists details, t'; cbn;
        rewrite H1; done.
    + intros [= <- <-]. left. repeat split; auto; right; done.
    + intros [= <- <-]. left. repeat split; auto; right; done.
  - intros [= <- <-]. left. repeat split; auto.
Qed.

Lemma stored_insert_ne (s s' : TournamentService R) (t' : Tournament) (k id : Z)
    (st : Tournament) :
  tournaments s' = <[k := length (heap s)]> (tournaments s) ->
  heap s' = (heap s ++ [t'])%list ->
  k <> id -> stored s id = Some st -> stored s' id = Some st.
Proof.
  unfold stored, deref, GetTournament. intros -> -> Hne.
  rewrite lookup_insert_ne by done.
  destruct (tournaments s !! id) as [a|]; cbn; [|done].
  intros H. by apply lookup_app_l_Some.
Qed.

Lemma stored_insert_eq (s s' : TournamentService R) (t' : Tournament) (k : Z) :
  tournaments s' = <[k := length (heap s)]> (tournaments s) ->
  heap s' = (heap s ++ [t'])%list ->
  stored s' k = Some t'.
Proof.
  unfold stored, deref, GetTournament. intros -> ->.
  rewrite lookup_insert_eq. cbn. by rewrite list_lookup_middle.
Qed.

(** A round never replaces a stored record by an older one. *)
Lemma syncRound_monotone (gto : GtoService) (now : Time) (f : Tournament)
    (s s' : TournamentService R) (o : outcome unit) (id : Z) (st : Tournament) :
  syncRound gto now f s = (s', o) ->
  stored s id = Some st ->
  exists st', stored s' id = Some st'
              /\ Before (UpdatedAt st') (UpdatedAt st) = false.
Proof.
  intros Hr Hst. apply syncRound_cases in Hr
    as [(Ht & Hh & _)|(Hch & details & t' & _ & Hid & Hup & _ & Ht & Hh & _)].
  - exists st. split; [|apply Before_irrefl].
    unfold stored, deref, GetTournament in *. by rewrite Ht, Hh.
  - destruct (decide (Id f = id)) as [<-|Hne].
    + exists t'. split; [by eapply stored_insert_eq|].
      rewrite Hst in Hch. cbn in Hch. rewrite Hup. by apply Before_asym.
    + exists st. split; [by eapply stored_insert_ne|apply Before_irrefl].
Qed.

(** After a round that returned normally, the stored record of the
    fetched id is not older than the fetched record. *)
Lemma syncRound_caught_up (gto : GtoService) (now : Time) (f : Tournament)
    (s s' : TournamentService R) :
  syncRound gto now f s = (s', Ok tt) ->
  exists st', stored s' (Id f) = Some st'
              /\ Before (UpdatedAt st') (UpdatedAt f) = false.
Proof.
  intros Hr. apply syncRound_cases in Hr
    as [(Ht & Hh & _ & _ & [Hch|Hne])|(Hch & details & t' & _ & Hid & Hup & _ & Ht & Hh & _)].
  - unfold changed in Hch. destruct (stored s (Id f)) as [st|] eqn:Hst; [|done].
    exists st. split; [|done]. unfold stored, deref, GetTournament in *. by rewrite Ht, Hh.
  - done.
  - exists t'. split; [by eapply stored_insert_eq|]. rewrite Hup. apply Before_irrefl.
Qed.

Lemma syncFrom_monotone (gto : GtoService) (clock : nat -> Time)
    (fetched : list Tournament) :
  forall (i : nat) (s s' : TournamentService R) (o : outcome unit) (id : Z) (st : Tournament),
    syncFrom gto clock i fetched s = (s', o) ->
    stored s id = Some st ->
    exists st', stored s' id = Some st'
                /\ Before (UpdatedAt st') (UpdatedAt st) = false.
Proof.
  induction fetched as [|f rest IH]; intros i s s' o id st; cbn [syncFrom].
  - intros [= <- <-] Hst. exists st. split; [done|apply Before_irrefl].
  - destruct (syncRound gto (clock i) f s) as [s1 o1] eqn:Hr. intros Hs Hst.
    destruct (syncRound_monotone _ _ _ _ _ _ _ _ Hr Hst) as (st1 & Hst1 & Hb1).
    destruct o1 as [[]|e|m].
    + destruct (IH _ _ _ _ _ _ Hs Hst1) as (st2 & Hst2 & Hb2).
      exists st2. split; [done|]. by eapply notBefore_trans.
    + injection Hs as <- <-. eauto.
    + injection Hs as <- <-. eauto.
Qed.

(** When no fetched record is newer than the stored one, the loop leaves
    the whole service as it is. *)
Lemma syncFrom_unchanged (gto : GtoService) (clock : nat -> Time)
    (fetched : list Tournament) (s : TournamentService R) :
  (forall f, f ∈ fetched -> changed (stored s (Id f)) f = false) ->
  forall i, syncFrom gto clock i fetched s = (s, Ok tt).
Proof.
  induction fetched as [|f rest IH]; intros Hall i; cbn [syncFrom]; [done|].
  unfold syncRound. fold (stored s (Id f)).
  rewrite (Hall f) by (apply elem_of_cons; by left).
  apply IH. intros f' Hf'. apply Hall. apply elem_of_cons. by right.
Qed.

(** After a loop that returned normally, every fetched record is caught
    up with. *)
Lemma syncFrom_caught_up (gto : GtoService) (clock : nat -> Time)
    (fetched : list Tournament) :
  forall (i : nat) (s s' : TournamentService R),
    syncFrom gto clock i fetched s = (s', Ok tt) ->
    forall f, f ∈ fetched -> changed (stored s' (Id f)) f = false.
Proof.
  induction fetched as [|f rest IH]; intros i s s' Hs f' Hf'.
  - by apply elem_of_nil in Hf'.
  - cbn [syncFrom] in Hs.
    destruct (syncRound gto (clock i) f s) as [s1 o1] eqn:Hr.
    destruct o1 as [[]|e|m]; [|done..].
    apply elem_of_cons in Hf' as [->|Hf']; [|by eapply IH].
    destruct (syncRound_caught_up _ _ _ _ _ Hr) as (st1 & Hst1 & Hb1).
    destruct (syncFrom_monotone _ _ _ _ _ _ _ _ _ Hs Hst1) as (st2 & Hst2 & Hb2).
    rewrite Hst2. cbn. by eapply notBefore_trans.
Qed.

End SyncFacts.

Section SqliteFacts.
Import GoTime Model.

Lemma upsertRegistrations_tables (r : Db.Repo) (id : Z) (regs : list Registration) :
  (Db.upsertRegistrations r id regs).2 = DbOk tt
  /\ Db.tournaments_table (Db.upsertRegistrations r id regs).1 = Db.tournaments_table r
  /\ Db.registrations_table (Db.upsertRegistrations r id regs).1
     = upsertAll (Db.registrations_table r) id regs
  /\ Db.calendars_table (Db.upsertRegistrations r id regs).1 = Db.calendars_table r
  /\ Db.tournament_history_table (Db.upsertRegistrations r id regs).1
     = Db.tournament_history_table r.
Proof.
  revert r. induction regs as [|reg regs IH]; intros r; [done|].
  cbn [Db.upsertRegistrations Db.UpsertRegistration].
  destruct (IH {| Db.tournaments_table := Db.tournaments_table r;
                  Db.registrations_table :=
                    Db.upsertRegistrationRow (Db.registrations_table r) id reg;
                  Db.calendars_table := Db.calendars_table r;
                  Db.tournament_history_table := Db.tournament_history_table r |})
    as (H1 & H2 & H3 & H4 & H5).
  rewrite H1, H2, H3, H4, H5. done.
Qed.

Lemma UpsertTournament_tables (r : Db.Repo) (t : Tournament) :
  Db.tournaments_table (Db.UpsertTournament r t).1
    = <[Id t := Db.rowOf t]> (Db.tournaments_table r)
  /\ Db.registrations_table (Db.UpsertTournament r t).1
     = upsertAll (Db.registrations_table r) (Id t) (Registrations t)
  /\ Db.calendars_table (Db.UpsertTournament r t).1 = Db.calendars_table r
  /\ Db.tournament_history_table (Db.UpsertTournament r t).1
     = Db.tournament_history_table r.
Proof.
  unfold Db.UpsertTournament.
  destruct (upsertRegistrations_tables
              {| Db.tournaments_table := <[Id t := Db.rowOf t]> (Db.tournaments_table r);
                 Db.registrations_table := Db.registrations_table r;
                 Db.calendars_table := Db.calendars_table r;
                 Db.tournament_history_table := Db.tournament_history_table r |}
              (Id t) (Registrations t)) as (_ & H2 & H3 & H4 & H5).
  rewrite H2, H3, H4, H5. done.
Qed.

Lemma syncPhases_tables (r : Db.Repo) (t : Tournament) (phases : list RegistrationPhase) :
  Db.tournaments_table (Service.syncPhases r t phases).1 = Db.tournaments_table r
  /\ Db.registrations_table (Service.syncPhases r t phases).1
     = upsertAll (Db.registrations_table r) (Id t) (Service.registrationOf <$> phases)
  /\ Db.calendars_table (Service.syncPhases r t phases).1 = Db.calendars_table r
  /\ Db.tournament_history_table (Service.syncPhases r t phases).1
     = Db.tournament_history_table r.
Proof.
  revert r t. induction phases as [|p phases IH]; intros r t; [done|].
  cbn [Service.syncPhases].
  match goal with
  | |- context [Service.syncPhases ?r' ?t' phases] =>
      destruct (IH r' t') as (H1 & H2 & H3 & H4)
  end.
  rewrite H1, H2, H3, H4. done.
Qed.

Lemma CreateTurnamentHistory_tables (r : Db.Repo) (t : Tournament) (now : Time) :
  Db.tournaments_table (Db.CreateTurnamentHistory r t now).1 = Db.tournaments_table r
  /\ Db.registrations_table (Db.CreateTurnamentHistory r t now).1
     = Db.registrations_table r
  /\ Db.calendars_table (Db.CreateTurnamentHistory r t now).1 = Db.calendars_table r
  /\ ((existsb (Db.sameHistoryKey (Id t) now) (Db.tournament_history_table r) = false
       /\ (Db.CreateTurnamentHistory r t now).2 = DbOk tt
       /\ Db.tournament_history_table (Db.CreateTurnamentHistory r t now).1
          = (Db.tournament_history_table r ++
               [{| Db.tournament_id := Id t; Db.date := now;
                   Db.history_updated_at := UpdatedAt t; Db.snapshot := t |}])%list)
      \/ (existsb (Db.sameHistoryKey (Id t) now) (Db.tournament_history_table r) = true
          /\ (exists m, (Db.CreateTurnamentHistory r t now).2 = DbErr m)
          /\ Db.tournament_history_table (Db.CreateTurnamentHistory r t now).1
             = Db.tournament_history_table r)).
Proof.
  unfold Db.CreateTurnamentHistory.
  destruct (existsb (Db.sameHistoryKey (Id t) now) (Db.tournament_history_table r));
    cbn; repeat split; eauto.
Qed.

(** Upserting registrations of one tournament leaves the rows of every
    other tournament alone. *)
Lemma upsertRegistrationRow_other (rows : list (Z * Registration)) (tid id : Z)
    (reg : Registration) :
  tid <> id ->
  filter (λ row, row.1 = id) (Db.upsertRegistrationRow rows tid reg)
    = filter (λ row, row.1 = id) rows.
Proof.
  intros Hne. induction rows as [|row rows IH]; cbn [Db.upsertRegistrationRow].
  - rewrite filter_cons_False; done.
  - destruct (Db.sameRegistrationKey tid (RegTitle reg) row) eqn:Hk.
    + unfold Db.sameRegistrationKey in Hk. apply andb_true_iff in Hk as [Hk _].
      apply Z.eqb_eq in Hk.
      rewrite !filter_cons. cbn. rewrite !decide_False by congruence. done.
    + rewrite !filter_cons, IH. done.
Qed.

Lemma upsertAll_other (rows : list (Z * Registration)) (tid id : Z)
    (regs : list Registration) :
  tid <> id ->
  filter (λ row, row.1 = id) (upsertAll rows tid regs) = filter (λ row, row.1 = id) rows.
Proof.
  intros Hne. unfold upsertAll. revert rows.
  induction regs as [|reg regs IH]; intros rows; cbn [foldl]; [done|].
  rewrite IH. by apply upsertRegistrationRow_other.
Qed.

Lemma upsertAll_app (rows : list (Z * Registration)) (id : Z) (l1 l2 : list Registration) :
  upsertAll rows id (l1 ++ l2) = upsertAll (upsertAll rows id l1) id l2.
Proof. unfold upsertAll. apply foldl_app. Qed.

End SqliteFacts.

Section SyncOnSqlite.
Import GoTime Model Service.

(** A storing round on the SQLite repository, table by table. *)
Lemma syncRound_tables (gto : GtoService) (now : Time) (f : Tournament)
    (s s' : TournamentService Db.Repo) (o : outcome unit) (details : EventDetails) :
  syncRound gto now f s = (s', o) ->
  changed (stored s (Id f)) f = true ->
  FetchEventDetails gto (Id f) = Ok details ->
  exists t',
    Id t' = Id f /\ UpdatedAt t' = UpdatedAt f
    /\ Registrations t'
       = (Registrations f ++ (registrationOf <$> RegistrationPhases details))%list
    /\ stored s' (Id f) = Some t'
    /\ Db.tournaments_table (repo s')
       = <[Id f := Db.rowOf (enrich f details)]> (Db.tournaments_table (repo s))
    /\ Db.registrations_table (repo s')
       = upsertAll (Db.registrations_table (repo s)) (Id f)
           (Registrations f ++ (registrationOf <$> RegistrationPhases details))
    /\ Db.calendars_table (repo s') = Db.calendars_table (repo s)
    /\ ((o = Ok tt
         /\ existsb (Db.sameHistoryKey (Id f) now)
                    (Db.tournament_history_table (repo s)) = false
         /\ Db.tournament_history_table (repo s')
            = (Db.tournament_history_table (repo s) ++
                 [{| Db.tournament_id := Id f; Db.date := now;
                     Db.history_updated_at := UpdatedAt f; Db.snapshot := t' |}])%list)
        \/ ((exists m, o = Err (OtherError m))
            /\ existsb (Db.sameHistoryKey (Id f) now)
                       (Db.tournament_history_table (repo s)) = true
            /\ Db.tournament_history_table (repo s')
               = Db.tournament_history_table (repo s))).
Proof.
  unfold syncRound, stored. intros Hr Hch Hd. rewrite Hch, Hd in Hr.
  cbn [UpsertTournament CreateTurnamentHistory Repo_TournamentRepo] in Hr.
  destruct (syncPhases (Db.UpsertTournament (repo s) (enrich f details)).1
              (enrich f details) (RegistrationPhases details)) as [r2 t'] eqn:Hp.
  pose proof (syncPhases_tournament
                (Db.UpsertTournament (repo s) (enrich f details)).1
                (enrich f details) (RegistrationPhases details)) as (H1 & H2 & H3).
  pose proof (syncPhases_tables
                (Db.UpsertTournament (repo s) (enrich f details)).1
                (enrich f details) (RegistrationPhases details)) as (T1 & T2 & T3 & T4).
  rewrite Hp in H1, H2, H3, T1, T2, T3, T4.
  cbn [fst snd enrich Id UpdatedAt Registrations] in H1, H2, H3, T1, T2, T3, T4.
  destruct (UpsertTournament_tables (repo s) (enrich f details)) as (U1 & U2 & U3 & U4).
  cbn [enrich Id Registrations] in U1, U2, U3, U4.
  rewrite U1 in T1. rewrite U2, <- upsertAll_app in T2. rewrite U3 in T3. rewrite U4 in T4.
  destruct (CreateTurnamentHistory_tables r2 t' now) as (C1 & C2 & C3 & C4).
  rewrite H1, H2, T4 in C4.
  exists t'. split; [done|]. split; [done|]. split; [done|].
  destruct (Db.CreateTurnamentHistory r2 t' now) as [r3 res] eqn:Hc.
  cbn [fst snd] in C1, C2, C3, C4.
  assert (Hst : forall o', (s', o) = (withRepo
            {| tournaments := <[Id t' := length (heap s)]> (tournaments s);
               heap := (heap s ++ [t'])%list; repo := r2; lastSync := lastSync s |} r3, o') ->
            stored s' (Id f) = Some t'
            /\ Db.tournaments_table (repo s')
               = <[Id f := Db.rowOf (enrich f details)]> (Db.tournaments_table (repo s))
            /\ Db.registrations_table (repo s')
               = upsertAll (Db.registrations_table (repo s)) (Id f)
                   (Registrations f ++ (registrationOf <$> RegistrationPhases details))
            /\ Db.calendars_table (repo s') = Db.calendars_table (repo s)
            /\ Db.tournament_history_table (repo s') = Db.tournament_history_table r3
            /\ o = o').
  { intros o' [= -> ->]. cbn [withRepo repo]. rewrite C1, C2, C3, T1, T2, T3.
    repeat split; try done.
    unfold stored, deref, GetTournament. cbn [tournaments heap withRepo].
    rewrite H1, lookup_insert_eq. cbn. by rewrite list_lookup_middle. }
  destruct res as [[]|m].
  - symmetry in Hr. destruct (Hst _ Hr) as (S1 & S2 & S3 & S4 & S5 & ->).
    repeat (split; [done|]). left.
    destruct C4 as [(E & _ & Hh)|(_ & [m Hm] & _)]; [|done].
    rewrite S5. done.
  - symmetry in Hr. destruct (Hst _ Hr) as (S1 & S2 & S3 & S4 & S5 & ->).
    repeat (split; [done|]). right.
    destruct C4 as [(_ & Hm & _)|(E & _ & Hh)]; [done|].
    rewrite S5. eauto.
Qed.

(** A round for one tournament leaves the rows of every other tournament
    alone. *)
Lemma syncRound_other_rows (gto : GtoService) (now : Time) (f : Tournament)
    (s s' : TournamentService Db.Repo) (o : outcome unit) (id : Z) :
  syncRound gto now f s = (s', o) ->
  Id f <> id ->
  storeRows (repo s') id = storeRows (repo s) id.
Proof.
  intros Hr Hne. pose proof Hr as Hr'.
  apply syncRound_cases in Hr'
    as [(_ & _ & -> & _)|(Hch & details & t0 & Hd & _)]; [done|].
  destruct (syncRound_tables _ _ _ _ _ _ _ Hr Hch Hd)
    as (t' & _ & _ & _ & _ & T1 & T2 & _ & T4).
  unfold storeRows. rewrite T1, T2, lookup_insert_ne, upsertAll_other by done.
  destruct T4 as [(_ & _ & ->)|(_ & _ & ->)]; [|done].
  rewrite filter_app, filter_cons_False, filter_nil, app_nil_r by (cbn; done). done.
Qed.

(** If the stored record of [id] is not older than any fetched record of
    that id, the loop applies nothing for [id]. *)
Lemma syncFrom_frame (gto : GtoService) (clock : nat -> Time)
    (fetched : list Tournament) (id : Z) (st : Tournament) :
  (forall f, f ∈ fetched -> Id f = id -> Before (UpdatedAt st) (UpdatedAt f) = false) ->
  forall (i : nat) (s s' : TournamentService Db.Repo) (o : outcome unit),
    syncFrom gto clock i fetched s = (s', o) ->
    stored s id = Some st ->
    stored s' id = Some st
    /\ GetTournament s' id = GetTournament s id
    /\ storeRows (repo s') id = storeRows (repo s) id.
Proof.
  induction fetched as [|f rest IH]; intros Hall i s s' o; cbn [syncFrom].
  - intros [= <- <-] Hst. done.
  - destruct (syncRound gto (clock i) f s) as [s1 o1] eqn:Hr. intros Hs Hst.
    assert (H1 : stored s1 id = Some st
                 /\ GetTournament s1 id = GetTournament s id
                 /\ storeRows (repo s1) id = storeRows (repo s) id).
    { destruct (decide (Id f = id)) as [Heq|Hne].
      - assert (Hch : changed (stored s (Id f)) f = false).
        { rewrite Heq, Hst. cbn. apply Hall; [apply elem_of_cons; by left|done]. }
        unfold syncRound in Hr. fold (stored s (Id f)) in Hr. rewrite Hch in Hr.
        by injection Hr as <- <-.
      - split; [|split].
        + pose proof Hr as Hr'. apply syncRound_cases in Hr'
            as [(Ht & Hh & _)|(_ & _ & t' & _ & _ & _ & _ & Ht & Hh & _)].
          * unfold stored, deref, GetTournament in *. by rewrite Ht, Hh.
          * by eapply stored_insert_ne.
        + pose proof Hr as Hr'. apply syncRound_cases in Hr'
            as [(Ht & Hh & _)|(_ & _ & t' & _ & _ & _ & _ & Ht & Hh & _)].
          * unfold GetTournament. by rewrite Ht.
          * unfold GetTournament. rewrite Ht. by rewrite lookup_insert_ne.
        + by eapply syncRound_other_rows. }
    destruct H1 as (A1 & A2 & A3).
    assert (Hall' : forall f0, f0 ∈ rest -> Id f0 = id ->
                      Before (UpdatedAt st) (UpdatedAt f0) = false).
    { intros f0 Hf0. apply Hall. apply elem_of_cons. by right. }
    destruct o1 as [[]|e|m].
    + destruct (IH Hall' _ _ _ _ Hs A1) as (B1 & B2 & B3).
      rewrite B2, B3, A2, A3. done.
    + injection Hs as <- <-. done.
    + injection Hs as <- <-. done.
Qed.

End SyncOnSqlite.

Section RegistrationRows.
Import GoTime Model.

Lemma sameRegistrationKey_spec (id : Z) (t : string) (row : Z * Registration) :
  Db.sameRegistrationKey id t row = true <-> registrationKey row = (id, t).
Proof.
  unfold Db.sameRegistrationKey, registrationKey.
  rewrite andb_true_iff, Z.eqb_eq, String.eqb_eq. split.
  - intros [-> ->]. done.
  - intros [= -> ->]. done.
Qed.

Lemma upsertRegistrationRow_keys (rows : list (Z * Registration)) (id : Z)
    (reg : Registration) :
  registrationKey <$> Db.upsertRegistrationRow rows id reg
    = if decide ((id, RegTitle reg) ∈ registrationKey <$> rows)
      then registrationKey <$> rows
      else ((registrationKey <$> rows) ++ [(id, RegTitle reg)])%list.
Proof.
  induction rows as [|row rows IH]; cbn [Db.upsertRegistrationRow].
  - rewrite decide_False; [done|]. rewrite fmap_nil. apply not_elem_of_nil.
  - destruct (Db.sameRegistrationKey id (RegTitle reg) row) eqn:Hk.
    + apply sameRegistrationKey_spec in Hk.
      rewrite decide_True by (rewrite fmap_cons, Hk; apply elem_of_cons; by left).
      rewrite !fmap_cons, Hk. done.
    + assert (Hne : registrationKey row <> (id, RegTitle reg)).
      { intros H. apply sameRegistrationKey_spec in H. congruence. }
      rewrite !fmap_cons, IH.
      destruct (decide ((id, RegTitle reg) ∈ registrationKey <$> rows)) as [Hin|Hnin].
      * rewrite decide_True; [done|]. apply elem_of_cons. by right.
      * rewrite decide_False; [done|]. intros [H|H]%elem_of_cons; congruence.
Qed.

Lemma upsertRegistrationRow_elem (rows : list (Z * Registration)) (id : Z)
    (reg : Registration) (row : Z * Registration) :
  row ∈ Db.upsertRegistrationRow rows id reg -> row = (id, reg) \/ row ∈ rows.
Proof.
  induction rows as [|row0 rows IH]; cbn [Db.upsertRegistrationRow].
  - intros H%list_elem_of_singleton. by left.
  - destruct (Db.sameRegistrationKey id (RegTitle reg) row0).
    + intros [->|H]%elem_of_cons; [by left|]. right. apply elem_of_cons. by right.
    + intros [->|H]%elem_of_cons; [right; apply elem_of_cons; by left|].
      destruct (IH H) as [->|H']; [by left|]. right. apply elem_of_cons. by right.
Qed.

Lemma upsertRegistrationRow_new (rows : list (Z * Registration)) (id : Z)
    (reg : Registration) :
  (id, reg) ∈ Db.upsertRegistrationRow rows id reg.
Proof.
  induction rows as [|row0 rows IH]; cbn [Db.upsertRegistrationRow].
  - by apply list_elem_of_singleton.
  - destruct (Db.sameRegistrationKey id (RegTitle reg) row0);
      apply elem_of_cons; [by left|by right].
Qed.

Lemma upsertRegistrationRow_keeps (rows : list (Z * Registration)) (id : Z)
    (reg : Registration) (row : Z * Registration) :
  row ∈ rows -> registrationKey row <> (id, RegTitle reg) ->
  row ∈ Db.upsertRegistrationRow rows id reg.
Proof.
  intros Hin Hne. induction rows as [|row0 rows IH]; cbn [Db.upsertRegistrationRow].
  - by apply elem_of_nil in Hin.
  - destruct (Db.sameRegistrationKey id (RegTitle reg) row0) eqn:Hk.
    + apply sameRegistrationKey_spec in Hk.
      apply elem_of_cons in Hin as [->|Hin]; [congruence|].
      apply elem_of_cons. by right.
    + apply elem_of_cons in Hin as [->|Hin]; apply elem_of_cons; [by left|].
      right. by apply IH.
Qed.

Lemma upsertAll_keys_prefix (rows : list (Z * Registration)) (id : Z)
    (regs : list Registration) :
  (registrationKey <$> rows) `prefix_of` (registrationKey <$> upsertAll rows id regs).
Proof.
  unfold upsertAll. revert rows. induction regs as [|reg regs IH]; intros rows; cbn [foldl].
  - done.
  - etrans; [|apply IH]. rewrite upsertRegistrationRow_keys.
    case_decide; [done|]. by apply prefix_app_r.
Qed.

Lemma upsertAll_unique (rows : list (Z * Registration)) (id : Z)
    (regs : list Registration) :
  NoDup (registrationKey <$> rows) ->
  NoDup (registrationKey <$> upsertAll rows id regs).
Proof.
  unfold upsertAll. revert rows. induction regs as [|reg regs IH]; intros rows Hnd;
    cbn [foldl]; [done|].
  apply IH. rewrite upsertRegistrationRow_keys. case_decide as Hin; [done|].
  apply NoDup_app. split; [done|]. split; [|apply NoDup_singleton].
  intros k Hk Hk'. apply list_elem_of_singleton in Hk'. by subst.
Qed.

Lemma upsertAll_elem (rows : list (Z * Registration)) (id : Z)
    (regs : list Registration) (row : Z * Registration) :
  row ∈ upsertAll rows id regs -> row ∈ rows \/ (row.1 = id /\ row.2 ∈ regs).
Proof.
  unfold upsertAll. revert rows. induction regs as [|reg regs IH]; intros rows;
    cbn [foldl]; [by left|].
  intros H. destruct (IH _ H) as [H'|[H1 H2]].
  - apply upsertRegistrationRow_elem in H' as [->|H']; [|by left].
    right. split; [done|]. apply elem_of_cons. by left.
  - right. split; [done|]. apply elem_of_cons. by right.
Qed.

Lemma upsertAll_keeps (rows : list (Z * Registration)) (id : Z)
    (regs : list Registration) (row : Z * Registration) :
  row ∈ rows ->
  (row.1 <> id \/ RegTitle row.2 ∉ RegTitle <$> regs) ->
  row ∈ upsertAll rows id regs.
Proof.
  unfold upsertAll. revert rows. induction regs as [|reg regs IH]; intros rows Hin Hor;
    cbn [foldl]; [done|].
  apply IH.
  - apply upsertRegistrationRow_keeps; [done|]. unfold registrationKey. intros [= H1 H2].
    destruct Hor as [Hor|Hor]; [done|]. apply Hor. rewrite fmap_cons, H2.
    apply elem_of_cons. by left.
  - destruct Hor as [Hor|Hor]; [by left|]. right. intros H. apply Hor.
    rewrite fmap_cons. apply elem_of_cons. by right.
Qed.

Lemma upsertAll_stores (rows : list (Z * Registration)) (id : Z)
    (regs : list Registration) (reg : Registration) :
  NoDup (RegTitle <$> regs) -> reg ∈ regs -> (id, reg) ∈ upsertAll rows id regs.
Proof.
  unfold upsertAll. revert rows. induction regs as [|reg0 regs IH]; intros rows Hnd Hin.
  - by apply elem_of_nil in Hin.
  - rewrite fmap_cons in Hnd. apply NoDup_cons in Hnd as [Hnotin Hnd].
    cbn [foldl]. apply elem_of_cons in Hin as [->|Hin]; [|by apply IH].
    apply (upsertAll_keeps _ id regs (id, reg0)); [apply upsertRegistrationRow_new|].
    right. done.
Qed.

Lemma upsertAll_names (rows : list (Z * Registration)) (id : Z)
    (regs : list Registration) (reg : Registration) :
  reg ∈ regs -> (id, RegTitle reg) ∈ registrationKey <$> upsertAll rows id regs.
Proof.
  unfold upsertAll. revert rows. induction regs as [|reg0 regs IH]; intros rows Hin.
  - by apply elem_of_nil in Hin.
  - cbn [foldl]. apply elem_of_cons in Hin as [->|Hin]; [|by apply IH].
    eapply elem_of_prefix; [|apply (upsertAll_keys_prefix _ id regs)].
    apply list_elem_of_fmap. exists (id, reg0). split; [done|].
    apply upsertRegistrationRow_new.
Qed.

End RegistrationRows.

Section HistoryRows.
Import GoTime Model.

Lemma sameHistoryKey_spec (id : Z) (now : Time) (row : Db.HistoryRow) :
  Db.sameHistoryKey id now row = true <-> historyKey row = (id, unix now, nsec now).
Proof.
  unfold Db.sameHistoryKey, historyKey, Equal.
  rewrite !andb_true_iff, !Z.eqb_eq. split.
  - intros (-> & -> & ->). done.
  - intros [= -> -> ->]. done.
Qed.

Lemma history_append_unique (rows : list Db.HistoryRow) (t t' : Tournament) (now u : Time) :
  existsb (Db.sameHistoryKey (Id t) now) rows = false ->
  NoDup (historyKey <$> rows) ->
  NoDup (historyKey <$> (rows ++ [{| Db.tournament_id := Id t; Db.date := now;
                                     Db.history_updated_at := u;
                                     Db.snapshot := t' |}])%list).
Proof.
  intros Hex Hnd. rewrite fmap_app. apply NoDup_app. split; [done|].
  split; [|apply NoDup_singleton].
  intros k Hk Hk'. apply list_elem_of_singleton in Hk'. subst k.
  apply list_elem_of_fmap in Hk as (row & Hkey & Hrow).
  assert (Hc : existsb (Db.sameHistoryKey (Id t) now) rows = true).
  { apply existsb_exists. exists row. split; [by apply list_elem_of_In|].
    apply sameHistoryKey_spec. by rewrite <- Hkey. }
  congruence.
Qed.

End HistoryRows.

Section Dangling.
Import GoTime Model Service.
Context {R : Type} `{!TournamentRepo R}.

Lemma syncRound_noDangling (gto : GtoService) (now : Time) (f : Tournament)
    (s s' : TournamentService R) (o : outcome unit) :
  noDangling s -> syncRound gto now f s = (s', o) -> noDangling s'.
Proof.
  intros Hnd Hr. apply syncRound_cases in Hr
    as [(Ht & Hh & _)|(_ & _ & t' & _ & _ & _ & _ & Ht & Hh & _)];
    unfold noDangling; rewrite Ht, Hh; [done|].
  intros k a. rewrite length_app. cbn [length].
  intros [[_ <-]|[_ H]]%lookup_insert_Some; [lia|]. apply Hnd in H. lia.
Qed.

Lemma syncRound_other_stored (gto : GtoService) (now : Time) (f : Tournament)
    (s s' : TournamentService R) (o : outcome unit) (id : Z) :
  noDangling s -> syncRound gto now f s = (s', o) -> Id f <> id ->
  stored s' id = stored s id.
Proof.
  intros Hnd Hr Hne. apply syncRound_cases in Hr
    as [(Ht & Hh & _)|(_ & _ & t' & _ & _ & _ & _ & Ht & Hh & _)];
    unfold stored, deref, GetTournament; rewrite Ht, Hh; [done|].
  rewrite lookup_insert_ne by done.
  destruct (tournaments s !! id) as [a|] eqn:Ha; cbn; [|done].
  apply lookup_app_l. by eapply Hnd.
Qed.

End Dangling.

Section HistoryOfCycle.
Import GoTime Model Service.

Lemma syncFrom_other_rows (gto : GtoService) (clock : nat -> Time)
    (fetched : list Tournament) (id : Z) :
  id ∉ Id <$> fetched ->
  forall (i : nat) (s s' : TournamentService Db.Repo) (o : outcome unit),
    syncFrom gto clock i fetched s = (s', o) ->
    storeRows (repo s') id = storeRows (repo s) id.
Proof.
  induction fetched as [|f rest IH]; intros Hnotin i s s' o; cbn [syncFrom].
  - by intros [= <- <-].
  - rewrite fmap_cons in Hnotin. apply not_elem_of_cons in Hnotin as [Hne Hnotin].
    destruct (syncRound gto (clock i) f s) as [s1 o1] eqn:Hr. intros Hs.
    assert (H1 : storeRows (repo s1) id = storeRows (repo s) id).
    { eapply syncRound_other_rows; [done|]. congruence. }
    destruct o1 as [[]|e|m].
    + rewrite <- H1. by eapply IH.
    + by injection Hs as <- <-.
    + by injection Hs as <- <-.
Qed.

(** In a cycle that visits every id once and returns normally, the
    history of a fetched id grows by exactly one row, stamped with the
    clock reading of its round, when the record was newer, and not at all
    otherwise. *)
Lemma syncFrom_history (gto : GtoService) (clock : nat -> Time)
    (fetched : list Tournament) :
  NoDup (Id <$> fetched) ->
  forall (i : nat) (s s' : TournamentService Db.Repo),
    noDangling s ->
    syncFrom gto clock i fetched s = (s', Ok tt) ->
    forall (j : nat) (f : Tournament),
      fetched !! j = Some f ->
      if changed (stored s (Id f)) f
      then exists row,
             (storeRows (repo s') (Id f)).2
               = ((storeRows (repo s) (Id f)).2 ++ [row])%list
             /\ Db.tournament_id row = Id f
             /\ Db.date row = clock (i + j)%nat
             /\ Db.history_updated_at row = UpdatedAt f
      else (storeRows (repo s') (Id f)).2 = (storeRows (repo s) (Id f)).2.
Proof.
  induction fetched as [|f0 rest IH]; intros Hnd i s s' Hdang Hs j f Hj.
  - by rewrite lookup_nil in Hj.
  - rewrite fmap_cons in Hnd. apply NoDup_cons in Hnd as [Hnotin Hnd].
    cbn [syncFrom] in Hs.
    destruct (syncRound gto (clock i) f0 s) as [s1 o1] eqn:Hr.
    destruct o1 as [[]|e|m]; [|done..].
    destruct j as [|j]; cbn in Hj.
    + injection Hj as ->.
      pose proof (syncFrom_other_rows _ _ _ _ Hnotin _ _ _ _ Hs) as Hrest.
      rewrite Hrest. rewrite Nat.add_0_r.
      destruct (changed (stored s (Id f)) f) eqn:Hch.
      * pose proof Hr as Hr'. apply syncRound_cases in Hr'
          as [(_ & _ & _ & _ & [Hc|Hc])|(_ & details & _ & Hd & _)]; [congruence|done|].
        destruct (syncRound_tables _ _ _ _ _ _ _ Hr Hch Hd)
          as (t' & _ & _ & _ & _ & _ & _ & _ & [(_ & _ & Hh)|([m Hm] & _)]); [|done].
        eexists. unfold storeRows. cbn [snd]. rewrite Hh, filter_app.
        rewrite (filter_cons_True _ _ []) by done. rewrite filter_nil. done.
      * unfold syncRound in Hr. fold (stored s (Id f)) in Hr. rewrite Hch in Hr.
        by injection Hr as <-.
    + assert (Hne : Id f0 <> Id f).
      { intros Heq. apply Hnotin. rewrite Heq.
        apply list_elem_of_fmap. exists f. split; [done|]. by eapply list_elem_of_lookup_2. }
      pose proof (syncRound_noDangling _ _ _ _ _ _ Hdang Hr) as Hdang1.
      pose proof (IH Hnd _ _ _ Hdang1 Hs j f Hj) as Hrec.
      rewrite (syncRound_other_stored _ _ _ _ _ _ _ Hdang Hr Hne) in Hrec.
      rewrite (syncRound_other_rows _ _ _ _ _ _ _ Hr Hne) in Hrec.
      by replace (i + S j)%nat with (S i + j)%nat by lia.
Qed.

Lemma syncFrom_historyUnique (gto : GtoService) (clock : nat -> Time)
    (fetched : list Tournament) :
  forall (i : nat) (s s' : TournamentService Db.Repo) (o : outcome unit),
    syncFrom gto clock i fetched s = (s', o) ->
    historyUnique (repo s) -> historyUnique (repo s').
Proof.
  induction fetched as [|f rest IH]; intros i s s' o; cbn [syncFrom].
  - by intros [= <- <-].
  - destruct (syncRound gto (clock i) f s) as [s1 o1] eqn:Hr. intros Hs Hu.
    assert (H1 : historyUnique (repo s1)).
    { pose proof Hr as Hr'. apply syncRound_cases in Hr'
        as [(_ & _ & -> & _)|(Hch & details & _ & Hd & _)]; [done|].
      destruct (syncRound_tables _ _ _ _ _ _ _ Hr Hch Hd)
        as (t' & _ & _ & _ & _ & _ & _ & _ & [(_ & Hex & Hh)|(_ & _ & Hh)]);
        unfold historyUnique; rewrite Hh; [|done].
      by apply history_append_unique. }
    destruct o1 as [[]|e|m].
    + by eapply IH.
    + by injection Hs as <- <-.
    + by injection Hs as <- <-.
Qed.

End HistoryOfCycle.

Section WellFormed.
Import GoTime Model Service.
Context {R : Type} `{!TournamentRepo R}.

Lemma wfService_noDangling (s : TournamentService R) : wfService s -> noDangling s.
Proof.
  intros [Hobj _] k a Hk. destruct (Hobj k a Hk) as (t & Ht & _).
  by eapply lookup_lt_Some.
Qed.

(** Storing a fresh object under its own id keeps the map well formed. *)
Lemma wfService_store (s s' : TournamentService R) (t : Tournament) :
  wfService s ->
  tournaments s' = <[Id t := length (heap s)]> (tournaments s) ->
  heap s' = (heap s ++ [t])%list ->
  wfService s'.
Proof.
  intros Hwf Ht Hh. pose proof (wfService_noDangling s Hwf) as Hnd.
  destruct Hwf as [Hobj Hinj]. split.
  - intros k a. rewrite Ht, Hh. intros [[<- <-]|[Hne Hk]]%lookup_insert_Some.
    + exists t. split; [apply list_lookup_middle; done|done].
    + destruct (Hobj k a Hk) as (t0 & Ht0 & Hid). exists t0. split; [|done].
      by apply lookup_app_l_Some.
  - intros k1 k2 a. rewrite Ht.
    intros [[<- <-]|[Hne1 Hk1]]%lookup_insert_Some
           [[<- Ha]|[Hne2 Hk2]]%lookup_insert_Some; try done.
    + apply Hnd in Hk2. lia.
    + apply Hnd in Hk1. lia.
    + by eapply Hinj.
Qed.




(** The service is well formed when it is created. *)
Lemma NewTournamentService_wfService (r : R) (s : TournamentService R)
    (o : outcome unit) :
  NewTournamentService r = (s, o) -> wfService s.
Proof.
  unfold NewTournamentService, init. cbn [repo].
  set (s0 := {| tournaments := ∅; heap := []; repo := r; lastSync := None |}).
  assert (Hwf0 : wfService s0).
  { split; [intros k a H|intros k1 k2 a H]; unfold s0 in H; cbn in H;
      by rewrite lookup_empty in H. }
  destruct (GetAllTournaments r) as [t|m]; [|by intros [= <- <-]].
  intros [= <- <-]. clearbody s0. revert s0 Hwf0.
  induction t as [|tt t IH]; intros s0 Hwf0; cbn [foldl]; [done|].
  apply IH. by eapply wfService_store.
Qed.

End WellFormed.

Section FetchedRecords.
Import GoTime GoStrings Ical Model Gto.

(** The records of the schedule feed sit under their own id and carry no
    registrations. *)
Lemma parseIcsEventsFrom_entries (events : list VEvent) :
  forall (acc feed : gmap Z Tournament),
    (forall id t, acc !! id = Some t -> Id t = id /\ Registrations t = []) ->
    parseIcsEventsFrom events acc = Ok feed ->
    forall id t, feed !! id = Some t -> Id t = id /\ Registrations t = [].
Proof.
  induction events as [|event rest IH]; intros acc feed Hacc; cbn [parseIcsEventsFrom].
  - by intros [= <-].
  - destruct (typeAndId (EventId event)) as [[k tid]| |]; cbn [bind]; [|done..].
    destruct (acc !! tid) as [t0|] eqn:Ht0.
    + destruct (k =? EVENT_TYPE_REGISTRATION); [by apply IH|].
      unfold parseTournament.
      destruct (GetStartAt event); cbn [bind]; [|done..].
      destruct (GetEndAt event); cbn [bind]; [|done..].
      apply IH. intros id t [[<- <-]|[_ H]]%lookup_insert_Some; [|by apply Hacc].
      cbn. by apply Hacc.
    + assert (Hacc' : forall id t, <[tid := newTournament tid ""]> acc !! id = Some t ->
                        Id t = id /\ Registrations t = []).
      { intros id t [[<- <-]|[_ H]]%lookup_insert_Some; [done|by apply Hacc]. }
      destruct (k =? EVENT_TYPE_REGISTRATION); [by apply IH|].
      unfold parseTournament.
      destruct (GetStartAt event); cbn [bind]; [|done..].
      destruct (GetEndAt event); cbn [bind]; [|done..].
      apply IH. intros id t [[<- <-]|[_ H]]%lookup_insert_Some; [done|by apply Hacc'].
Qed.

End FetchedRecords.
Section DashFacts.
Import GoStrings.

Lemma Cut_dash_nil : Cut "" "-" = None.
Proof. reflexivity. Qed.

Lemma Cut_dash_cons (c : ascii) (rest : string) :
  Cut (String c rest) "-"
  = if Ascii.eqb c "-" then Some ("", rest)
    else match Cut rest "-" with
         | Some (before, after) => Some (String c before, after)
         | None => None
         end.
Proof.
  cbn [Cut]. unfold HasPrefix. cbn [String.prefix String.length drop].
  destruct (ascii_dec "-" c) as [<-|Hne].
  - cbn. by destruct rest.
  - destruct (Ascii.eqb c "-") eqn:He; [|done].
    apply Ascii.eqb_eq in He. congruence.
Qed.

(** Cutting at the first dash: the text before it has none. *)
Lemma Cut_dash_Some (s before after : string) :
  Cut s "-" = Some (before, after) ->
  s = before ++ String "-" after
  /\ ~ List.In "-"%char (list_ascii_of_string before)
  /\ (String.length after < String.length s)%nat.
Proof.
  revert before after. induction s as [|c rest IH]; intros before after.
  - by rewrite Cut_dash_nil.
  - rewrite Cut_dash_cons. destruct (Ascii.eqb c "-") eqn:He.
    + apply Ascii.eqb_eq in He as ->. intros [= <- <-]. cbn. split; [done|]. split; [tauto|lia].
    + destruct (Cut rest "-") as [[b a]|]; [|done]. intros [= <- <-].
      destruct (IH b a eq_refl) as (-> & Hb & Hl). split; [done|]. split.
      * cbn. intros [->|H]; [|done]. by rewrite Ascii.eqb_refl in He.
      * cbn in *. lia.
Qed.

Lemma Cut_dash_None (s : string) :
  Cut s "-" = None <-> ~ List.In "-"%char (list_ascii_of_string s).
Proof.
  induction s as [|c rest IH].
  - cbn. tauto.
  - rewrite Cut_dash_cons. destruct (Ascii.eqb c "-") eqn:He.
    + apply Ascii.eqb_eq in He as ->. cbn. split; [done|]. tauto.
    + destruct (Cut rest "-") as [[b a]|] eqn:Hc.
      * split; [done|]. intros Hn. exfalso. cbn in Hn.
        assert (Hr : ~ List.In "-"%char (list_ascii_of_string rest)) by tauto.
        apply IH in Hr. done.
      * split; [|done]. intros _. cbn. intros [->|H].
        -- by rewrite Ascii.eqb_refl in He.
        -- by apply IH in H.
Qed.

Lemma append_nil_l (s : string) : "" ++ s = s.
Proof. reflexivity. Qed.

Lemma append_cons (c : ascii) (a b : string) : String c a ++ b = String c (a ++ b).
Proof. reflexivity. Qed.

Lemma Cut_dash_app (a b : string) :
  ~ List.In "-"%char (list_ascii_of_string a) ->
  Cut (a ++ String "-" b) "-" = Some (a, b).
Proof.
  induction a as [|c a IH]; intros Ha.
  - rewrite append_nil_l. by rewrite Cut_dash_cons.
  - rewrite append_cons, Cut_dash_cons.
    destruct (Ascii.eqb c "-") eqn:He.
    + apply Ascii.eqb_eq in He as ->. cbn in Ha. tauto.
    + rewrite IH; [done|]. cbn in Ha. tauto.
Qed.

Lemma list_ascii_app (a b : string) :
  list_ascii_of_string (a ++ b) = (list_ascii_of_string a ++ list_ascii_of_string b)%list.
Proof.
  induction a as [|c a IH]; [done|].
  rewrite append_cons. cbn [list_ascii_of_string]. by rewrite IH.
Qed.

Lemma string_app_length (a b : string) :
  String.length (a ++ b) = (String.length a + String.length b)%nat.
Proof.
  induction a as [|c a IH]; [done|].
  rewrite append_cons. cbn [String.length]. by rewrite IH.
Qed.

Lemma string_app_assoc (a b c : string) : (a ++ b) ++ c = a ++ (b ++ c).
Proof. induction a as [|x a IH]; [done|]. rewrite !append_cons. by rewrite IH. Qed.

(** What [ReplaceAll s "-" ""] leaves has no dash. *)
Lemma replace_dash_free (cuts : nat) :
  forall s, (String.length s <= cuts)%nat ->
    ~ List.In "-"%char (list_ascii_of_string (replace s "-" "" cuts)).
Proof.
  induction cuts as [|n IH]; intros s Hl.
  - destruct s; [|cbn in Hl; lia]. cbn. tauto.
  - cbn [replace]. destruct (Cut s "-") as [[b a]|] eqn:Hc.
    + apply Cut_dash_Some in Hc as (-> & Hb & Hlen).
      rewrite append_nil_l, list_ascii_app.
      intros [H|H]%in_app_or; [done|]. revert H. apply IH. lia.
    + by apply Cut_dash_None.
Qed.

Lemma replace_dash_id (cuts : nat) (s : string) :
  ~ List.In "-"%char (list_ascii_of_string s) -> replace s "-" "" cuts = s.
Proof.
  intros Hs. destruct cuts as [|n]; [done|]. cbn [replace].
  apply Cut_dash_None in Hs. by rewrite Hs.
Qed.

Lemma replace_dash_app (cuts : nat) (a b : string) :
  ~ List.In "-"%char (list_ascii_of_string a) ->
  replace (a ++ String "-" b) "-" "" (S cuts) = a ++ replace b "-" "" cuts.
Proof. intros Ha. cbn [replace]. by rewrite Cut_dash_app. Qed.

Lemma ReplaceAll_dash_free (s : string) :
  ~ List.In "-"%char (list_ascii_of_string (ReplaceAll s "-" "")).
Proof. by apply replace_dash_free. Qed.

Lemma ReplaceAll_dash_id (s : string) :
  ~ List.In "-"%char (list_ascii_of_string s) -> ReplaceAll s "-" "" = s.
Proof. apply replace_dash_id. Qed.

Lemma substring_In (c : ascii) (s : string) :
  forall n m, List.In c (list_ascii_of_string (String.substring n m s)) ->
              List.In c (list_ascii_of_string s).
Proof.
  induction s as [|x s IH]; intros n m.
  - by destruct n, m.
  - destruct n as [|n]; cbn [String.substring].
    + destruct m as [|m]; [done|]. cbn [list_ascii_of_string].
      intros [->|H]; [by left|]. right. by eapply IH.
    + intros H. right. by eapply IH.
Qed.

Lemma length16_groups (s : string) :
  String.length s = 16%nat ->
  String.substring 0 4 s ++ String.substring 4 4 s
    ++ String.substring 8 4 s ++ String.substring 12 4 s = s
  /\ String.length (String.substring 0 4 s) = 4%nat
  /\ String.length (String.substring 4 4 s) = 4%nat
  /\ String.length (String.substring 8 4 s) = 4%nat
  /\ String.length (String.substring 12 4 s) = 4%nat.
Proof.
  intros H.
  do 16 (destruct s as [|? s]; [discriminate H|]).
  destruct s; [|discriminate H]. done.
Qed.

End DashFacts.
Section CalendarStore.
Import GoTime GoStrings Model Service Web.

Lemma GetCalendarByEditId_elem (r : Db.Repo) (editId : string) (c : Calendar) :
  Db.GetCalendarByEditId r editId = DbOk (Some c) ->
  exists id row, Db.calendars_table r !! id = Some row
                 /\ Db.edit_id row = editId /\ Db.calendar row = c.
Proof.
  unfold Db.GetCalendarByEditId. intros [= H].
  destruct (head _) as [row|] eqn:Hh; [|done]. injection H as <-.
  apply head_Some_elem_of in Hh.
  apply list_elem_of_filter in Hh as [He Hin].
  apply list_elem_of_fmap in Hin as ([id row'] & -> & Hin).
  apply elem_of_map_to_list in Hin. by exists id, row'.
Qed.

Lemma GetCalendarByEditId_unique (r : Db.Repo) (editId id : string) (row : Db.CalendarRow) :
  Db.calendars_table r !! id = Some row ->
  Db.edit_id row = editId ->
  (forall id' row', Db.calendars_table r !! id' = Some row' ->
                    Db.edit_id row' = editId -> id' = id) ->
  Db.GetCalendarByEditId r editId = DbOk (Some (Db.calendar row)).
Proof.
  intros Hrow He Huniq. unfold Db.GetCalendarByEditId. f_equal.
  destruct (filter _ _) as [|row0 rest] eqn:Hf.
  - assert (Hin : row ∈ filter (λ row0, Db.edit_id row0 = editId)
                          (map_to_list (Db.calendars_table r)).*2).
    { apply list_elem_of_filter. split; [done|].
      apply list_elem_of_fmap. exists (id, row). split; [done|].
      by apply elem_of_map_to_list. }
    rewrite Hf in Hin. by apply elem_of_nil in Hin.
  - cbn. assert (Hin : row0 ∈ row0 :: rest) by (apply elem_of_cons; by left).
    rewrite <- Hf in Hin. apply list_elem_of_filter in Hin as [He0 Hin].
    apply list_elem_of_fmap in Hin as ([id0 row0'] & -> & Hin).
    apply elem_of_map_to_list in Hin. cbn in He0.
    pose proof (Huniq _ _ Hin He0) as ->. cbn. rewrite Hrow in Hin. by injection Hin as <-.
Qed.

End CalendarStore.
Section CalendarInvariant.
Import GoTime GoStrings Model Service Web.

(** In every reachable store a calendar row sits under its own id, has a
    configuration, and an empty e-mail address. *)
Lemma reachable_calendars (r : Db.Repo) :
  reachable r ->
  forall id row, Db.calendars_table r !! id = Some row ->
    CalId_ (Db.calendar row) = id
    /\ is_Some (Config (Db.calendar row))
    /\ CalEmail (Db.calendar row) = "".
Proof.
  induction 1 as [|r t _ IH|r tid reg _ IH|r t now _ IH
                  |r cid editId title config c u _ IH|r cal now _ IH
                  |r cid _ IH|r cid now _ IH]; intros id row.
  - cbn. by rewrite lookup_empty.
  - destruct (UpsertTournament_tables r t) as (_ & _ & -> & _). apply IH.
  - cbn. apply IH.
  - destruct (CreateTurnamentHistory_tables r t now) as (_ & _ & -> & _). apply IH.
  - unfold Db.CreateCalendar. destruct (Db.calendars_table r !! cid) eqn:Hc; [apply IH|].
    cbn. intros [[<- <-]|[_ H]]%lookup_insert_Some; [|by apply IH].
    cbn. by eauto.
  - destruct cal as [cal|]; [|apply IH]. cbn.
    intros H. apply lookup_alter_Some in H as [(_ & row0 & H0 & ->)|[_ H]]; [|by apply IH].
    destruct (IH _ _ H0) as (H1 & H2 & H3). cbn. by eauto.
  - cbn. intros [_ H]%lookup_delete_Some. by apply IH.
  - cbn. intros H. apply lookup_alter_Some in H as [(_ & row0 & H0 & ->)|[_ H]]; [|by apply IH].
    destruct (IH _ _ H0) as (H1 & H2 & H3). cbn. by eauto.
Qed.

End CalendarInvariant.
(* ===================================================================== *)
(** * Part III. The properties of the specification                       *)
(* ===================================================================== *)

Section ScheduleFeed.
Import GoTime GoStrings Ical Model Gto.

(** ** C4: end-date normalisation *)

(** Where local midnight exists, the program does what the specification
    asks.  For a schedule-feed tournament entry whose raw end [dtEnd] lies
    on wall-clock day [D] of its location, [parseTournament] stores as end
    date the midnight that starts day [D - 1] in that location: the
    calendar date is the date before the calendar date of [dtEnd], the
    time of day is 00:00:00.0, whatever the time of day of [dtEnd] and
    whatever clock changes lie in between, when local midnight exists in
    the location on day [D] and on day [D - 1]. *)
Theorem parseTournament_inclusive_end
    (event : VEvent) (tournament : Tournament) (dtStart dtEnd : Time) :
  GetStartAt event = Ok dtStart ->
  GetEndAt event = Ok dtEnd ->
  wallClockExists (loc dtEnd) (midnight (wallDay dtEnd)) ->
  wallClockExists (loc dtEnd) (midnight (wallDay dtEnd - 1)) ->
  exists t',
    parseTournament event tournament = Ok t'
    /\ abs (EndDate t') = midnight (wallDay dtEnd - 1)
    /\ (Year (EndDate t'), Month (EndDate t'), Day (EndDate t'))
         = prevCivil (Year dtEnd, Month dtEnd, Day dtEnd)
    /\ (Hour (EndDate t'), Minute (EndDate t'), Second (EndDate t'),
        nsec (EndDate t')) = (0, 0, 0, 0)
    /\ loc (EndDate t') = loc dtEnd.
Proof.
  intros Hs He H0 H1.
  unfold parseTournament. rewrite Hs, He. cbn [bind].
  eexists. split; [reflexivity|]. cbn [EndDate].
  destruct (inclusiveEnd_abs dtEnd H0 H1) as (Habs & Hns & Hloc).
  destruct (midnight_wallDay _ _ Habs) as (Hd & Hh & Hmi & Hsec).
  repeat split; try assumption.
  - unfold Year, Month, Day. rewrite Hd, daysToCivil_pred.
    destruct (daysToCivil (wallDay dtEnd)) as [[y m] d]. cbn [fst snd].
    by destruct (prevCivil (y, m, d)) as [[? ?] ?].
  - by rewrite Hh, Hmi, Hsec, Hns.
Qed.

(** In Europe/Berlin, and in every location with a fixed offset, local
    midnight always exists: there the end date is right for every raw
    end. *)
Lemma parseTournament_inclusive_end_Berlin
    (event : VEvent) (tournament : Tournament) (dtStart dtEnd : Time) :
  GetStartAt event = Ok dtStart ->
  GetEndAt event = Ok dtEnd ->
  loc dtEnd = Berlin \/ (exists name offset, loc dtEnd = FixedZone name offset) ->
  exists t',
    parseTournament event tournament = Ok t'
    /\ (Year (EndDate t'), Month (EndDate t'), Day (EndDate t'))
         = prevCivil (Year dtEnd, Month dtEnd, Day dtEnd)
    /\ (Hour (EndDate t'), Minute (EndDate t'), Second (EndDate t'),
        nsec (EndDate t')) = (0, 0, 0, 0).
Proof.
  intros Hs He Hloc.
  destruct (parseTournament_inclusive_end event tournament dtStart dtEnd Hs He)
    as (t' & Hp & _ & Hc & Hz & _).
  - destruct Hloc as [->|(name & offset & ->)];
      [apply wallClockExists_Berlin|apply wallClockExists_fixed].
  - destruct Hloc as [->|(name & offset & ->)];
      [apply wallClockExists_Berlin|apply wallClockExists_fixed].
  - eauto.
Qed.

(** The specification's example: an exclusive end of 2024-06-03T00:00
    (Europe/Berlin) gives the inclusive end date 2024-06-02. *)
Lemma parseTournament_inclusive_end_witness :
  let dtStart := Date 2024 6 1 0 0 0 0 Berlin in
  let dtEnd := Date 2024 6 3 0 0 0 0 Berlin in
  GetStartAt juneEntry = Ok dtStart
  /\ GetEndAt juneEntry = Ok dtEnd
  /\ wallClockExists (loc dtEnd) (midnight (wallDay dtEnd))
  /\ wallClockExists (loc dtEnd) (midnight (wallDay dtEnd - 1))
  /\ exists t',
       parseTournament juneEntry (newTournament 1 "") = Ok t'
       /\ abs (EndDate t') = midnight (wallDay dtEnd - 1)
       /\ (Year (EndDate t'), Month (EndDate t'), Day (EndDate t'))
            = prevCivil (Year dtEnd, Month dtEnd, Day dtEnd)
       /\ (Hour (EndDate t'), Minute (EndDate t'), Second (EndDate t'),
           nsec (EndDate t')) = (0, 0, 0, 0)
       /\ loc (EndDate t') = loc dtEnd.
Proof.
  intros dtStart dtEnd.
  split; [reflexivity|]. split; [reflexivity|].
  split; [reflexivity|]. split; [reflexivity|].
  apply (parseTournament_inclusive_end juneEntry (newTournament 1 "") dtStart dtEnd);
    reflexivity.
Defined.

(** The model of [time.Date] agrees with Go's test table on a wall clock
    that a clock change skipped: 2011-03-13 02:30 in Los Angeles is the
    instant 1300008600 (01:30 PST). *)
Lemma Date_skipped_wall_clock :
  unix (Date 2011 3 13 2 30 0 0 LosAngeles2011) = 1300008600
  /\ unix (Date 2011 3 13 1 59 59 0 LosAngeles2011) = 1300010399
  /\ unix (Date 2011 3 13 3 0 0 0 LosAngeles2011) = 1300010400.
Proof. vm_compute. repeat split. Qed.

(** Concrete readings in Europe/Berlin: the specification's example;
    an end with a time of day; a range that contains the start of summer
    time (2024-03-31); ends on the first day of a month and of a year. *)
Lemma inclusiveEnd_examples :
  let civil t := (Year t, Month t, Day t, Hour t, Minute t) in
  civil (inclusiveEnd (Date 2024 6 3 0 0 0 0 Berlin)) = (2024, 6, 2, 0, 0)
  /\ civil (inclusiveEnd (Date 2024 6 3 13 45 0 0 Berlin)) = (2024, 6, 2, 0, 0)
  /\ civil (inclusiveEnd (Date 2024 4 1 0 0 0 0 Berlin)) = (2024, 3, 31, 0, 0)
  /\ civil (inclusiveEnd (Date 2024 3 31 23 0 0 0 Berlin)) = (2024, 3, 30, 0, 0)
  /\ civil (inclusiveEnd (Date 2024 3 1 0 0 0 0 Berlin)) = (2024, 2, 29, 0, 0)
  /\ civil (inclusiveEnd (Date 2024 1 1 0 0 0 0 UTC)) = (2023, 12, 31, 0, 0).
Proof. vm_compute. repeat split. Qed.

(** The end date is not always the day before: in a location whose
    clocks skip local midnight it is not.  In America/Havana the clocks
    went from 00:00 to 01:00 on 2024-03-10; for a raw end at noon of that
    day the computed end date does not lie on the day before. *)
Lemma parseTournament_inclusive_end_counterexample :
  ~ (forall (event : VEvent) (tournament : Tournament) (dtEnd : Time) t',
       GetEndAt event = Ok dtEnd ->
       parseTournament event tournament = Ok t' ->
       wallDay (EndDate t') = wallDay dtEnd - 1).
Proof.
  intros H.
  specialize (H (feedEntry "tournament-1@turniere.discgolf.de"
                           (Date 2024 3 9 12 0 0 0 Havana2024)
                           (Date 2024 3 10 12 0 0 0 Havana2024))
                (newTournament 1 "")
                (Date 2024 3 10 12 0 0 0 Havana2024) _ eq_refl eq_refl).
  vm_compute in H. discriminate H.
Qed.

(** C4 fails on the program.  [parseTournament] builds the end date as
    [time.Date(y, m, d, 0, 0, 0, 0, loc).AddDate(0, 0, -1)], and
    [time.Date] moves a wall clock that does not exist.  In America/Havana
    the clocks went from 00:00 to 01:00 on 2024-03-10, so that day has no
    midnight; for an entry whose raw end is noon of that day the stored
    end date is 2024-03-08 23:00, two days before the date of the raw end
    and not a midnight.  The specification, and the comment in the code
    (an inclusive end date that ignores clock changes), ask for
    2024-03-09 00:00. *)
Theorem parseTournament_skipped_midnight :
  let civil t := (Year t, Month t, Day t, Hour t, Minute t) in
  let dtEnd := Date 2024 3 10 12 0 0 0 Havana2024 in
  GetEndAt havanaEntry = Ok dtEnd
  /\ civil dtEnd = (2024, 3, 10, 12, 0)
  /\ ~ wallClockExists Havana2024 (midnight (wallDay dtEnd))
  /\ match parseTournament havanaEntry (newTournament 1 "") with
     | Ok t' =>
         civil (EndDate t') = (2024, 3, 8, 23, 0)
         /\ wallDay (EndDate t') = wallDay dtEnd - 2
     | _ => False
     end.
Proof.
  cbv zeta. split; [reflexivity|]. split; [vm_compute; reflexivity|].
  split; [vm_compute; discriminate|].
  vm_compute. split; reflexivity.
Qed.

End ScheduleFeed.

Section DateRange.
Import GoTime GoStrings Model Gto.

(** ** C5: the shared date-range parser *)




(** The civil readings of the parsed examples. *)
Lemma parseDateRange_examples_civil :
  let civil t := (Year t, Month t, Day t, Hour t, Minute t) in
  civil (Date 2024 1 1 0 0 0 0 Berlin) = (2024, 1, 1, 0, 0)
  /\ civil (Date 2024 1 1 10 0 0 0 Berlin) = (2024, 1, 1, 10, 0)
  /\ civil (Date 2024 1 2 12 0 0 0 Berlin) = (2024, 1, 2, 12, 0).
Proof. vm_compute. repeat split. Qed.


End DateRange.

Section FeedIdentifiers.
Import GoTime GoStrings Ical Model Gto.

(** ** C8: identifiers that do not follow the pattern *)

(** C8 fails on the program: [typeAndId] indexes [parts[1]] (and
    [parts[2]] for a registration) without checking how many parts the
    identifier has.  An identifier with the right domain suffix and no
    hyphen, and a "registration-" identifier without a third segment,
    abort with an index-out-of-range panic instead of returning an error;
    the panic goes through [parseIcsEvents].  Identifiers with a wrong
    suffix or a non-numeric id do come back as errors. *)
Theorem typeAndId_short_identifier_panics :
  typeAndId "123@turniere.discgolf.de" = Panic "index out of range [1]"
  /\ typeAndId "registration-5@turniere.discgolf.de" = Panic "index out of range [2]"
  /\ parseIcsEvents [feedEntry "123@turniere.discgolf.de" zeroTime zeroTime]
       = Panic "index out of range [1]"
  /\ parseIcsEvents [feedEntry "registration-5@turniere.discgolf.de" zeroTime zeroTime]
       = Panic "index out of range [2]"
  /\ typeAndId "tournament-12@example.org" = Err (OtherError "Unknown uid fromat")
  /\ typeAndId "tournament-x@turniere.discgolf.de" = Err (OtherError "Id is not an int")
  /\ typeAndId "tournament-12@turniere.discgolf.de" = Ok (EVENT_TYPE_TURNAMENT, 12)
  /\ typeAndId "registration-3-12@turniere.discgolf.de" = Ok (EVENT_TYPE_REGISTRATION, 12).
Proof. vm_compute. repeat split. Qed.

End FeedIdentifiers.

Section MergedFetch.
Import GoTime GoStrings Ical Model Gto.

(** ** C10: the merged remote fetch *)



(** On the small example the merged fetch returns tournaments 1 and 2. *)
Lemma FetchTournaments_example :
  match FetchTournaments (Ok listing0) map_to_list (Ok feed0) with
  | Ok result =>
      (Status <$> result !! 1, Status <$> result !! 2,
       Status <$> result !! 3, Status <$> result !! 4)
  | _ => (None, None, None, None)
  end = (Some "ANNOUNCED", Some "CANCELLED", None, None).
Proof. vm_compute. reflexivity. Qed.

End MergedFetch.

Section FeedGenerator.
Import GoTime Model Service Web.
Context {R : Type} `{!CalendarRepo R}.

Lemma resolved_pointer_known (s : TournamentService R) (visit : list (Z * nat))
    (config : SubscriptionConfig) (a : nat) :
  visit ≡ₚ map_to_list (tournaments s) ->
  Some a ∈ resolveTournaments s visit config <->
    exists k, tournaments s !! k = Some a
              /\ (selects s (λ t, existsb (λ se, bool_decide (se ∈ CfgSeries config))
                                          (Series t)) (k, a) = true
                  \/ k ∈ CfgTournaments config).
Proof.
  intros Hperm. unfold resolveTournaments. rewrite resolve_explicit_elem.
  unfold GetTournamentsForSeries. rewrite getTournaments_filter. split.
  - intros [Hin|(tid & Htid & Hget)].
    + apply list_elem_of_fmap in Hin as ([k a'] & [= ->] & Hin).
      apply list_elem_of_filter in Hin as [Hsel Hin].
      rewrite Hperm in Hin. apply elem_of_map_to_list in Hin. eauto.
    + exists tid. split; [done|]. by right.
  - intros (k & Hk & [Hsel|Hex]).
    + left. apply list_elem_of_fmap. exists (k, a). split; [done|].
      apply list_elem_of_filter. split; [done|].
      rewrite Hperm. by apply elem_of_map_to_list.
    + right. eauto.
Qed.

(** ** C6: subscriber resolution *)

(** C6.  On a well-formed tournament map, and for every order in which
    the map is visited, the resolved slice has no entry twice; the
    tournaments for which events are emitted are exactly the known
    tournaments whose series meets the subscribed series or whose id is
    listed explicitly; no two of them share an id; and an export with
    explicit ids that denote no known tournament still succeeds, its
    events being those of the emitted tournaments only. *)
Theorem resolveTournaments_union (s : TournamentService R)
    (visit : list (Z * nat)) (config : SubscriptionConfig) :
  wfService s ->
  visit ≡ₚ map_to_list (tournaments s) ->
  NoDup (resolveTournaments s visit config)
  /\ (forall t,
        t ∈ emitted s (resolveTournaments s visit config) <->
        exists a, tournaments s !! Id t = Some a /\ heap s !! a = Some t
                  /\ (seriesMatch t (CfgSeries config)
                      \/ Id t ∈ CfgTournaments config))
  /\ NoDup (Id <$> emitted s (resolveTournaments s visit config))
  /\ (forall tid, tid ∈ CfgTournaments config -> tournaments s !! tid = None ->
        forall t, t ∈ emitted s (resolveTournaments s visit config) -> Id t <> tid)
  /\ (forall now id calendar updateCount,
        GetCalendarById (repo s) id = DbOk (Some calendar) ->
        Config calendar = Some config ->
        GetCalendarUpdateCount (repo s) = DbOk updateCount ->
        exists s' cal,
          CreateIcs s visit now id = (s', Ok cal)
          /\ Events cal = flat_map (eventsOf updateCount)
                            (emitted s (resolveTournaments s visit config))).
Proof.
  intros Hwf Hperm.
  assert (Hmem : forall t,
            t ∈ emitted s (resolveTournaments s visit config) <->
            exists a, tournaments s !! Id t = Some a /\ heap s !! a = Some t
                      /\ (seriesMatch t (CfgSeries config)
                          \/ Id t ∈ CfgTournaments config)).
  { intros t. unfold emitted. rewrite list_elem_of_omap. split.
    - intros ([a|] & Hin & Hderef); [|done]. cbn in Hderef.
      apply resolved_pointer_known in Hin as (k & Hk & Hor); [|done].
      destruct Hwf as [Hobj _]. destruct (Hobj k a Hk) as (t' & Ht' & Hid).
      assert (t' = t) by congruence. subst t'. subst k.
      exists a. split; [done|]. split; [done|].
      destruct Hor as [Hsel|Hex]; [left|by right].
      unfold selects in Hsel. cbn in Hsel. rewrite Ht' in Hsel.
      by apply seriesMatch_existsb.
    - intros (a & Hk & Hh & Hor). exists (Some a). split; [|done].
      apply resolved_pointer_known; [done|]. exists (Id t). split; [done|].
      destruct Hor as [Hsel|Hex]; [left|by right].
      unfold selects. cbn. rewrite Hh. by apply seriesMatch_existsb. }
  assert (Hnd : NoDup (resolveTournaments s visit config)).
  { apply resolve_explicit_NoDup. by apply series_pointers_NoDup. }
  split; [done|]. split; [done|]. split; [|split].
  - unfold emitted. apply NoDup_omap_key; [done|].
    intros [a1|] [a2|] t1 t2 Hin1 Hin2 Hd1 Hd2 Hid; try done.
    cbn in Hd1, Hd2.
    apply resolved_pointer_known in Hin1 as (k1 & Hk1 & _); [|done].
    apply resolved_pointer_known in Hin2 as (k2 & Hk2 & _); [|done].
    destruct Hwf as [Hobj _].
    destruct (Hobj k1 a1 Hk1) as (t1' & Ht1 & <-).
    destruct (Hobj k2 a2 Hk2) as (t2' & Ht2 & <-).
    assert (t1' = t1) by congruence. assert (t2' = t2) by congruence.
    subst. rewrite Hid in Hk1. congruence.
  - intros tid _ Hnone t Ht Heq. apply Hmem in Ht as (a & Hk & _).
    rewrite Heq in Hk. congruence.
  - intros now id calendar updateCount Hcal Hcfg Hcount.
    unfold CreateIcs, GetCalendar, GetUpdateCount, CalendarId. cbn [cal_t cal_id].
    change (0 =? 1) with false. cbn iota. rewrite Hcal, Hcount, Hcfg.
    eexists _, _. split; [reflexivity|]. cbn [Events].
    apply exportEvents_emitted.
Qed.

(** ** C7: unknown subscriber *)

(** C7.  For every implementation of the calendar repository: when the
    id resolves to no stored calendar, [CreateIcs] fails with
    [NotFoundError], nothing is exported and nothing is recorded, and
    [IcsHandler] answers 404 "Not found"; when the id resolves, the
    outcome of [CreateIcs] is never [NotFoundError] and the handler never
    answers 404; a failing lookup gives a generic error and a 500. *)
Theorem CreateIcs_not_found (s : TournamentService R)
    (visit : list (Z * nat)) (now : Time) (id : string) :
  (GetCalendarById (repo s) id = DbOk None ->
     CreateIcs s visit now id = (s, Err NotFoundError)
     /\ IcsHandler s visit now id
        = (s, Ok {| StatusCode := StatusNotFound; Body := Text "Not found" |}))
  /\ (forall calendar,
        GetCalendarById (repo s) id = DbOk (Some calendar) ->
        (CreateIcs s visit now id).2 <> Err NotFoundError
        /\ forall response,
             (IcsHandler s visit now id).2 = Ok response ->
             StatusCode response <> StatusNotFound)
  /\ (forall m,
        GetCalendarById (repo s) id = DbErr m ->
        CreateIcs s visit now id = (s, Err (OtherError m))
        /\ IcsHandler s visit now id
           = (s, Ok {| StatusCode := StatusInternalServerError; Body := Text m |})).
Proof.
  unfold IcsHandler, CreateIcs, GetCalendar, GetUpdateCount, CalendarId.
  cbn [cal_t cal_id]. change (0 =? 1) with false. cbn iota.
  split; [|split].
  - intros ->. done.
  - intros calendar ->.
    destruct (GetCalendarUpdateCount (repo s)) as [updateCount|m]; cbn.
    + destruct (Config calendar); cbn; (split; [done|]); intros response [= <-]; done.
    + split; [done|]. intros response [= <-]. done.
  - intros m ->. done.
Qed.

End FeedGenerator.

Section FeedGeneratorOnSqlite.
Import GoTime Model Service Web.

Lemma sampleService_wf : wfService sampleService.
Proof.
  assert (Hk : forall k a, tournaments sampleService !! k = Some a ->
                 (k = 7 /\ a = 0%nat) \/ (k = 9 /\ a = 1%nat)).
  { intros k a H. cbn in H.
    apply lookup_insert_Some in H as [[<- <-]|[_ H]]; [by left|].
    apply lookup_insert_Some in H as [[<- <-]|[_ H]]; [by right|].
    by rewrite lookup_empty in H. }
  split.
  - intros k a H. destruct (Hk k a H) as [[-> ->]|[-> ->]]; vm_compute; eauto.
  - intros k1 k2 a H1 H2.
    destruct (Hk k1 a H1) as [[-> ->]|[-> ->]];
      destruct (Hk k2 _ H2) as [[-> ?]|[-> ?]]; done.
Qed.

Lemma resolveTournaments_union_witness :
  wfService sampleService
  /\ map_to_list (tournaments sampleService) ≡ₚ map_to_list (tournaments sampleService)
  /\ NoDup (Id <$> emitted sampleService
              (resolveTournaments sampleService
                 (map_to_list (tournaments sampleService)) sampleConfig)).
Proof.
  split; [exact sampleService_wf|]. split; [reflexivity|].
  exact (proj1 (proj2 (proj2
           (resolveTournaments_union sampleService
              (map_to_list (tournaments sampleService)) sampleConfig
              sampleService_wf (reflexivity _))))).
Defined.

(** The specification's example: explicit id 7 (series "B") and series
    "A" (tournament 9) resolve to tournaments 7 and 9; the unknown id 42
    leaves a nil entry that emits nothing; listing 7 a second time, or 7
    also belonging to "A", adds nothing. *)
Lemma resolveTournaments_example :
  let visit := map_to_list (tournaments sampleService) in
  Id <$> emitted sampleService (resolveTournaments sampleService visit sampleConfig)
    = [9; 7]
  /\ resolveTournaments sampleService visit sampleConfig = [Some 1%nat; Some 0%nat; None]
  /\ resolveTournaments sampleService visit
       {| CfgTournaments := [7; 42; 7; 9; 42]; CfgSeries := ["A"; "B"] |}
     = [Some 0%nat; Some 1%nat; None].
Proof. vm_compute. repeat split. Qed.

Lemma CreateIcs_not_found_witness :
  GetCalendarById (repo sampleService) "nope" = DbOk None
  /\ CreateIcs sampleService [] sampleNow "nope" = (sampleService, Err NotFoundError)
  /\ IcsHandler sampleService [] sampleNow "nope"
     = (sampleService, Ok {| StatusCode := StatusNotFound; Body := Text "Not found" |}).
Proof.
  split; [reflexivity|].
  apply (proj1 (CreateIcs_not_found sampleService [] sampleNow "nope")).
  reflexivity.
Defined.

(** ** C1: revision numbers *)

(** C1.  With the SQLite repository: in every generated feed, every
    event was emitted for a resolved tournament and carries as sequence
    number the count of history snapshots stored for that tournament's id
    at that moment; each resolved tournament has its own event with that
    number, and each of its registration phases has an event with the
    same number. *)
Theorem CreateIcs_sequence (s s' : TournamentService Db.Repo)
    (visit : list (Z * nat)) (now : Time) (id : string) (cal : IcsCalendar) :
  CreateIcs s visit now id = (s', Ok cal) ->
  exists calendar config,
    GetCalendarById (repo s) id = DbOk (Some calendar)
    /\ Config calendar = Some config
    /\ (forall e, e ∈ Events cal ->
          exists t, t ∈ emitted s (resolveTournaments s visit config)
                    /\ eventOfTournament e t
                    /\ Sequence e = historyCount (repo s) (Id t))
    /\ (forall t, t ∈ emitted s (resolveTournaments s visit config) ->
          (exists e, e ∈ Events cal /\ UID e = tournamentUID (Id t)
                     /\ Sequence e = historyCount (repo s) (Id t))
          /\ (forall i reg, Registrations t !! i = Some reg ->
                exists e, e ∈ Events cal /\ UID e = registrationUID (Id t) i
                          /\ Sequence e = historyCount (repo s) (Id t))).
Proof.
  destruct (countOf_historyCount (repo s)) as (updateCount & Hcount & Hc).
  unfold CreateIcs, GetCalendar, GetUpdateCount, CalendarId. cbn [cal_t cal_id].
  change (0 =? 1) with false. cbn iota.
  destruct (GetCalendarById (repo s) id) as [[calendar|]|m] eqn:Hcal; [|done..].
  change (GetCalendarUpdateCount (repo s)) with (Db.GetCalendarUpdateCount (repo s)).
  rewrite Hcount.
  destruct (Config calendar) as [config|] eqn:Hcfg; [|done].
  intros [= <- <-]. exists calendar, config. split; [done|]. split; [done|].
  cbn [Events]. rewrite exportEvents_emitted. split.
  - intros e He. apply list_elem_of_In, in_flat_map in He as (t & Ht & He).
    apply list_elem_of_In in Ht, He.
    apply eventsOf_sequence in He as [Hseq Hev].
    exists t. split; [done|]. split; [done|]. by rewrite Hseq, Hc.
  - intros t Ht. split.
    + exists (tournamentEvent updateCount t). split; [|split; [done|apply Hc]].
      apply list_elem_of_In, in_flat_map. exists t. split; [by apply list_elem_of_In|].
      apply list_elem_of_In. unfold eventsOf. apply elem_of_cons. by left.
    + intros i reg Hreg. exists (registrationEvent updateCount t i reg).
      split; [|split; [done|apply Hc]].
      apply list_elem_of_In, in_flat_map. exists t. split; [by apply list_elem_of_In|].
      apply list_elem_of_In. unfold eventsOf. apply elem_of_cons. right.
      by apply elem_of_lookup_imap_2.
Qed.

Lemma CreateIcs_sequence_witness :
  CreateIcs sampleService (map_to_list (tournaments sampleService)) sampleNow "cal1"
    = (sampleExported.1, Ok sampleExport)
  /\ forall e, e ∈ Events sampleExport ->
       exists t, t ∈ emitted sampleService
                       (resolveTournaments sampleService
                          (map_to_list (tournaments sampleService)) sampleConfig)
                 /\ eventOfTournament e t
                 /\ Sequence e = historyCount (repo sampleService) (Id t).
Proof.
  assert (H : CreateIcs sampleService (map_to_list (tournaments sampleService))
                sampleNow "cal1" = (sampleExported.1, Ok sampleExport)).
  { vm_compute. reflexivity. }
  split; [exact H|].
  destruct (CreateIcs_sequence _ _ _ _ _ _ H) as (calendar & config & Hcal & Hcfg & He & _).
  assert (config = sampleConfig) as ->.
  { assert (Hsample : GetCalendarById (repo sampleService) "cal1"
                       = DbOk (Some sampleCalendar)) by reflexivity.
    rewrite Hsample in Hcal. injection Hcal as <-.
    change (Config sampleCalendar) with (Some sampleConfig) in Hcfg.
    by injection Hcfg as <-. }
  exact He.
Defined.

(** The export of the sample state: identifiers and sequence numbers. *)
Lemma CreateIcs_example :
  match CreateIcs sampleService (map_to_list (tournaments sampleService))
                  sampleNow "cal1" with
  | (_, Ok cal) => (λ e, (UID e, Sequence e)) <$> Events cal
  | _ => []
  end
  = [("tournament-9@dg-cal", 1);
     ("tournament-7@dg-cal", 2);
     ("registration-7-0@dg-cal", 2);
     ("registration-7-1@dg-cal", 2)].
Proof. vm_compute. reflexivity. Qed.

End FeedGeneratorOnSqlite.

Section Reconciler.
Import GoTime Model Service.

Lemma stored_ext {R : Type} (s s' : TournamentService R) (id : Z) :
  tournaments s' = tournaments s -> heap s' = heap s -> stored s' id = stored s id.
Proof. unfold stored, deref, GetTournament. by intros -> ->. Qed.

Lemma Sync_cases (gto : GtoService) (clock : nat -> Time)
    (s s' : TournamentService Db.Repo) (o : outcome unit) :
  Sync gto clock s = (s', o) ->
  (exists fetched s1,
     FetchTournaments gto = Ok fetched
     /\ syncFrom gto clock 0 fetched s = (s1, o)
     /\ tournaments s' = tournaments s1 /\ heap s' = heap s1 /\ repo s' = repo s1
     /\ (o = Ok tt -> lastSync s' = Some (clock (length fetched))))
  \/ ((forall fetched, FetchTournaments gto <> Ok fetched) /\ s' = s /\ o <> Ok tt).
Proof.
  unfold Sync. destruct (FetchTournaments gto) as [fetched|e|m] eqn:Hf.
  - destruct (syncFrom gto clock 0 fetched s) as [s1 o1] eqn:Hs.
    destruct o1 as [[]|e|m]; intros [= <- <-]; left; exists fetched, s1; done.
  - intros [= <- <-]. right. done.
  - intros [= <- <-]. right. done.
Qed.

(** ** C2: only newer records are applied *)

(** C2.  For every sync cycle on the SQLite repository, whatever its
    outcome: (1) for an id whose stored record is not older than any
    fetched record of that id, nothing is applied: the record in memory,
    the pointer to it, the tournament row, the registration rows and the
    history rows of that id are what they were; (2) the [updatedAt] of
    the record stored for an id never decreases; (3) after a cycle that
    returned normally, a second cycle that fetches the same records
    changes nothing but the time of the last sync: no store write, no
    snapshot, no change in memory. *)
Theorem Sync_applies_only_newer (gto : GtoService) (clock : nat -> Time)
    (s s' : TournamentService Db.Repo) (o : outcome unit) :
  Sync gto clock s = (s', o) ->
  (forall id st,
     stored s id = Some st ->
     (forall fetched f, FetchTournaments gto = Ok fetched -> f ∈ fetched -> Id f = id ->
        Before (UpdatedAt st) (UpdatedAt f) = false) ->
     stored s' id = Some st
     /\ GetTournament s' id = GetTournament s id
     /\ storeRows (repo s') id = storeRows (repo s) id)
  /\ (forall id st,
        stored s id = Some st ->
        exists st', stored s' id = Some st'
                    /\ Before (UpdatedAt st') (UpdatedAt st) = false)
  /\ (o = Ok tt ->
      forall gto' clock',
        FetchTournaments gto' = FetchTournaments gto ->
        exists now,
          Sync gto' clock' s'
            = ({| tournaments := tournaments s'; heap := heap s';
                  repo := repo s'; lastSync := Some now |}, Ok tt)).
Proof.
  intros HS. apply Sync_cases in HS
    as [(fetched & s1 & Hf & Hs & Ht & Hh & Hr & _)|(Hf & -> & Ho)].
  - split; [|split].
    + intros id st Hst Hall.
      destruct (syncFrom_frame gto clock fetched id st (fun f0 => Hall fetched f0 Hf)
                  _ _ _ _ Hs Hst)
        as (A1 & A2 & A3).
      rewrite (stored_ext s1 s') by done. unfold GetTournament in *.
      rewrite Ht, Hr. done.
    + intros id st Hst. rewrite (stored_ext s1 s') by done.
      by eapply syncFrom_monotone.
    + intros -> gto' clock' Hf'. exists (clock' (length fetched)).
      unfold Sync. rewrite Hf', Hf.
      assert (Hun : forall i, syncFrom gto' clock' i fetched s' = (s', Ok tt)).
      { apply syncFrom_unchanged. intros f Hin.
        rewrite (stored_ext s1 s') by done. by eapply syncFrom_caught_up. }
      by rewrite Hun.
  - split; [|split].
    + done.
    + intros id st Hst. exists st. split; [done|apply Before_irrefl].
    + done.
Qed.

Lemma Sync_applies_only_newer_witness :
  Sync gtoNoon clockNoon afterMorning = (afterNoon, Ok tt)
  /\ (forall id st,
        stored afterMorning id = Some st ->
        exists st', stored afterNoon id = Some st'
                    /\ Before (UpdatedAt st') (UpdatedAt st) = false)
  /\ exists now,
       Sync gtoNoon clockMorning afterNoon
         = ({| tournaments := tournaments afterNoon; heap := heap afterNoon;
               repo := repo afterNoon; lastSync := Some now |}, Ok tt).
Proof.
  assert (H : Sync gtoNoon clockNoon afterMorning = (afterNoon, Ok tt)).
  { vm_compute. reflexivity. }
  split; [exact H|].
  destruct (Sync_applies_only_newer gtoNoon clockNoon afterMorning afterNoon (Ok tt) H)
    as (_ & Hmono & Hidem).
  split; [exact Hmono|].
  exact (Hidem eq_refl gtoNoon clockMorning eq_refl).
Defined.

(** ** C3: history snapshots *)

(** C3, as the program has it.  The store refuses a second history row
    with the same tournament id and the same capture instant, so rows
    stay unique per (tournament id, capture instant); a cycle that
    returns normally and visits every id once appends, for each fetched
    tournament that was newer than the stored record, exactly one row,
    stamped with the clock reading of its round and the fetched
    [updatedAt], and no row for the others; ids that were not fetched
    keep their rows.  The calendar day plays no part. *)
Theorem Sync_history_snapshots (gto : GtoService) (clock : nat -> Time)
    (s s' : TournamentService Db.Repo) (o : outcome unit) :
  Sync gto clock s = (s', o) ->
  (historyUnique (repo s) -> historyUnique (repo s'))
  /\ (o = Ok tt -> noDangling s ->
      forall fetched, FetchTournaments gto = Ok fetched -> NoDup (Id <$> fetched) ->
      forall j f, fetched !! j = Some f ->
        if changed (stored s (Id f)) f
        then exists row,
               (storeRows (repo s') (Id f)).2
                 = ((storeRows (repo s) (Id f)).2 ++ [row])%list
               /\ Db.tournament_id row = Id f
               /\ Db.date row = clock j
               /\ Db.history_updated_at row = UpdatedAt f
        else (storeRows (repo s') (Id f)).2 = (storeRows (repo s) (Id f)).2)
  /\ (forall id,
        (forall fetched, FetchTournaments gto = Ok fetched -> id ∉ Id <$> fetched) ->
        (storeRows (repo s') id).2 = (storeRows (repo s) id).2).
Proof.
  intros HS. apply Sync_cases in HS
    as [(fetched & s1 & Hf & Hs & Ht & Hh & Hr & _)|(Hf & -> & Ho)].
  - split; [|split].
    + rewrite Hr. by eapply syncFrom_historyUnique.
    + intros -> Hdang fetched' Hf' Hnd j f Hj. rewrite Hf in Hf'. injection Hf' as <-.
      rewrite Hr.
      exact (syncFrom_history gto clock fetched Hnd 0%nat s s1 Hdang Hs j f Hj).
    + intros id Hnotin. rewrite Hr.
      by rewrite (syncFrom_other_rows gto clock fetched id (Hnotin fetched Hf) _ _ _ _ Hs).
  - split; [done|]. split; [|done].
    intros ->. done.
Qed.

Lemma afterMorning_historyUnique : historyUnique (repo afterMorning).
Proof. unfold historyUnique. vm_compute. apply NoDup_singleton. Qed.

Lemma Sync_history_snapshots_witness :
  Sync gtoNoon clockNoon afterMorning = (afterNoon, Ok tt)
  /\ historyUnique (repo afterMorning)
  /\ historyUnique (repo afterNoon).
Proof.
  assert (H : Sync gtoNoon clockNoon afterMorning = (afterNoon, Ok tt)).
  { vm_compute. reflexivity. }
  split; [exact H|]. split; [exact afterMorning_historyUnique|].
  exact (proj1 (Sync_history_snapshots gtoNoon clockNoon afterMorning afterNoon (Ok tt) H)
               afterMorning_historyUnique).
Defined.

(** C3 as stated does not hold: a tournament that changes twice on
    2024-05-02 (cycles at 08:00 and at 12:00) ends with two snapshots
    for that day. *)
Lemma Sync_one_snapshot_per_day_counterexample :
  ~ (forall gto clock (s s' : TournamentService Db.Repo) o,
       onePerDay (repo s) -> Sync gto clock s = (s', o) -> onePerDay (repo s')).
Proof.
  intros H.
  assert (H0 : onePerDay (repo afterMorning)).
  { unfold onePerDay. vm_compute. apply NoDup_singleton. }
  assert (H1 : Sync gtoNoon clockNoon afterMorning = (afterNoon, Ok tt)).
  { vm_compute. reflexivity. }
  specialize (H _ _ _ _ _ H0 H1). unfold onePerDay in H.
  assert (Hk : historyDayKey <$> Db.tournament_history_table (repo afterNoon)
               = [(1, 19845); (1, 19845)]).
  { vm_compute. reflexivity. }
  rewrite Hk in H. apply NoDup_cons in H as [Hn _]. apply Hn.
  apply elem_of_cons. by left.
Qed.

(** ** C9: registration phases *)

(** C9, as the program has it.  After a round that stores a changed
    tournament fetched without registrations: the record in memory
    carries exactly the freshly parsed phases, in order; every fresh
    phase name has a row under (tournament id, name), and when the fresh
    names are distinct the row carries the fresh phase itself; rows keep
    their keys and positions, new keys are appended; keys stay unique;
    a row of the table is an old row or a fresh phase of this
    tournament; and every old row of another tournament, or of this
    tournament under a name that is not among the fresh ones, is still
    there. *)
Theorem syncRound_registrations (gto : GtoService) (now : Time) (f : Tournament)
    (s s' : TournamentService Db.Repo) (o : outcome unit) (details : EventDetails) :
  syncRound gto now f s = (s', o) ->
  changed (stored s (Id f)) f = true ->
  FetchEventDetails gto (Id f) = Ok details ->
  Registrations f = [] ->
  (exists t', stored s' (Id f) = Some t'
              /\ Registrations t' = registrationOf <$> RegistrationPhases details)
  /\ (forall p, p ∈ RegistrationPhases details ->
        (Id f, Name p) ∈ registrationKey <$> Db.registrations_table (repo s'))
  /\ (NoDup (Name <$> RegistrationPhases details) ->
      forall p, p ∈ RegistrationPhases details ->
        (Id f, registrationOf p) ∈ Db.registrations_table (repo s'))
  /\ (registrationKey <$> Db.registrations_table (repo s))
       `prefix_of` (registrationKey <$> Db.registrations_table (repo s'))
  /\ (registrationsUnique (repo s) -> registrationsUnique (repo s'))
  /\ (forall row, row ∈ Db.registrations_table (repo s') ->
        row ∈ Db.registrations_table (repo s)
        \/ (row.1 = Id f /\ exists p, p ∈ RegistrationPhases details
                                      /\ row.2 = registrationOf p))
  /\ (forall row, row ∈ Db.registrations_table (repo s) ->
        (row.1 <> Id f \/ RegTitle row.2 ∉ Name <$> RegistrationPhases details) ->
        row ∈ Db.registrations_table (repo s')).
Proof.
  intros Hr Hch Hd Hnil.
  destruct (syncRound_tables _ _ _ _ _ _ _ Hr Hch Hd)
    as (t' & _ & _ & Hregs & Hst & _ & Htab & _).
  rewrite Hnil in Hregs, Htab. cbn [app] in Hregs, Htab.
  assert (Hnames : RegTitle <$> (registrationOf <$> RegistrationPhases details)
                   = Name <$> RegistrationPhases details).
  { rewrite <- list_fmap_compose. done. }
  split; [eauto|]. rewrite Htab.
  split; [|split; [|split; [|split; [|split]]]].
  - intros p Hp.
    apply (upsertAll_names _ (Id f) _ (registrationOf p)).
    apply list_elem_of_fmap. eauto.
  - intros Hnd p Hp. apply upsertAll_stores.
    + by rewrite Hnames.
    + apply list_elem_of_fmap. eauto.
  - apply upsertAll_keys_prefix.
  - unfold registrationsUnique. rewrite Htab. apply upsertAll_unique.
  - intros row Hrow. apply upsertAll_elem in Hrow as [H|[H1 H2]]; [by left|].
    right. split; [done|]. apply list_elem_of_fmap in H2 as (p & -> & Hp). eauto.
  - intros row Hrow Hor. apply upsertAll_keeps; [done|]. by rewrite Hnames.
Qed.

Lemma syncRound_registrations_witness :
  let details := detailsSample 1 [phaseSample "Phase B" 8] in
  syncRound gtoNoon (clockNoon 0%nat) fetchedNoon afterMorning = (afterNoonRound, Ok tt)
  /\ changed (stored afterMorning (Id fetchedNoon)) fetchedNoon = true
  /\ FetchEventDetails gtoNoon (Id fetchedNoon) = Ok details
  /\ Registrations fetchedNoon = []
  /\ exists t', stored afterNoonRound (Id fetchedNoon) = Some t'
                /\ Registrations t' = registrationOf <$> RegistrationPhases details.
Proof.
  intros details.
  assert (H : syncRound gtoNoon (clockNoon 0%nat) fetchedNoon afterMorning
              = (afterNoonRound, Ok tt)).
  { vm_compute. reflexivity. }
  split; [exact H|]. split; [vm_compute; reflexivity|].
  split; [reflexivity|]. split; [reflexivity|].
  exact (proj1 (syncRound_registrations gtoNoon (clockNoon 0%nat) fetchedNoon
                  afterMorning afterNoonRound (Ok tt) details H eq_refl eq_refl eq_refl)).
Defined.

(** C9 as stated does not hold for the store: "Phase A", stored in the
    morning and absent from the parse at noon, is still a registration
    row of tournament 1 after the noon round, next to "Phase B". *)
Lemma syncRound_registrations_counterexample :
  ~ (forall gto now f (s s' : TournamentService Db.Repo) details,
       syncRound gto now f s = (s', Ok tt) ->
       changed (stored s (Id f)) f = true ->
       FetchEventDetails gto (Id f) = Ok details ->
       Registrations f = [] ->
       Db.getRegistrations (repo s') (Id f)
         = registrationOf <$> RegistrationPhases details).
Proof.
  intros H.
  assert (H1 : syncRound gtoNoon (clockNoon 0%nat) fetchedNoon afterMorning
               = (afterNoonRound, Ok tt)).
  { vm_compute. reflexivity. }
  specialize (H _ _ _ _ _ (detailsSample 1 [phaseSample "Phase B" 8])
                H1 eq_refl eq_refl eq_refl).
  apply (f_equal length) in H. vm_compute in H. discriminate H.
Qed.

(** The two registration rows of tournament 1 after the noon round, and
    the registrations of the record in memory. *)
Lemma syncRound_registrations_example :
  RegTitle <$> Db.getRegistrations (repo afterNoon) 1 = ["Phase A"; "Phase B"]
  /\ (λ t, RegTitle <$> Registrations t) <$> stored afterNoon 1 = Some ["Phase B"].
Proof. vm_compute. split; reflexivity. Qed.

End Reconciler.

(* ===================================================================== *)
(** * Part IV. Further properties of the code                             *)
(* ===================================================================== *)

Section AccessCodes.
Import GoStrings Service Web.

Lemma formatAccessCode_ReplaceAll (code : string) :
  ReplaceAll (formatAccessCode code) "-" "" = ReplaceAll code "-" "".
Proof.
  unfold formatAccessCode.
  pose proof (ReplaceAll_dash_free code) as Hfree.
  set (s := ReplaceAll code "-" "") in *. cbv zeta.
  destruct (String.length s =? 16)%nat eqn:Hlen; cbn [negb].
  - apply Nat.eqb_eq in Hlen.
    destruct (length16_groups s Hlen) as (Hs & L1 & L2 & L3 & L4).
    set (a := String.substring 0 4 s) in *. set (b := String.substring 4 4 s) in *.
    set (c := String.substring 8 4 s) in *. set (d := String.substring 12 4 s) in *.
    assert (Ha : ~ List.In "-"%char (list_ascii_of_string a))
      by (intros Hin; apply Hfree; by eapply substring_In).
    assert (Hb : ~ List.In "-"%char (list_ascii_of_string b))
      by (intros Hin; apply Hfree; by eapply substring_In).
    assert (Hc : ~ List.In "-"%char (list_ascii_of_string c))
      by (intros Hin; apply Hfree; by eapply substring_In).
    assert (Hd : ~ List.In "-"%char (list_ascii_of_string d))
      by (intros Hin; apply Hfree; by eapply substring_In).
    unfold ReplaceAll at 1.
    rewrite !string_app_length, L1, L2, L3, L4.
    change (String.length "-") with 1%nat.
    change (4 + (1 + (4 + (1 + (4 + (1 + 4))))))%nat with 19%nat.
    change ("-" ++ ?x) with (String "-" x).
    rewrite !append_cons, !append_nil_l.
    rewrite (replace_dash_app 18 a), (replace_dash_app 17 b),
            (replace_dash_app 16 c) by done.
    by rewrite (replace_dash_id 16 d).
  - by apply ReplaceAll_dash_id.
Qed.

Lemma formatAccessCode_length16 (code : string) :
  String.length code = 16%nat ->
  ~ List.In "-"%char (list_ascii_of_string code) ->
  String.length (formatAccessCode code) = 19%nat.
Proof.
  intros Hlen Hfree. unfold formatAccessCode.
  rewrite (ReplaceAll_dash_id code Hfree). cbv zeta.
  rewrite Hlen. cbn [Nat.eqb negb].
  destruct (length16_groups code Hlen) as (_ & L1 & L2 & L3 & L4).
  rewrite !string_app_length, L1, L2, L3, L4. reflexivity.
Qed.

Lemma get_In (s : string) :
  forall (n : nat) (c : ascii),
    String.get n s = Some c -> List.In c (list_ascii_of_string s).
Proof.
  induction s as [|x s IH]; intros n c; [by destruct n|].
  destruct n as [|n]; cbn [String.get list_ascii_of_string].
  - intros [= ->]. by left.
  - intros H. right. by eapply IH.
Qed.

Lemma get_Some (s : string) :
  forall n : nat, (n < String.length s)%nat -> exists c, String.get n s = Some c.
Proof.
  induction s as [|x s IH]; intros n Hn; [cbn in Hn; lia|].
  destruct n as [|n]; cbn [String.get]; [by eexists|].
  apply IH. cbn in Hn. lia.
Qed.

Lemma charset_no_dash : ~ List.In "-"%char (list_ascii_of_string charset).
Proof.
  intros H.
  assert (Hb : existsb (Ascii.eqb "-") (list_ascii_of_string charset) = true).
  { apply existsb_exists. exists "-"%char. split; [done|apply Ascii.eqb_refl]. }
  discriminate Hb.
Qed.

Lemma secretFrom_shape (draw : nat -> Z) (n : nat) :
  forall i : nat,
    (forall j, (i <= j < i + n)%nat -> 0 <= draw j < 31) ->
    exists secret,
      secretFrom draw i n = Ok secret
      /\ String.length secret = n
      /\ forall c, List.In c (list_ascii_of_string secret) ->
                   List.In c (list_ascii_of_string charset).
Proof.
  induction n as [|n IH]; intros i Hd; cbn [secretFrom].
  - exists "". split; [done|]. split; [done|]. by intros c [].
  - assert (Hi : 0 <= draw i < 31) by (apply Hd; lia).
    destruct (draw i <? 0) eqn:Hneg; [apply Z.ltb_lt in Hneg; lia|].
    destruct (get_Some charset (Z.to_nat (draw i))) as [c Hc].
    { change (String.length charset) with 31%nat. lia. }
    rewrite Hc.
    destruct (IH (S i)) as (rest & Hr & Hl & Hin); [intros j Hj; apply Hd; lia|].
    rewrite Hr. cbn [bind]. exists (String c rest).
    split; [done|]. split; [cbn; by rewrite Hl|].
    intros c' [<-|H]; [by eapply get_In|by apply Hin].
Qed.

Lemma generateSecret_range (draw : nat -> Z) :
  (forall i, (i < 16)%nat -> 0 <= draw i < 31) ->
  exists secret, generateSecret draw = Ok secret.
Proof.
  intros Hd. unfold generateSecret.
  destruct (secretFrom_shape draw (idGroupLen * idGroups) 0) as (secret & Hs & _).
  { intros j Hj. apply Hd. change (idGroupLen * idGroups)%nat with 16%nat in Hj. lia. }
  by exists secret.
Qed.

(** X1. Stripping the dashes from a formatted access code gives the
    stripped code again, so formatting twice changes nothing. *)
Theorem formatAccessCode_strip (code : string) :
  ReplaceAll (formatAccessCode code) "-" "" = ReplaceAll code "-" ""
  /\ formatAccessCode (formatAccessCode code) = formatAccessCode code.
Proof.
  pose proof (formatAccessCode_ReplaceAll code) as H.
  split; [exact H|].
  unfold formatAccessCode at 1. rewrite H. reflexivity.
Qed.

(** X2. Whatever numbers below the size of the alphabet are drawn, the
    edit identifier has sixteen characters, all of them from the
    alphabet; it is shown as nineteen characters, and stripping the
    dashes from what is shown gives the identifier back. *)
Theorem generateSecret_shape (draw : nat -> Z) :
  (forall i, (i < 16)%nat -> 0 <= draw i < 31) ->
  exists secret,
    generateSecret draw = Ok secret
    /\ String.length secret = 16%nat
    /\ (forall c, List.In c (list_ascii_of_string secret) ->
                  List.In c (list_ascii_of_string charset))
    /\ String.length (formatAccessCode secret) = 19%nat
    /\ ReplaceAll (formatAccessCode secret) "-" "" = secret.
Proof.
  intros Hd. unfold generateSecret.
  destruct (secretFrom_shape draw (idGroupLen * idGroups) 0) as (secret & Hs & Hl & Hin).
  { intros j Hj. apply Hd. change (idGroupLen * idGroups)%nat with 16%nat in Hj. lia. }
  change (idGroupLen * idGroups)%nat with 16%nat in *.
  assert (Hfree : ~ List.In "-"%char (list_ascii_of_string secret)).
  { intros H. apply charset_no_dash. by apply Hin. }
  exists secret. split; [done|]. split; [done|]. split; [done|].
  split; [by apply formatAccessCode_length16|].
  rewrite formatAccessCode_ReplaceAll. by apply ReplaceAll_dash_id.
Qed.

Lemma generateSecret_shape_witness :
  (forall i, (i < 16)%nat -> 0 <= Z.of_nat i < 31)
  /\ exists secret, generateSecret Z.of_nat = Ok secret
                    /\ String.length secret = 16%nat.
Proof.
  assert (H : forall i, (i < 16)%nat -> 0 <= Z.of_nat i < 31) by (intros i Hi; lia).
  split; [exact H|].
  destruct (generateSecret_shape Z.of_nat H) as (secret & Hs & Hl & _).
  by exists secret.
Defined.

End AccessCodes.
Section CalendarManagement.
Import GoTime GoStrings Model Service Web.

Lemma CreateCalendar_tables (r : Db.Repo) (id editId title : string)
    (config : SubscriptionConfig) (c u : Time) :
  match Db.calendars_table r !! id with
  | Some _ =>
      Db.CreateCalendar r id editId title config c u
      = (r, DbErr "UNIQUE constraint failed: calendars.id")
  | None =>
      exists r',
        Db.CreateCalendar r id editId title config c u = (r', DbOk tt)
        /\ Db.calendars_table r'
           = <[id := {| Db.edit_id := editId;
                        Db.calendar := newCalendar id title config c u |}]>
               (Db.calendars_table r)
        /\ Db.tournaments_table r' = Db.tournaments_table r
        /\ Db.registrations_table r' = Db.registrations_table r
        /\ Db.tournament_history_table r' = Db.tournament_history_table r
  end.
Proof.
  unfold Db.CreateCalendar. destruct (Db.calendars_table r !! id); [done|].
  eexists. split; [done|]. by cbn.
Qed.

Lemma GetTournamentsForSeries_nil {R : Type} (s : TournamentService R)
    (visit : list (Z * nat)) :
  GetTournamentsForSeries s visit [] = [].
Proof.
  unfold GetTournamentsForSeries, getTournaments.
  induction visit as [|e visit IH] using rev_ind; [done|].
  rewrite foldl_app. cbn [foldl]. rewrite IH.
  destruct (heap s !! e.2) as [t|]; [|done].
  assert (Hf : existsb (λ se, bool_decide (se ∈ @nil string)) (Series t) = false).
  { induction (Series t) as [|se l IHl]; [done|]. cbn [existsb].
    rewrite IHl. rewrite bool_decide_eq_false_2; [done|]. apply not_elem_of_nil. }
  by rewrite Hf.
Qed.

(** What a creation request that is answered with a redirect has done. *)
Lemma CreateCalendarHandler_stores (repo repo' : Db.Repo) (r : Request)
    (id : string) (draw : nat -> Z) (createdAt updatedAt : Time)
    (url : string) (code : Z) :
  CreateCalendarHandler repo r id draw createdAt updatedAt
    = (repo', Ok (Redirect url code)) ->
  exists editId,
    generateSecret draw = Ok editId
    /\ url = "/calendar/created?id=" ++ editId
    /\ code = StatusSeeOther
    /\ FormValue r "title" <> ""
    /\ Db.calendars_table repo !! id = None
    /\ Db.calendars_table repo'
       = <[id := {| Db.edit_id := editId;
                    Db.calendar :=
                      newCalendar id (FormValue r "title") Db.emptyConfig
                                  createdAt updatedAt |}]>
           (Db.calendars_table repo)
    /\ Db.tournaments_table repo' = Db.tournaments_table repo
    /\ Db.registrations_table repo' = Db.registrations_table repo
    /\ Db.tournament_history_table repo' = Db.tournament_history_table repo.
Proof.
  unfold CreateCalendarHandler. destruct (Form r) as [form|] eqn:Hform; [|done].
  destruct (String.eqb (FormValue r "title") "") eqn:Ht; [done|].
  apply String.eqb_neq in Ht.
  unfold CalendarService.CreateCalendar.
  destruct (generateSecret draw) as [editId|e|m] eqn:Hsecret; [|by cbn..].
  cbn [CreateCalendar Repo_CalendarAdminRepo].
  pose proof (CreateCalendar_tables repo id editId (FormValue r "title")
                {| CfgTournaments := []; CfgSeries := [] |} createdAt updatedAt) as Hc.
  destruct (Db.calendars_table repo !! id) as [old|] eqn:Hold.
  { rewrite Hc. done. }
  destruct Hc as (r1 & -> & Hcal & H1 & H2 & H3). intros [= <- <- <-].
  exists editId. by repeat (split; [done|]).
Qed.

Lemma GetCalendar_by_id (r : Db.Repo) (id : string) :
  GetCalendar r (CalendarId id)
  = DbOk (Db.calendar <$> Db.calendars_table r !! id).
Proof. reflexivity. Qed.

Lemma GetCalendar_by_edit_id (r : Db.Repo) (editId : string) :
  GetCalendar r (CalendarEditId editId) = Db.GetCalendarByEditId r editId.
Proof. reflexivity. Qed.

(** X3. A creation request that is answered with a redirect has stored a
    calendar with the title of the form, an empty subscription, no
    retrieval time, and the drawn edit identifier, under an id that was
    free; the redirect carries the edit identifier.  The calendar is found
    under its id, and under its edit identifier when no other calendar
    has the same one; the other calendars are as before. *)
Theorem CreateCalendarHandler_creates (repo repo' : Db.Repo) (r : Request)
    (id : string) (draw : nat -> Z) (createdAt updatedAt : Time)
    (url : string) (code : Z) :
  CreateCalendarHandler repo r id draw createdAt updatedAt
    = (repo', Ok (Redirect url code)) ->
  exists editId,
    generateSecret draw = Ok editId
    /\ url = "/calendar/created?id=" ++ editId
    /\ code = StatusSeeOther
    /\ FormValue r "title" <> ""
    /\ Db.calendars_table repo !! id = None
    /\ GetCalendar repo' (CalendarId id)
       = DbOk (Some (newCalendar id (FormValue r "title") Db.emptyConfig
                                 createdAt updatedAt))
    /\ ((forall id' row, Db.calendars_table repo !! id' = Some row ->
                         Db.edit_id row <> editId) ->
        GetCalendar repo' (CalendarEditId editId)
        = DbOk (Some (newCalendar id (FormValue r "title") Db.emptyConfig
                                  createdAt updatedAt)))
    /\ (forall id', id' <> id ->
          GetCalendar repo' (CalendarId id') = GetCalendar repo (CalendarId id')).
Proof.
  intros H. apply CreateCalendarHandler_stores in H
    as (editId & Hsecret & Hurl & Hcode & Ht & Hold & Hcal & _).
  exists editId. do 5 (split; [done|]).
  split; [|split].
  - by rewrite GetCalendar_by_id, Hcal, lookup_insert_eq.
  - intros Hfresh. rewrite GetCalendar_by_edit_id.
    rewrite (GetCalendarByEditId_unique repo' editId id
               {| Db.edit_id := editId;
                  Db.calendar := newCalendar id (FormValue r "title") Db.emptyConfig
                                             createdAt updatedAt |}); [done| |done|].
    + by rewrite Hcal, lookup_insert_eq.
    + intros id' row'. rewrite Hcal.
      intros [[<- <-]|[Hne Hrow]]%lookup_insert_Some; [done|].
      intros He. by destruct (Hfresh _ _ Hrow).
  - intros id' Hne. by rewrite !GetCalendar_by_id, Hcal, lookup_insert_ne.
Qed.

End CalendarManagement.
Section CalendarManagement2.
Import GoTime GoStrings Model Service Web.

Lemma CreateCalendarHandler_creates_witness :
  CreateCalendarHandler sampleRepo createRequest "cal2" Z.of_nat sampleNow sampleNow
    = (createdRepo, Ok (Redirect "/calendar/created?id=abcdefghjkmnpqrs" StatusSeeOther))
  /\ GetCalendar createdRepo (CalendarId "cal2")
     = DbOk (Some (newCalendar "cal2" "Liga 2024" Db.emptyConfig sampleNow sampleNow)).
Proof.
  assert (H : CreateCalendarHandler sampleRepo createRequest "cal2" Z.of_nat
                sampleNow sampleNow
              = (createdRepo,
                 Ok (Redirect "/calendar/created?id=abcdefghjkmnpqrs" StatusSeeOther))).
  { vm_compute. reflexivity. }
  split; [exact H|].
  destruct (CreateCalendarHandler_creates _ _ _ _ _ _ _ _ _ H)
    as (editId & _ & _ & _ & _ & _ & Hget & _).
  exact Hget.
Defined.

(** X4. A creation request that is not answered with a redirect leaves the
    store as it was.  Without a parsed form or without a title the answer
    is 400; with both, and an edit identifier drawn, the answer is 500 and
    the id was taken. *)
Theorem CreateCalendarHandler_rejects (repo repo' : Db.Repo) (r : Request)
    (id : string) (draw : nat -> Z) (createdAt updatedAt : Time)
    (o : outcome reply) :
  CreateCalendarHandler repo r id draw createdAt updatedAt = (repo', o) ->
  (forall url code, o <> Ok (Redirect url code)) ->
  repo' = repo
  /\ (Form r = None \/ FormValue r "title" = "" ->
      exists msg, o = Ok (Error msg StatusBadRequest))
  /\ (Form r <> None -> FormValue r "title" <> "" ->
      (forall i, (i < 16)%nat -> 0 <= draw i < 31) ->
      is_Some (Db.calendars_table repo !! id)
      /\ exists msg, o = Ok (Error msg StatusInternalServerError)).
Proof.
  unfold CreateCalendarHandler. destruct (Form r) as [form|] eqn:Hform.
  2:{ intros [= <- <-] _. split; [done|]. split; [by eauto|]. done. }
  destruct (String.eqb (FormValue r "title") "") eqn:Ht.
  { apply String.eqb_eq in Ht. intros [= <- <-] _. split; [done|].
    split; [by eauto|]. done. }
  apply String.eqb_neq in Ht.
  unfold CalendarService.CreateCalendar.
  destruct (generateSecret draw) as [editId|e|m] eqn:Hsecret.
  - cbn [CreateCalendar Repo_CalendarAdminRepo].
    pose proof (CreateCalendar_tables repo id editId (FormValue r "title")
                  {| CfgTournaments := []; CfgSeries := [] |} createdAt updatedAt) as Hc.
    destruct (Db.calendars_table repo !! id) as [old|] eqn:Hold.
    + rewrite Hc. intros [= <- <-] _. split; [done|].
      split; [intros [?|?]; done|]. intros _ _ _. split; [by eauto|by eauto].
    + destruct Hc as (r1 & -> & _). intros [= <- <-] Hno. by destruct (Hno _ _ eq_refl).
  - intros [= <- <-] _. split; [done|]. split; [intros [?|?]; done|].
    intros _ _ Hd. destruct (generateSecret_range draw Hd) as (secret & Hs).
    congruence.
  - intros [= <- <-] _. split; [done|]. split; [intros [?|?]; done|].
    intros _ _ Hd. destruct (generateSecret_range draw Hd) as (secret & Hs).
    congruence.
Qed.

End CalendarManagement2.
Section CalendarManagement3.
Import GoTime GoStrings Model Service Web.

Lemma CreateCalendarHandler_rejects_witness :
  CreateCalendarHandler sampleRepo createRequest "cal1" Z.of_nat sampleNow sampleNow
    = (sampleRepo,
       Ok (Error "UNIQUE constraint failed: calendars.id" StatusInternalServerError))
  /\ (forall url code,
        Ok (Error "UNIQUE constraint failed: calendars.id" StatusInternalServerError)
        <> Ok (Redirect url code))
  /\ is_Some (Db.calendars_table sampleRepo !! "cal1").
Proof.
  assert (H : CreateCalendarHandler sampleRepo createRequest "cal1" Z.of_nat
                sampleNow sampleNow
              = (sampleRepo,
                 Ok (Error "UNIQUE constraint failed: calendars.id"
                           StatusInternalServerError))).
  { vm_compute. reflexivity. }
  assert (Hno : forall url code,
            Ok (Error "UNIQUE constraint failed: calendars.id" StatusInternalServerError)
            <> Ok (Redirect url code)) by (intros url code Heq; discriminate Heq).
  split; [exact H|]. split; [exact Hno|].
  destruct (CreateCalendarHandler_rejects _ _ _ _ _ _ _ _ H Hno) as (_ & _ & Hfull).
  apply Hfull.
  - discriminate.
  - vm_compute. discriminate.
  - intros i Hi. lia.
Defined.

(** X6. A delete request sent with POST for a non-empty id is answered
    with a redirect to the admin page; afterwards the feed of that id is
    answered with 404 "Not found", and every other calendar is found as
    before.  A request with another method or without an id changes
    nothing. *)
Theorem DeleteCalendarHandler_then_not_found (s : TournamentService Db.Repo)
    (r : Request) (repo' : Db.Repo) (answer : reply)
    (visit : list (Z * nat)) (now : Time) :
  DeleteCalendarHandler (repo s) r = (repo', answer) ->
  (Method r = "POST" -> PathId r <> "" ->
     answer = Redirect "/admin" StatusSeeOther
     /\ IcsHandler (withRepo s repo') visit now (PathId r)
        = (withRepo s repo',
           Ok {| StatusCode := StatusNotFound; Body := Text "Not found" |})
     /\ (forall id, id <> PathId r ->
           GetCalendar repo' (CalendarId id) = GetCalendar (repo s) (CalendarId id)))
  /\ (Method r <> "POST" \/ PathId r = "" ->
        repo' = repo s
        /\ exists msg code, answer = Error msg code
                            /\ (code = StatusMethodNotAllowed \/ code = StatusBadRequest)).
Proof.
  unfold DeleteCalendarHandler.
  destruct (String.eqb (Method r) "POST") eqn:Hm; cbn [negb].
  - apply String.eqb_eq in Hm.
    destruct (String.eqb (PathId r) "") eqn:Hp.
    + apply String.eqb_eq in Hp. intros [= <- <-]. split; [done|].
      intros _. split; [done|]. by eauto.
    + apply String.eqb_neq in Hp. cbn. intros [= <- <-]. split.
      * intros _ _. split; [done|]. split.
        -- unfold IcsHandler, CreateIcs, GetCalendar, CalendarId.
           cbn [cal_t cal_id withRepo repo]. change (0 =? 1) with false.
           cbn [GetCalendarById Repo_CalendarRepo]. unfold Db.GetCalendarById.
           cbn [Db.calendars_table]. by rewrite lookup_delete_eq.
        -- intros id Hne. unfold GetCalendar, CalendarId. cbn [cal_t cal_id].
           change (0 =? 1) with false. cbn [GetCalendarById Repo_CalendarRepo].
           unfold Db.GetCalendarById. cbn [Db.calendars_table].
           by rewrite lookup_delete_ne.
      * intros [?|?]; done.
  - apply String.eqb_neq in Hm. intros [= <- <-]. split; [done|].
    intros _. split; [done|]. by eauto.
Qed.

Lemma DeleteCalendarHandler_then_not_found_witness :
  DeleteCalendarHandler (repo sampleService) deleteRequest
    = ((DeleteCalendarHandler (repo sampleService) deleteRequest).1,
       Redirect "/admin" StatusSeeOther)
  /\ IcsHandler (withRepo sampleService
                   (DeleteCalendarHandler (repo sampleService) deleteRequest).1)
                [] sampleNow "cal1"
     = (withRepo sampleService
          (DeleteCalendarHandler (repo sampleService) deleteRequest).1,
        Ok {| StatusCode := StatusNotFound; Body := Text "Not found" |}).
Proof.
  assert (H : DeleteCalendarHandler (repo sampleService) deleteRequest
              = ((DeleteCalendarHandler (repo sampleService) deleteRequest).1,
                 Redirect "/admin" StatusSeeOther)) by reflexivity.
  split; [exact H|].
  destruct (DeleteCalendarHandler_then_not_found sampleService deleteRequest _ _
              [] sampleNow H) as [Hpost _].
  destruct Hpost as (_ & Hfeed & _); [reflexivity|discriminate|].
  exact Hfeed.
Defined.

(** X7. The feed of a calendar that the creation form has just made is a
    calendar export with the title of the form and no event, whatever
    tournaments the service holds. *)
Theorem CreateCalendarHandler_feed (s : TournamentService Db.Repo) (r : Request)
    (id : string) (draw : nat -> Z) (createdAt updatedAt : Time)
    (repo' : Db.Repo) (url : string) (code : Z)
    (visit : list (Z * nat)) (now : Time) :
  CreateCalendarHandler (repo s) r id draw createdAt updatedAt
    = (repo', Ok (Redirect url code)) ->
  exists s',
    CreateIcs (withRepo s repo') visit now id
    = (s', Ok {| ProductId := "dg-cal v0.1"; Service.Method := "PUBLISH";
                 CalName := FormValue r "title"; Events := [] |}).
Proof.
  intros H. apply CreateCalendarHandler_stores in H
    as (editId & _ & _ & _ & _ & _ & Hcal & _).
  unfold CreateIcs. cbn [withRepo repo].
  rewrite GetCalendar_by_id, Hcal, lookup_insert_eq. cbn [fmap option_fmap option_map Db.calendar].
  unfold GetUpdateCount. cbn [GetCalendarUpdateCount Repo_CalendarRepo].
  unfold Db.GetCalendarUpdateCount. cbn [newCalendar Config CalTitle CalId_].
  unfold resolveTournaments. cbn [Db.emptyConfig CfgSeries CfgTournaments foldl].
  rewrite GetTournamentsForSeries_nil. cbn [exportEvents flat_map].
  by eexists.
Qed.

Lemma CreateCalendarHandler_feed_witness :
  CreateCalendarHandler (repo sampleService) createRequest "cal2" Z.of_nat
                        sampleNow sampleNow
    = (createdRepo, Ok (Redirect "/calendar/created?id=abcdefghjkmnpqrs" StatusSeeOther))
  /\ exists s',
       CreateIcs (withRepo sampleService createdRepo)
                 (map_to_list (tournaments sampleService)) sampleNow "cal2"
       = (s', Ok {| ProductId := "dg-cal v0.1"; Service.Method := "PUBLISH";
                    CalName := "Liga 2024"; Events := [] |}).
Proof.
  assert (H : CreateCalendarHandler (repo sampleService) createRequest "cal2" Z.of_nat
                sampleNow sampleNow
              = (createdRepo,
                 Ok (Redirect "/calendar/created?id=abcdefghjkmnpqrs" StatusSeeOther))).
  { vm_compute. reflexivity. }
  split; [exact H|].
  exact (CreateCalendarHandler_feed sampleService createRequest "cal2" Z.of_nat
           sampleNow sampleNow createdRepo _ _
           (map_to_list (tournaments sampleService)) sampleNow H).
Defined.

End CalendarManagement3.
Section FeedRetrieval.
Import GoTime GoStrings Model Service Web.

(** The export of a calendar, outcome by outcome. *)
Lemma CreateIcs_cases (s s' : TournamentService Db.Repo) (visit : list (Z * nat))
    (now : Time) (id : string) (o : outcome IcsCalendar) :
  CreateIcs s visit now id = (s', o) ->
  (s' = s /\ Db.calendars_table (repo s) !! id = None /\ o = Err NotFoundError)
  \/ (s' = s /\ o = Panic "nil pointer dereference"
      /\ exists row, Db.calendars_table (repo s) !! id = Some row
                     /\ Config (Db.calendar row) = None)
  \/ (exists row config,
        Db.calendars_table (repo s) !! id = Some row
        /\ Config (Db.calendar row) = Some config
        /\ s' = withRepo s (Db.SetCalendarRetrievedAt (repo s)
                              (CalId_ (Db.calendar row)) now).1
        /\ o = Ok {| ProductId := "dg-cal v0.1"; Service.Method := "PUBLISH";
                     CalName := CalTitle (Db.calendar row);
                     Events :=
                       flat_map (eventsOf (foldr (λ row result,
                                     <[Db.tournament_id row :=
                                        default 0 (result !! Db.tournament_id row) + 1]>
                                       result) ∅
                                     (Db.tournament_history_table (repo s))))
                                (emitted s (resolveTournaments s visit config)) |}).
Proof.
  unfold CreateIcs. rewrite GetCalendar_by_id.
  destruct (Db.calendars_table (repo s) !! id) as [row|] eqn:Hrow;
    cbn [fmap option_fmap option_map].
  - unfold GetUpdateCount. cbn [GetCalendarUpdateCount Repo_CalendarRepo].
    unfold Db.GetCalendarUpdateCount.
    destruct (Config (Db.calendar row)) as [config|] eqn:Hcfg.
    + intros [= <- <-]. right. right. exists row, config.
      split; [done|]. split; [done|]. split; [done|].
      by rewrite exportEvents_emitted.
    + intros [= <- <-]. right. left. by eauto.
  - intros [= <- <-]. by left.
Qed.

(** X8. With a store the program can reach, feed generation never stops
    with a nil dereference: every stored calendar has a configuration.
    The store it leaves can be reached as well. *)
Theorem CreateIcs_never_panics (s s' : TournamentService Db.Repo)
    (visit : list (Z * nat)) (now : Time) (id : string) (o : outcome IcsCalendar) :
  reachable (repo s) ->
  CreateIcs s visit now id = (s', o) ->
  is_panic o = false /\ reachable (repo s').
Proof.
  intros Hreach H. apply CreateIcs_cases in H
    as [(-> & _ & ->)|[(-> & -> & row & Hrow & Hcfg)|(row & config & Hrow & Hcfg & -> & ->)]].
  - done.
  - destruct (reachable_calendars _ Hreach _ _ Hrow) as (_ & [c Hc] & _). congruence.
  - split; [done|]. cbn [withRepo repo]. by apply reach_SetCalendarRetrievedAt.
Qed.

(** The resolved tournaments do not depend on the order in which the map
    is visited, up to their own order. *)
Lemma resolveTournaments_Permutation {R : Type} (s : TournamentService R)
    (visit visit' : list (Z * nat)) (config : SubscriptionConfig) :
  visit' ≡ₚ visit ->
  resolveTournaments s visit' config ≡ₚ resolveTournaments s visit config.
Proof.
  intros Hp. unfold resolveTournaments, GetTournamentsForSeries.
  rewrite !getTournaments_filter.
  set (f := λ e : Z * nat, selects s _ e = true).
  assert (H0 : ((λ e : Z * nat, Some e.2) <$> filter f visit')
               ≡ₚ ((λ e : Z * nat, Some e.2) <$> filter f visit)) by (by rewrite Hp).
  revert H0. generalize ((λ e : Z * nat, Some e.2) <$> filter f visit').
  generalize ((λ e : Z * nat, Some e.2) <$> filter f visit).
  induction (CfgTournaments config) as [|tid tids IH]; intros l l' Hl; cbn [foldl]; [done|].
  apply IH. repeat case_bool_decide.
  - done.
  - exfalso. by rewrite Hl in *.
  - exfalso. by rewrite Hl in *.
  - by rewrite Hl.
Qed.

(** X9. Generating a feed changes nothing but the retrieval time of the
    calendar: the tournaments in memory, the time of the last cycle, the
    tournaments, registrations and history of the store and the other
    fields of every calendar stay as they are, and a failed generation
    changes nothing at all.  Generating the feed again at any later
    moment gives the same outcome: with the map visited in the same order
    the same export, and with the map visited in any other order an export
    with the same name and the same events, up to the order of the
    events. *)
Theorem CreateIcs_only_records_retrieval (s s' : TournamentService Db.Repo)
    (visit : list (Z * nat)) (now : Time) (id : string) (o : outcome IcsCalendar) :
  CreateIcs s visit now id = (s', o) ->
  tournaments s' = tournaments s /\ heap s' = heap s /\ lastSync s' = lastSync s
  /\ Db.tournaments_table (repo s') = Db.tournaments_table (repo s)
  /\ Db.registrations_table (repo s') = Db.registrations_table (repo s)
  /\ Db.tournament_history_table (repo s') = Db.tournament_history_table (repo s)
  /\ (forall k,
        match Db.calendars_table (repo s) !! k, Db.calendars_table (repo s') !! k with
        | Some row, Some row' =>
            Db.edit_id row' = Db.edit_id row
            /\ CalId_ (Db.calendar row') = CalId_ (Db.calendar row)
            /\ CalTitle (Db.calendar row') = CalTitle (Db.calendar row)
            /\ CalEmail (Db.calendar row') = CalEmail (Db.calendar row)
            /\ CalCreatedAt (Db.calendar row') = CalCreatedAt (Db.calendar row)
            /\ CalUpdatedAt (Db.calendar row') = CalUpdatedAt (Db.calendar row)
            /\ Config (Db.calendar row') = Config (Db.calendar row)
        | None, None => True
        | _, _ => False
        end)
  /\ (is_ok o = false -> s' = s)
  /\ (forall now', exists s'', CreateIcs s' visit now' id = (s'', o))
  /\ (forall visit' now', visit' ≡ₚ visit ->
        exists s'' o',
          CreateIcs s' visit' now' id = (s'', o')
          /\ match o, o' with
             | Ok cal, Ok cal' =>
                 ProductId cal' = ProductId cal
                 /\ Service.Method cal' = Service.Method cal
                 /\ CalName cal' = CalName cal
                 /\ Events cal' ≡ₚ Events cal
             | _, _ => o' = o
             end).
Proof.
  intros H. apply CreateIcs_cases in H
    as [(-> & Hrow & ->)|[(-> & -> & row & Hrow & Hcfg)|(row & config & Hrow & Hcfg & -> & ->)]].
  - do 6 (split; [done|]). split; [intros k; by destruct (_ !! k)|].
    split; [done|].
    assert (Hagain : forall visit' now',
              CreateIcs s visit' now' id = (s, Err NotFoundError)).
    { intros visit' now'. unfold CreateIcs. by rewrite GetCalendar_by_id, Hrow. }
    split.
    + intros now'. exists s. apply Hagain.
    + intros visit' now' _. exists s, (Err NotFoundError). split; [apply Hagain|done].
  - do 6 (split; [done|]). split; [intros k; by destruct (_ !! k)|].
    split; [done|].
    assert (Hagain : forall visit' now',
              CreateIcs s visit' now' id = (s, Panic "nil pointer dereference")).
    { intros visit' now'. unfold CreateIcs.
      rewrite GetCalendar_by_id, Hrow. cbn. by rewrite Hcfg. }
    split.
    + intros now'. exists s. apply Hagain.
    + intros visit' now' _. exists s, (Panic "nil pointer dereference").
      split; [apply Hagain|done].
  - cbn [withRepo tournaments heap lastSync repo Db.SetCalendarRetrievedAt fst
         Db.tournaments_table Db.registrations_table Db.tournament_history_table
         Db.calendars_table].
    do 6 (split; [done|]).
    assert (Hk : forall k,
      match Db.calendars_table (repo s) !! k,
            alter (λ row0, {| Db.edit_id := Db.edit_id row0;
                     Db.calendar :=
                       {| CalId_ := CalId_ (Db.calendar row0);
                          CalTitle := CalTitle (Db.calendar row0);
                          CalEmail := CalEmail (Db.calendar row0);
                          CalCreatedAt := CalCreatedAt (Db.calendar row0);
                          CalUpdatedAt := CalUpdatedAt (Db.calendar row0);
                          CalRetrievedAt := Some now;
                          Config := Config (Db.calendar row0) |} |})
                  (CalId_ (Db.calendar row)) (Db.calendars_table (repo s)) !! k with
      | Some row0, Some row' =>
          Db.edit_id row' = Db.edit_id row0
          /\ CalId_ (Db.calendar row') = CalId_ (Db.calendar row0)
          /\ CalTitle (Db.calendar row') = CalTitle (Db.calendar row0)
          /\ CalEmail (Db.calendar row') = CalEmail (Db.calendar row0)
          /\ CalCreatedAt (Db.calendar row') = CalCreatedAt (Db.calendar row0)
          /\ CalUpdatedAt (Db.calendar row') = CalUpdatedAt (Db.calendar row0)
          /\ Config (Db.calendar row') = Config (Db.calendar row0)
      | None, None => True
      | _, _ => False
      end).
    { intros k. destruct (decide (k = CalId_ (Db.calendar row))) as [->|Hne].
      - rewrite lookup_alter_eq.
        destruct (Db.calendars_table (repo s) !! CalId_ (Db.calendar row)); cbn; done.
      - rewrite lookup_alter_ne by done. by destruct (_ !! k). }
    split; [exact Hk|]. split; [done|].
    assert (Hagain : forall visit' now', exists s'',
              CreateIcs (withRepo s (Db.SetCalendarRetrievedAt (repo s)
                                       (CalId_ (Db.calendar row)) now).1) visit' now' id
              = (s'', Ok {| ProductId := "dg-cal v0.1"; Service.Method := "PUBLISH";
                            CalName := CalTitle (Db.calendar row);
                            Events :=
                              flat_map (eventsOf (foldr (λ row result,
                                     <[Db.tournament_id row :=
                                        default 0 (result !! Db.tournament_id row) + 1]>
                                       result) ∅
                                     (Db.tournament_history_table (repo s))))
                                (emitted s (resolveTournaments s visit' config)) |})).
    { intros visit' now'. unfold CreateIcs. rewrite GetCalendar_by_id.
      cbn [withRepo repo Db.calendars_table Db.SetCalendarRetrievedAt fst].
      pose proof (Hk id) as Hid. rewrite Hrow in Hid.
      destruct (alter _ _ _ !! id) as [row'|] eqn:Hrow'; [|done].
      destruct Hid as (_ & _ & Htitle & _ & _ & _ & Hconfig).
      eexists. cbn [fmap option_fmap option_map].
      unfold GetUpdateCount. cbn [GetCalendarUpdateCount Repo_CalendarRepo].
      unfold Db.GetCalendarUpdateCount. cbn [Db.tournament_history_table].
      rewrite Hconfig, Hcfg, Htitle. rewrite exportEvents_emitted.
      reflexivity. }
    split.
    + intros now'. apply Hagain.
    + intros visit' now' Hp. destruct (Hagain visit' now') as [s'' Hs''].
      eexists s'', _. split; [exact Hs''|].
      cbn [ProductId Service.Method CalName Events].
      do 3 (split; [done|]).
      apply Permutation_flat_map. unfold emitted.
      by rewrite (resolveTournaments_Permutation s visit visit' config Hp).
Qed.

Lemma CreateIcs_never_panics_witness :
  reachable (repo reachedService)
  /\ is_panic (CreateIcs reachedService (map_to_list (tournaments reachedService))
                         sampleNow "cal1").2 = false.
Proof.
  assert (Hreach : reachable (repo reachedService)).
  { unfold reachedService. cbn [withRepo repo].
    apply reach_CreateCalendar, reach_empty. }
  split; [exact Hreach|].
  apply (CreateIcs_never_panics reachedService
           (CreateIcs reachedService (map_to_list (tournaments reachedService))
                      sampleNow "cal1").1
           (map_to_list (tournaments reachedService)) sampleNow "cal1" _ Hreach).
  apply surjective_pairing.
Defined.

Lemma CreateIcs_only_records_retrieval_witness :
  CreateIcs sampleService (map_to_list (tournaments sampleService)) sampleNow "cal1"
    = (sampleExported.1, Ok sampleExport)
  /\ tournaments sampleExported.1 = tournaments sampleService
  /\ Db.tournament_history_table (repo sampleExported.1)
     = Db.tournament_history_table (repo sampleService).
Proof.
  assert (H : CreateIcs sampleService (map_to_list (tournaments sampleService))
                sampleNow "cal1" = (sampleExported.1, Ok sampleExport)).
  { vm_compute. reflexivity. }
  split; [exact H|].
  destruct (CreateIcs_only_records_retrieval _ _ _ _ _ _ H)
    as (Ht & _ & _ & _ & _ & Hh & _).
  by split.
Defined.

End FeedRetrieval.
Section UpdatedFeed.
Import GoTime GoStrings Model Service Web.

(** X5. After a calendar was changed, its feed carries the new title and
    the events of the new subscription, and no event when the change came
    without a configuration; the feeds of the other calendars are what
    they were.  Changing a calendar that is not stored creates none: the
    call returns without an error, the store is as before, and the feed
    of that id is still not found. *)
Theorem UpdateCalendar_feed (s : TournamentService Db.Repo) (cal : Calendar)
    (changedAt : Time) (r' : Db.Repo) (o : outcome (option Calendar))
    (visit : list (Z * nat)) (now : Time) :
  CalendarService.UpdateCalendar (repo s) (Some cal) changedAt = (r', o) ->
  o = Ok (Some cal)
  /\ (is_Some (Db.calendars_table (repo s) !! CalId_ cal) ->
      exists s' updateCount,
        GetUpdateCount (repo s) = DbOk updateCount
        /\ CreateIcs (withRepo s r') visit now (CalId_ cal)
           = (s', Ok {| ProductId := "dg-cal v0.1"; Service.Method := "PUBLISH";
                        CalName := CalTitle cal;
                        Events :=
                          exportEvents s updateCount
                            (resolveTournaments s visit
                               (default Db.emptyConfig (Config cal))) |})
        /\ (Config cal = None ->
            (CreateIcs (withRepo s r') visit now (CalId_ cal)).2
            = Ok {| ProductId := "dg-cal v0.1"; Service.Method := "PUBLISH";
                    CalName := CalTitle cal; Events := [] |}))
  /\ (Db.calendars_table (repo s) !! CalId_ cal = None ->
      r' = repo s
      /\ CreateIcs (withRepo s r') visit now (CalId_ cal)
         = (withRepo s r', Err NotFoundError))
  /\ (forall id, id <> CalId_ cal ->
        (CreateIcs (withRepo s r') visit now id).2 = (CreateIcs s visit now id).2).
Proof.
  unfold CalendarService.UpdateCalendar.
  cbn [Service.UpdateCalendar Repo_CalendarAdminRepo].
  intros [= <- <-]. split; [done|].
  cbn [Db.UpdateCalendar fst].
  set (upd := λ row : Db.CalendarRow, _).
  set (r1 := {| Db.tournaments_table := _ |}).
  assert (Hcounts : GetUpdateCount r1 = GetUpdateCount (repo s)) by reflexivity.
  split; [|split].
  - intros [row Hrow]. unfold CreateIcs. cbn [withRepo repo].
    rewrite Hcounts, GetCalendar_by_id.
    unfold GetUpdateCount. cbn [GetCalendarUpdateCount Repo_CalendarRepo].
    unfold Db.GetCalendarUpdateCount.
    unfold r1 at 1. cbn [Db.calendars_table].
    rewrite lookup_alter_eq, Hrow.
    cbn [fmap option_fmap option_map upd Db.calendar Config CalTitle CalId_].
    eexists _, _. split; [reflexivity|]. split; [reflexivity|].
    intros Hc. unfold r1 at 1. cbn [Db.calendars_table].
    rewrite lookup_alter_eq, Hrow.
    cbn [fmap option_fmap option_map upd Db.calendar Config CalTitle CalId_ snd].
    rewrite Hc. cbn [default Db.emptyConfig].
    unfold resolveTournaments. cbn [CfgSeries CfgTournaments foldl].
    rewrite GetTournamentsForSeries_nil. reflexivity.
  - intros Hrow.
    assert (Hsame : r1 = repo s).
    { unfold r1. destruct (repo s) as [tt rt ct ht]. cbn in *. f_equal.
      apply map_eq. intros k. destruct (decide (k = CalId_ cal)) as [->|Hne].
      - by rewrite lookup_alter_eq, Hrow.
      - by rewrite lookup_alter_ne. }
    split; [exact Hsame|].
    unfold CreateIcs. cbn [withRepo repo]. rewrite GetCalendar_by_id, Hsame, Hrow.
    reflexivity.
  - intros id Hne. unfold CreateIcs. cbn [withRepo repo].
    rewrite Hcounts, !GetCalendar_by_id.
    unfold r1 at 1. cbn [Db.calendars_table].
    rewrite lookup_alter_ne by done.
    destruct (Db.calendars_table (repo s) !! id) as [row|];
      cbn [fmap option_fmap option_map]; [|done].
    destruct (GetUpdateCount (repo s)); [|done].
    by destruct (Config (Db.calendar row)).
Qed.

Lemma UpdateCalendar_feed_witness :
  CalendarService.UpdateCalendar (repo sampleService) (Some retitledCalendar) sampleNow
    = (retitledRepo, Ok (Some retitledCalendar))
  /\ (CreateIcs (withRepo sampleService retitledRepo)
                (map_to_list (tournaments sampleService)) sampleNow "cal1").2
     = Ok {| ProductId := "dg-cal v0.1"; Service.Method := "PUBLISH";
             CalName := "Nur Liga"; Events := [] |}.
Proof.
  assert (H : CalendarService.UpdateCalendar (repo sampleService)
                (Some retitledCalendar) sampleNow
              = (retitledRepo, Ok (Some retitledCalendar))) by reflexivity.
  split; [exact H|].
  destruct (UpdateCalendar_feed sampleService retitledCalendar sampleNow retitledRepo _
              (map_to_list (tournaments sampleService)) sampleNow H)
    as (_ & Hfeed & _).
  destruct Hfeed as (s' & counts & _ & _ & Hnil).
  - by eexists.
  - exact (Hnil eq_refl).
Defined.

End UpdatedFeed.
Section EventIdentifiers.
Import GoTime GoStrings Model Service Web.

Lemma append_inv_tail (c : string) :
  forall a b : string, a ++ c = b ++ c -> a = b.
Proof.
  assert (Hlen : forall a x, String.length (String x a ++ c) <> String.length c).
  { intros a x. rewrite append_cons. cbn [String.length].
    rewrite string_app_length. lia. }
  induction a as [|x a IH]; intros [|y b] H.
  - done.
  - rewrite append_nil_l in H. exfalso. apply (Hlen b y). by rewrite <- H.
  - rewrite append_nil_l in H. exfalso. apply (Hlen a x). by rewrite H.
  - rewrite !append_cons in H. injection H as -> H. f_equal. by apply IH.
Qed.

(** The last dash of a text separates what precedes it from a dash-free
    rest in one way only. *)
Lemma last_dash_inj (b b' : string) :
  ~ List.In "-"%char (list_ascii_of_string b) ->
  ~ List.In "-"%char (list_ascii_of_string b') ->
  forall a a' : string,
    a ++ String "-" b = a' ++ String "-" b' -> a = a' /\ b = b'.
Proof.
  intros Hb Hb'.
  assert (Hno : forall (x y z : string),
            ~ List.In "-"%char (list_ascii_of_string x) -> x <> y ++ String "-" z).
  { intros x y z Hx ->. apply Hx. rewrite list_ascii_app. apply in_or_app. right.
    by left. }
  induction a as [|x a IH]; intros [|y a'] H.
  - rewrite !append_nil_l in H. by injection H as ->.
  - rewrite append_nil_l, append_cons in H. injection H as <- H.
    by destruct (Hno b a' b').
  - rewrite append_nil_l, append_cons in H. injection H as -> H.
    symmetry in H. by destruct (Hno b' a b).
  - rewrite !append_cons in H. injection H as -> H.
    destruct (IH _ H) as [-> ->]. done.
Qed.

Lemma pretty_N_go_no_dash (x : N) :
  forall s, ~ List.In "-"%char (list_ascii_of_string s) ->
            ~ List.In "-"%char (list_ascii_of_string (pretty_N_go x s)).
Proof.
  induction (N.lt_wf_0 x) as [x _ IH]. intros s Hs.
  assert (x = 0 \/ 0 < x)%N as [->|Hpos] by lia.
  - by rewrite pretty_N_go_0.
  - rewrite pretty_N_go_step by done. apply IH.
    + by apply N.div_lt.
    + cbn [list_ascii_of_string]. intros [Hc|Hin]; [|done].
      unfold pretty_N_char in Hc. by repeat case_match.
Qed.

Lemma pretty_nat_no_dash (n : nat) :
  ~ List.In "-"%char (list_ascii_of_string (pretty n)).
Proof.
  unfold pretty, pretty_nat, pretty, pretty_N.
  destruct (decide (N.of_nat n = 0%N)).
  - cbn. intros [H|[]]. discriminate H.
  - apply pretty_N_go_no_dash. cbn. tauto.
Qed.

Lemma append_inv_head (c : string) :
  forall a b : string, c ++ a = c ++ b -> a = b.
Proof.
  induction c as [|x c IH]; intros a b H.
  - by rewrite !append_nil_l in H.
  - rewrite !append_cons in H. injection H as H. by apply IH.
Qed.

Lemma tournamentUID_inj (id id' : Z) :
  tournamentUID id = tournamentUID id' -> id = id'.
Proof.
  unfold tournamentUID. intros H.
  apply append_inv_head, append_inv_tail in H. by apply pretty_Z_inj.
Qed.

Lemma registrationUID_inj (id id' : Z) (i i' : nat) :
  registrationUID id i = registrationUID id' i' -> id = id' /\ i = i'.
Proof.
  unfold registrationUID. intros H.
  apply append_inv_head in H.
  assert (Hre : forall (a b : string),
            a ++ "-" ++ b ++ "@dg-cal" = (a ++ String "-" b) ++ "@dg-cal").
  { intros a b. rewrite string_app_assoc. f_equal. }
  rewrite !Hre in H. apply append_inv_tail in H.
  apply last_dash_inj in H as [H1 H2]; [|apply pretty_nat_no_dash..].
  split; [by apply pretty_Z_inj|by apply pretty_nat_inj].
Qed.

Lemma tournamentUID_registrationUID (id id' : Z) (i : nat) :
  tournamentUID id <> registrationUID id' i.
Proof. unfold tournamentUID, registrationUID. intros H. discriminate H. Qed.

Lemma eventsOf_uids (updateCount : gmap Z Z) (t : Tournament) :
  UID <$> eventsOf updateCount t
  = tournamentUID (Id t)
      :: (registrationUID (Id t) <$> seq 0 (length (Registrations t))).
Proof.
  unfold eventsOf. cbn [fmap list_fmap]. f_equal.
  rewrite fmap_imap. rewrite <- imap_seq_0. by apply imap_ext.
Qed.

Lemma eventsOf_uids_NoDup (updateCount : gmap Z Z) (t : Tournament) :
  NoDup (UID <$> eventsOf updateCount t).
Proof.
  rewrite eventsOf_uids. constructor.
  - intros (i & H & _)%list_elem_of_fmap. by apply tournamentUID_registrationUID in H.
  - apply NoDup_fmap_2_strong; [|apply NoDup_seq].
    intros i j _ _ H. by apply registrationUID_inj in H as [_ ?].
Qed.

Lemma eventsOf_uid_owner (uc uc' : gmap Z Z) (t t' : Tournament) (u : string) :
  u ∈ UID <$> eventsOf uc t -> u ∈ UID <$> eventsOf uc' t' -> Id t = Id t'.
Proof.
  rewrite !eventsOf_uids.
  intros [->|(i & -> & _)%list_elem_of_fmap]%elem_of_cons
         [H|(j & H & _)%list_elem_of_fmap]%elem_of_cons.
  - by apply tournamentUID_inj.
  - by apply tournamentUID_registrationUID in H.
  - symmetry in H. by apply tournamentUID_registrationUID in H.
  - by apply registrationUID_inj in H as [? _].
Qed.

Lemma flat_map_uids_NoDup (updateCount : gmap Z Z) (ts : list Tournament) :
  NoDup (Id <$> ts) ->
  NoDup (UID <$> flat_map (eventsOf updateCount) ts).
Proof.
  induction ts as [|t ts IH]; [constructor|].
  cbn [fmap list_fmap flat_map]. intros [Hnotin Hnd]%NoDup_cons.
  rewrite fmap_app. apply NoDup_app. split; [apply eventsOf_uids_NoDup|].
  split; [|by apply IH].
  intros u Hu Hin. apply list_elem_of_fmap in Hin as (e & -> & He).
  apply list_elem_of_In, in_flat_map in He as (t' & Ht' & He).
  apply list_elem_of_In in Ht', He.
  apply Hnotin. apply list_elem_of_fmap. exists t'. split; [|done].
  eapply eventsOf_uid_owner; [exact Hu|].
  apply list_elem_of_fmap. by exists e.
Qed.

Lemma emitted_ids_NoDup (s : TournamentService Db.Repo) (visit : list (Z * nat))
    (config : SubscriptionConfig) :
  wfService s ->
  visit ≡ₚ map_to_list (tournaments s) ->
  NoDup (Id <$> emitted s (resolveTournaments s visit config)).
Proof.
  intros Hwf Hperm.
  assert (Hnd : NoDup (resolveTournaments s visit config)).
  { apply resolve_explicit_NoDup. by apply series_pointers_NoDup. }
  unfold emitted. apply NoDup_omap_key; [done|].
  intros [a1|] [a2|] t1 t2 Hin1 Hin2 Hd1 Hd2 Hid; try done.
  cbn in Hd1, Hd2.
  apply resolved_pointer_known in Hin1 as (k1 & Hk1 & _); [|done].
  apply resolved_pointer_known in Hin2 as (k2 & Hk2 & _); [|done].
  destruct Hwf as [Hobj _].
  destruct (Hobj k1 a1 Hk1) as (t1' & Ht1 & <-).
  destruct (Hobj k2 a2 Hk2) as (t2' & Ht2 & <-).
  assert (t1' = t1) by congruence. assert (t2' = t2) by congruence.
  subst. rewrite Hid in Hk1. congruence.
Qed.

(** X10. On a well-formed tournament map, the events of a generated feed
    have pairwise different identifiers, and every registration event
    refers, as its related event, to a tournament event of the same
    feed. *)
Theorem CreateIcs_identifiers (s s' : TournamentService Db.Repo)
    (visit : list (Z * nat)) (now : Time) (id : string) (cal : IcsCalendar) :
  wfService s ->
  visit ≡ₚ map_to_list (tournaments s) ->
  CreateIcs s visit now id = (s', Ok cal) ->
  NoDup (UID <$> Events cal)
  /\ forall e u, e ∈ Events cal -> RelatedTo e = Some u ->
       exists e', e' ∈ Events cal /\ UID e' = u /\ RelatedTo e' = None.
Proof.
  intros Hwf Hperm H. apply CreateIcs_cases in H
    as [(_ & _ & [=])|[(_ & [=] & _)|(row & config & Hrow & Hcfg & _ & [= ->])]].
  cbn [Events]. split.
  - apply flat_map_uids_NoDup. by apply emitted_ids_NoDup.
  - intros e u He Hrel.
    apply list_elem_of_In, in_flat_map in He as (t & Ht & He).
    apply list_elem_of_In in He. unfold eventsOf in He.
    apply elem_of_cons in He as [->|He]; [done|].
    apply elem_of_lookup_imap in He as (i & reg & -> & Hreg).
    cbn [RelatedTo] in Hrel. injection Hrel as <-.
    eexists (tournamentEvent _ t). split; [|split; reflexivity].
    apply list_elem_of_In, in_flat_map. exists t. split; [done|].
    apply list_elem_of_In. unfold eventsOf. apply elem_of_cons. by left.
Qed.

Lemma CreateIcs_identifiers_witness :
  wfService sampleService
  /\ CreateIcs sampleService (map_to_list (tournaments sampleService)) sampleNow "cal1"
     = (sampleExported.1, Ok sampleExport)
  /\ NoDup (UID <$> Events sampleExport).
Proof.
  split; [apply sampleService_wf|].
  assert (H : CreateIcs sampleService (map_to_list (tournaments sampleService))
                sampleNow "cal1" = (sampleExported.1, Ok sampleExport)).
  { vm_compute. reflexivity. }
  split; [exact H|].
  apply (CreateIcs_identifiers sampleService _ _ sampleNow "cal1" sampleExport
           sampleService_wf (reflexivity _) H).
Defined.

End EventIdentifiers.
Section RoundFacts.
Import GoTime Model Service.
Context {R : Type} `{!TournamentRepo R}.

(** The phase loop changes the registrations of the record and nothing
    else. *)
Lemma syncPhases_fields (phases : list RegistrationPhase) :
  forall (r : R) (t : Tournament),
    (syncPhases r t phases).2
    = {| Id := Id t; Status := Status t; UpdatedAt := UpdatedAt t;
         StartDate := StartDate t; EndDate := EndDate t; Title := Title t;
         Localtion := Localtion t; GeoLocation := GeoLocation t;
         Series := Series t; PdgaTier := PdgaTier t; PdgaId := PdgaId t;
         DRating := DRating t;
         Registrations := (Registrations t ++ (registrationOf <$> phases))%list |}.
Proof.
  induction phases as [|p phases IH]; intros r t; cbn [syncPhases].
  - rewrite app_nil_r. by destruct t.
  - rewrite IH. cbn. by rewrite <- app_assoc.
Qed.

(** A round that finds the fetched record changed and gets its detail
    page puts [appliedRecord] into memory, whatever the store answers. *)
Lemma syncRound_applied (gto : GtoService) (now : Time) (f : Tournament)
    (s s' : TournamentService R) (o : outcome unit) (details : EventDetails) :
  syncRound gto now f s = (s', o) ->
  changed (stored s (Id f)) f = true ->
  FetchEventDetails gto (Id f) = Ok details ->
  tournaments s' = <[Id f := length (heap s)]> (tournaments s)
  /\ heap s' = (heap s ++ [appliedRecord f details])%list
  /\ lastSync s' = lastSync s
  /\ (o = Ok tt \/ exists m, o = Err (OtherError m)).
Proof.
  unfold syncRound, stored. intros Hr Hch Hd. rewrite Hch, Hd in Hr.
  pose proof (syncPhases_fields (RegistrationPhases details)
                (UpsertTournament (repo s) (enrich f details)).1
                (enrich f details)) as Hf.
  destruct (syncPhases _ _ _) as [r2 t'] eqn:Hp. cbn [snd] in Hf.
  cbn [enrich Id Status UpdatedAt StartDate EndDate Title Localtion GeoLocation
       Series PdgaTier PdgaId DRating Registrations] in Hf.
  change (t' = appliedRecord f details) in Hf. subst t'.
  destruct (CreateTurnamentHistory r2 (appliedRecord f details) now) as [r3 [[]|m]];
    injection Hr as <- <-; cbn; (do 3 (split; [done|])); [by left|right; by eauto].
Qed.

(** A round that does not store leaves the service as it is. *)
Lemma syncRound_skipped (gto : GtoService) (now : Time) (f : Tournament)
    (s s' : TournamentService R) (o : outcome unit) :
  syncRound gto now f s = (s', o) ->
  (changed (stored s (Id f)) f = false
   \/ forall details, FetchEventDetails gto (Id f) <> Ok details) ->
  s' = s.
Proof.
  unfold syncRound, stored. intros Hr [Hch|Hd].
  - rewrite Hch in Hr. by injection Hr as <- _.
  - destruct (changed _ f); [|by injection Hr as <- _].
    destruct (FetchEventDetails gto (Id f)) as [d| |]; [by destruct (Hd d)|..];
      by injection Hr as <- _.
Qed.

Lemma syncFrom_lastSync (gto : GtoService) (clock : nat -> Time)
    (fetched : list Tournament) :
  forall (i : nat) (s s' : TournamentService R) (o : outcome unit),
    syncFrom gto clock i fetched s = (s', o) -> lastSync s' = lastSync s.
Proof.
  induction fetched as [|f rest IH]; intros i s s' o; cbn [syncFrom].
  - by intros [= <- <-].
  - destruct (syncRound gto (clock i) f s) as [s1 o1] eqn:Hr. intros Hs.
    assert (H1 : lastSync s1 = lastSync s).
    { apply syncRound_cases in Hr as [(_ & _ & _ & H & _)|(_ & _ & _ & _ & _ & _ & _ & _ & _ & H)];
        done. }
    destruct o1 as [[]|e|m].
    + rewrite <- H1. by eapply IH.
    + by injection Hs as <- <-.
    + by injection Hs as <- <-.
Qed.

(** X11. A cycle records its end exactly when it returns without error:
    then the time of the last synchronisation is the clock reading
    taken after the loop; a cycle that fails or panics leaves the recorded
    time as it was. *)
Theorem Sync_lastSync (gto : GtoService) (clock : nat -> Time)
    (s s' : TournamentService R) (o : outcome unit) :
  Sync gto clock s = (s', o) ->
  (o = Ok tt ->
     exists fetched, FetchTournaments gto = Ok fetched
                     /\ GetLastSync s' = Some (clock (length fetched)))
  /\ (o <> Ok tt -> GetLastSync s' = GetLastSync s).
Proof.
  unfold Sync, GetLastSync. destruct (FetchTournaments gto) as [fetched|e|m].
  - destruct (syncFrom gto clock 0 fetched s) as [s1 o1] eqn:Hs.
    apply syncFrom_lastSync in Hs.
    destruct o1 as [[]|e|m]; intros [= <- <-]; (split; [|done]).
    + intros _. by exists fetched.
    + done.
    + done.
  - intros [= <- <-]. by split.
  - intros [= <- <-]. by split.
Qed.

(** X12. Of a fetched record a round uses the id, the status, the time of
    the last change and the registrations; the title and the dates taken
    from the schedule feed, like every other field, have no influence on
    what the round does.  What a storing round keeps in memory are the
    title, dates, place, series and rating data of the detail page. *)
Theorem syncRound_ignores_feed_fields (gto : GtoService) (now : Time)
    (f f' : Tournament) (s : TournamentService R) :
  Id f = Id f' -> Status f = Status f' -> UpdatedAt f = UpdatedAt f' ->
  Registrations f = Registrations f' ->
  syncRound gto now f s = syncRound gto now f' s
  /\ forall s' o details,
       syncRound gto now f s = (s', o) ->
       changed (stored s (Id f)) f = true ->
       FetchEventDetails gto (Id f) = Ok details ->
       stored s' (Id f) = Some (appliedRecord f details)
       /\ appliedRecord f details = appliedRecord f' details.
Proof.
  intros Hid Hst Hup Hreg.
  assert (He : forall details, enrich f details = enrich f' details).
  { intros details. unfold enrich. by rewrite Hid, Hst, Hup, Hreg. }
  split.
  - assert (Hc : forall st, changed st f = changed st f').
    { intros [st|]; [|done]. unfold changed. by rewrite Hup. }
    unfold syncRound. rewrite <- Hid, <- Hc.
    destruct (changed _ _); [|done].
    destruct (FetchEventDetails gto (Id f)) as [details| |]; [|done..].
    by rewrite He.
  - intros s' o details Hr Hch Hd.
    destruct (syncRound_applied _ _ _ _ _ _ _ Hr Hch Hd) as (Ht & Hh & _).
    split; [by eapply stored_insert_eq|].
    unfold appliedRecord. by rewrite Hid, Hst, Hup, Hreg.
Qed.

End RoundFacts.
Section RoundFactsOnSqlite.
Import GoTime Model Service.

Lemma Sync_lastSync_witness :
  Sync gtoMorning clockMorning emptyService = (afterMorning, Ok tt)
  /\ exists fetched, FetchTournaments gtoMorning = Ok fetched
                     /\ GetLastSync afterMorning = Some (clockMorning (length fetched)).
Proof.
  assert (H : Sync gtoMorning clockMorning emptyService = (afterMorning, Ok tt)).
  { vm_compute. reflexivity. }
  split; [exact H|].
  exact (proj1 (Sync_lastSync gtoMorning clockMorning emptyService afterMorning
                  (Ok tt) H) eq_refl).
Defined.

Lemma syncRound_ignores_feed_fields_witness :
  let f' := {| Id := 1; Status := TOURNAMENT_STATUS_ANNOUNCED;
               UpdatedAt := Date 2024 5 2 10 0 0 0 UTC;
               StartDate := Date 2025 1 1 0 0 0 0 UTC;
               EndDate := Date 2025 1 1 0 0 0 0 UTC;
               Title := "Other title"; Localtion := "x"; GeoLocation := "y";
               Series := ["Z"]; PdgaTier := "A"; PdgaId := "9"; DRating := false;
               Registrations := [] |} in
  (Id fetchedNoon = Id f' /\ Status fetchedNoon = Status f'
   /\ UpdatedAt fetchedNoon = UpdatedAt f'
   /\ Registrations fetchedNoon = Registrations f')
  /\ syncRound gtoNoon (clockNoon 0%nat) fetchedNoon afterMorning
     = syncRound gtoNoon (clockNoon 0%nat) f' afterMorning.
Proof.
  cbv zeta. split; [by repeat split|].
  apply (syncRound_ignores_feed_fields gtoNoon (clockNoon 0%nat) fetchedNoon);
    reflexivity.
Defined.

End RoundFactsOnSqlite.
Section Listings.
Import GoTime Model Service.
Context {R : Type}.

Lemma filter_all {A : Type} (P : A -> Prop) `{!forall x, Decision (P x)} (l : list A) :
  (forall x, x ∈ l -> P x) -> filter P l = l.
Proof.
  induction l as [|x l IH]; intros Hall; [done|].
  rewrite filter_cons_True by (apply Hall, elem_of_cons; by left).
  f_equal. apply IH. intros y Hy. apply Hall, elem_of_cons. by right.
Qed.

Lemma addSeries_spec (series : list string) :
  forall acc : gset string * list string,
    (forall x, x ∈ acc.1 <-> x ∈ acc.2) -> NoDup acc.2 ->
    (forall x, x ∈ (addSeries acc series).1 <-> x ∈ (addSeries acc series).2)
    /\ NoDup (addSeries acc series).2
    /\ (forall x, x ∈ (addSeries acc series).2 <-> x ∈ acc.2 \/ x ∈ series).
Proof.
  unfold addSeries.
  induction series as [|se series IH]; intros acc Hset Hnd; cbn [foldl].
  - split; [done|]. split; [done|]. intros x. rewrite elem_of_nil. tauto.
  - case_bool_decide as Hin.
    + destruct (IH acc Hset Hnd) as (H1 & H2 & H3). split; [done|]. split; [done|].
      intros x. rewrite H3, elem_of_cons. split; [tauto|].
      intros [?|[->|?]]; [tauto| |tauto]. left. by apply Hset.
    + destruct (IH ({[se]} ∪ acc.1, (acc.2 ++ [se])%list)) as (H1 & H2 & H3).
      * intros x. cbn. rewrite elem_of_union, elem_of_singleton, elem_of_app,
          list_elem_of_singleton, Hset. tauto.
      * cbn. apply NoDup_app. split; [done|]. split; [|apply NoDup_singleton].
        intros x Hx ->%list_elem_of_singleton. apply Hin. by apply Hset.
      * split; [done|]. split; [done|]. intros x. rewrite H3. cbn.
        rewrite elem_of_app, list_elem_of_singleton, elem_of_cons. tauto.
Qed.

(** The loop of [GetAllSeries], whatever it starts from. *)
Lemma GetAllSeries_fold (s : TournamentService R) (active0 : bool)
    (visit : list (Z * nat)) :
  forall acc : gset string * list string,
    (forall x, x ∈ acc.1 <-> x ∈ acc.2) -> NoDup acc.2 ->
    let result :=
      foldl (λ (acc : gset string * list string) (entry : Z * nat),
               match heap s !! entry.2 with
               | Some t =>
                   if active0
                      && bool_decide (Status t ∈
                           [TOURNAMENT_STATUS_CANCELLED; TOURNAMENT_STATUS_DONE])
                   then acc
                   else addSeries acc (Series t)
               | None => acc
               end) acc visit in
    (forall x, x ∈ result.1 <-> x ∈ result.2)
    /\ NoDup result.2
    /\ (forall x, x ∈ result.2 <->
          x ∈ acc.2
          \/ exists e t, e ∈ visit /\ heap s !! e.2 = Some t /\ x ∈ Series t
                         /\ (active0 = false
                             \/ Status t ∉ [TOURNAMENT_STATUS_CANCELLED;
                                            TOURNAMENT_STATUS_DONE])).
Proof.
  induction visit as [|e visit IH]; intros acc Hset Hnd; cbn [foldl].
  - cbv zeta. split; [done|]. split; [done|]. intros x. split; [tauto|].
    intros [?|(e & t & He & _)]; [done|]. by apply elem_of_nil in He.
  - cbv zeta.
    destruct (heap s !! e.2) as [t|] eqn:Ht.
    + destruct (active0 && bool_decide (Status t ∈ _)) eqn:Hskip.
      * destruct (IH acc Hset Hnd) as (H1 & H2 & H3). split; [done|]. split; [done|].
        intros x. rewrite H3. split.
        -- intros [?|(e' & t' & He' & Hr)]; [tauto|]. right. exists e', t'.
           split; [by apply elem_of_cons; right|done].
        -- intros [?|(e' & t' & He' & Ht' & Hx & Hact)]; [tauto|].
           apply elem_of_cons in He' as [->|He'].
           ++ exfalso. rewrite Ht in Ht'. injection Ht' as <-.
              apply andb_true_iff in Hskip as [-> Hst].
              apply bool_decide_eq_true in Hst. by destruct Hact.
           ++ right. by exists e', t'.
      * destruct (addSeries_spec (Series t) acc Hset Hnd) as (A1 & A2 & A3).
        destruct (IH _ A1 A2) as (H1 & H2 & H3). split; [done|]. split; [done|].
        intros x. rewrite H3, A3. split.
        -- intros [[?|Hx]|(e' & t' & He' & Hr)]; [tauto| |].
           ++ right. exists e, t. split; [by apply elem_of_cons; left|].
              split; [done|]. split; [done|].
              apply andb_false_iff in Hskip as [->|Hst]; [by left|right].
              by apply bool_decide_eq_false in Hst.
           ++ right. exists e', t'. split; [by apply elem_of_cons; right|done].
        -- intros [?|(e' & t' & He' & Ht' & Hx & Hact)]; [tauto|].
           apply elem_of_cons in He' as [->|He'].
           ++ rewrite Ht in Ht'. injection Ht' as <-. tauto.
           ++ right. by exists e', t'.
    + destruct (IH acc Hset Hnd) as (H1 & H2 & H3). split; [done|]. split; [done|].
      intros x. rewrite H3. split.
      * intros [?|(e' & t' & He' & Hr)]; [tauto|]. right. exists e', t'.
        split; [by apply elem_of_cons; right|done].
      * intros [?|(e' & t' & He' & Ht' & Hr)]; [tauto|].
        apply elem_of_cons in He' as [->|He']; [congruence|].
        right. by exists e', t'.
Qed.

(** X13. The list of all series names no series twice, and it names a
    series exactly when a visited tournament carries it that is not
    left out; tournaments are left out when they are cancelled or done,
    unless the single argument [false] is given. *)
Theorem GetAllSeries_distinct (s : TournamentService R) (visit : list (Z * nat))
    (active : list bool) :
  NoDup (GetAllSeries s visit active)
  /\ forall se,
       se ∈ GetAllSeries s visit active <->
       exists e t, e ∈ visit /\ heap s !! e.2 = Some t /\ se ∈ Series t
                   /\ (active = [false]
                       \/ Status t ∉ [TOURNAMENT_STATUS_CANCELLED;
                                      TOURNAMENT_STATUS_DONE]).
Proof.
  unfold GetAllSeries.
  set (active0 := match active with [a] => a | _ => true end).
  assert (Hact : active0 = false <-> active = [false]).
  { unfold active0. destruct active as [|[] [|? ?]]; split; done. }
  destruct (GetAllSeries_fold s active0 visit (∅, [])) as (_ & Hnd & Hin).
  { intros x. cbn. split; [by intros ?%elem_of_empty|by intros ?%elem_of_nil]. }
  { constructor. }
  cbv zeta in Hnd, Hin. split; [exact Hnd|].
  intros se. rewrite Hin. cbn [snd]. rewrite elem_of_nil. setoid_rewrite Hact.
  tauto.
Qed.

(** X14. Every series that the list of all series offers selects at least
    one tournament: the tournaments of a one-element subscription to it
    include a tournament that carries the series. *)
Theorem GetAllSeries_selects (s : TournamentService R) (visit : list (Z * nat))
    (active : list bool) (se : string) :
  se ∈ GetAllSeries s visit active ->
  exists a t, Some a ∈ GetTournamentsForSeries s visit [se]
              /\ heap s !! a = Some t /\ se ∈ Series t.
Proof.
  unfold GetAllSeries.
  set (active0 := match active with [a] => a | _ => true end).
  destruct (GetAllSeries_fold s active0 visit (∅, [])) as (_ & _ & Hin).
  { intros x. cbn. split; [by intros ?%elem_of_empty|by intros ?%elem_of_nil]. }
  { constructor. }
  cbv zeta in Hin. rewrite Hin. cbn [snd]. rewrite elem_of_nil.
  intros [[]|(e & t & He & Ht & Hse & _)].
  exists e.2, t. split; [|done].
  unfold GetTournamentsForSeries. rewrite getTournaments_filter.
  apply list_elem_of_fmap. exists e. split; [done|].
  apply list_elem_of_filter. split; [|done].
  unfold selects. rewrite Ht. apply existsb_exists. exists se.
  split; [by apply list_elem_of_In|].
  apply bool_decide_eq_true. by apply list_elem_of_singleton.
Qed.

(** X15. On a well-formed tournament map [GetTournaments] returns the
    pointer of every id exactly once, in the order in which the map is
    visited, and never a nil pointer. *)
Theorem GetTournaments_all (s : TournamentService R) (visit : list (Z * nat)) :
  wfService s ->
  visit ≡ₚ map_to_list (tournaments s) ->
  GetTournaments s visit = (λ e : Z * nat, Some e.2) <$> visit
  /\ NoDup (GetTournaments s visit)
  /\ length (GetTournaments s visit) = size (tournaments s)
  /\ (forall p, p ∈ GetTournaments s visit <->
        exists id a, p = Some a /\ GetTournament s id = Some a).
Proof.
  intros Hwf Hperm.
  assert (Heq : GetTournaments s visit = (λ e : Z * nat, Some e.2) <$> visit).
  { unfold GetTournaments. rewrite getTournaments_filter. f_equal.
    apply filter_all. intros [k a] Hin. unfold selects. cbn.
    rewrite Hperm in Hin. apply elem_of_map_to_list in Hin.
    destruct Hwf as [Hobj _]. by destruct (Hobj k a Hin) as (t & -> & _). }
  split; [exact Heq|]. rewrite Heq. split; [|split].
  - change ((λ e : Z * nat, Some e.2) <$> visit) with ((Some ∘ snd) <$> visit).
    rewrite (list_fmap_compose snd Some).
    apply (NoDup_fmap_2 Some). by eapply visit_pointers_NoDup.
  - rewrite length_fmap, Hperm. apply length_map_to_list.
  - intros p. rewrite list_elem_of_fmap. unfold GetTournament. split.
    + intros ([k a] & -> & Hin). rewrite Hperm in Hin.
      apply elem_of_map_to_list in Hin. by exists k, a.
    + intros (id & a & -> & Hk). exists (id, a). split; [done|].
      rewrite Hperm. by apply elem_of_map_to_list.
Qed.

End Listings.

Section ListingsOnSample.
Import GoTime Model Service.

Lemma GetAllSeries_selects_witness :
  "A" ∈ GetAllSeries sampleService (map_to_list (tournaments sampleService)) []
  /\ exists a t,
       Some a ∈ GetTournamentsForSeries sampleService
                  (map_to_list (tournaments sampleService)) ["A"]
       /\ heap sampleService !! a = Some t /\ "A" ∈ Series t.
Proof.
  assert (H : "A" ∈ GetAllSeries sampleService
                      (map_to_list (tournaments sampleService)) []).
  { apply list_elem_of_In. vm_compute.
    repeat (first [left; reflexivity | right]). }
  split; [exact H|].
  exact (GetAllSeries_selects sampleService _ [] "A" H).
Defined.

Lemma GetTournaments_all_witness :
  wfService sampleService
  /\ length (GetTournaments sampleService (map_to_list (tournaments sampleService)))
     = size (tournaments sampleService).
Proof.
  split; [apply sampleService_wf|].
  apply (GetTournaments_all sampleService (map_to_list (tournaments sampleService))
           sampleService_wf (reflexivity _)).
Defined.

End ListingsOnSample.
Section Loading.
Import GoTime Model Service.

Lemma stored_store_ne {R : Type} (s s' : TournamentService R) (t : Tournament) (k id : Z) :
  noDangling s ->
  tournaments s' = <[k := length (heap s)]> (tournaments s) ->
  heap s' = (heap s ++ [t])%list ->
  k <> id -> stored s' id = stored s id.
Proof.
  intros Hnd Ht Hh Hne. unfold stored, GetTournament, deref.
  rewrite Ht, lookup_insert_ne by done.
  destruct (tournaments s !! id) as [a|] eqn:Ha; [|done]. cbn.
  rewrite Hh. apply lookup_app_l. by eapply Hnd.
Qed.

Lemma noDangling_store {R : Type} (s s' : TournamentService R) (t : Tournament) (k : Z) :
  noDangling s ->
  tournaments s' = <[k := length (heap s)]> (tournaments s) ->
  heap s' = (heap s ++ [t])%list ->
  noDangling s'.
Proof.
  intros Hnd Ht Hh k' a. rewrite Ht, Hh, length_app. cbn.
  intros [[_ <-]|[_ H]]%lookup_insert_Some; [lia|]. apply Hnd in H. lia.
Qed.

(** The loop of [init]: every loaded tournament is held under its id. *)
Lemma init_fold {R : Type} (l : list Tournament) :
  forall s0 : TournamentService R,
    noDangling s0 -> NoDup (Id <$> l) ->
    let s := foldl (λ (s : TournamentService R) tt,
                      {| tournaments := <[Id tt := length (heap s)]> (tournaments s);
                         heap := (heap s ++ [tt])%list;
                         repo := repo s; lastSync := lastSync s |}) s0 l in
    repo s = repo s0 /\ lastSync s = lastSync s0 /\ noDangling s
    /\ (forall t, t ∈ l -> stored s (Id t) = Some t)
    /\ (forall id, id ∉ Id <$> l -> stored s id = stored s0 id).
Proof.
  induction l as [|t l IH]; intros s0 Hnd Hids; cbn [foldl]; cbv zeta.
  - split; [done|]. split; [done|]. split; [done|]. split; [|done].
    intros t Ht. by apply elem_of_nil in Ht.
  - apply NoDup_cons in Hids as [Hnotin Hids].
    set (s1 := {| tournaments := <[Id t := length (heap s0)]> (tournaments s0);
                  heap := (heap s0 ++ [t])%list;
                  repo := repo s0; lastSync := lastSync s0 |}).
    assert (Hnd1 : noDangling s1) by (by eapply (noDangling_store s0 s1 t)).
    destruct (IH s1 Hnd1 Hids) as (H1 & H2 & H3 & H4 & H5).
    split; [done|]. split; [done|]. split; [done|]. split.
    + intros t' [->|Ht']%elem_of_cons; [|by apply H4].
      rewrite H5 by done. by eapply (stored_insert_eq s0 s1 t).
    + intros id Hid. rewrite fmap_cons in Hid. apply not_elem_of_cons in Hid as [Hne Hid].
      rewrite H5 by done. by eapply (stored_store_ne s0 s1 t).
Qed.


(** Creating the service on a store. *)
Lemma NewTournamentService_stored (r : Db.Repo) :
  exists s,
    NewTournamentService r = (s, Ok tt)
    /\ repo s = r /\ lastSync s = None
    /\ forall id, stored s id = tournamentOfRow r id <$> Db.tournaments_table r !! id.
Proof.
  unfold NewTournamentService, init. cbn [repo GetAllTournaments Repo_TournamentRepo].
  unfold Db.GetAllTournaments.
  set (s0 := {| tournaments := ∅; heap := []; repo := r; lastSync := None |}).
  set (l := _ <$> map_to_list (Db.tournaments_table r)).
  assert (Hl : l = (λ e : Z * Db.TournamentRow, tournamentOfRow r e.1 e.2)
                     <$> map_to_list (Db.tournaments_table r)).
  { unfold l. apply list_fmap_ext. by intros i [id row] _. }
  assert (Hids : Id <$> l = (map_to_list (Db.tournaments_table r)).*1).
  { rewrite Hl, <- list_fmap_compose. apply list_fmap_ext. by intros i [id row] _. }
  destruct (init_fold l s0) as (H1 & H2 & _ & H4 & H5).
  { intros k a H. unfold s0 in H. cbn in H. by rewrite lookup_empty in H. }
  { rewrite Hids. apply NoDup_fst_map_to_list. }
  cbv zeta in *. eexists. split; [reflexivity|]. split; [done|]. split; [done|].
  intros id. destruct (Db.tournaments_table r !! id) as [row|] eqn:Hrow; cbn.
  - apply (H4 (tournamentOfRow r id row)). rewrite Hl. apply list_elem_of_fmap.
    exists (id, row). split; [done|]. by apply elem_of_map_to_list.
  - rewrite H5; [unfold stored, s0, GetTournament; cbn; by rewrite lookup_empty|].
    rewrite Hids. intros ([id' row] & Heq & Hin)%list_elem_of_fmap. cbn in Heq. subst id'.
    apply elem_of_map_to_list in Hin. congruence.
Qed.

(** X16. Creating the tournament service on a store succeeds and puts into
    memory, for every row of the tournaments table and for no other id,
    the tournament with the fields of the row and the registrations
    stored for its id; no cycle is recorded yet. *)
Theorem NewTournamentService_loads (r : Db.Repo) :
  exists s,
    NewTournamentService r = (s, Ok tt)
    /\ repo s = r /\ GetLastSync s = None
    /\ wfService s
    /\ (forall id, stored s id
                   = tournamentOfRow r id <$> Db.tournaments_table r !! id).
Proof.
  destruct (NewTournamentService_stored r) as (s & Hs & Hr & Hl & Hst).
  exists s. split; [done|]. split; [done|]. split; [done|].
  split; [by eapply NewTournamentService_wfService|]. done.
Qed.











End Loading.
Section History.
Import GoTime Model Service.

Lemma syncRound_history_prefix (gto : GtoService) (now : Time) (f : Tournament)
    (s s' : TournamentService Db.Repo) (o : outcome unit) :
  syncRound gto now f s = (s', o) ->
  Db.tournament_history_table (repo s) `prefix_of` Db.tournament_history_table (repo s').
Proof.
  intros Hr. pose proof Hr as Hcases. apply syncRound_cases in Hcases
    as [(_ & _ & -> & _)|(Hch & details & t' & Hd & _)]; [done|].
  destruct (syncRound_tables _ _ _ _ _ _ _ Hr Hch Hd)
    as (t1 & _ & _ & _ & _ & _ & _ & _ & [(_ & _ & ->)|(_ & _ & ->)]); [|done].
  by apply prefix_app_r.
Qed.

Lemma syncFrom_history_prefix (gto : GtoService) (clock : nat -> Time)
    (fetched : list Tournament) :
  forall (i : nat) (s s' : TournamentService Db.Repo) (o : outcome unit),
    syncFrom gto clock i fetched s = (s', o) ->
    Db.tournament_history_table (repo s)
      `prefix_of` Db.tournament_history_table (repo s').
Proof.
  induction fetched as [|f rest IH]; intros i s s' o; cbn [syncFrom].
  - by intros [= <- <-].
  - destruct (syncRound gto (clock i) f s) as [s1 o1] eqn:Hr. intros Hs.
    apply syncRound_history_prefix in Hr.
    destruct o1 as [[]|e|m].
    + etrans; [exact Hr|]. by eapply IH.
    + by injection Hs as <- <-.
    + by injection Hs as <- <-.
Qed.

Lemma Sync_history_prefix (gto : GtoService) (clock : nat -> Time)
    (s s' : TournamentService Db.Repo) (o : outcome unit) :
  Sync gto clock s = (s', o) ->
  Db.tournament_history_table (repo s)
    `prefix_of` Db.tournament_history_table (repo s').
Proof.
  unfold Sync. destruct (FetchTournaments gto) as [fetched|e|m].
  - destruct (syncFrom gto clock 0 fetched s) as [s1 o1] eqn:Hs.
    apply syncFrom_history_prefix in Hs.
    destruct o1 as [[]|e|m]; by intros [= <- <-].
  - by intros [= <- <-].
  - by intros [= <- <-].
Qed.

Lemma historyCount_prefix (r r' : Db.Repo) (id : Z) :
  Db.tournament_history_table r `prefix_of` Db.tournament_history_table r' ->
  historyCount r id <= historyCount r' id.
Proof.
  intros [k Hk]. unfold historyCount. rewrite Hk, filter_app, length_app. lia.
Qed.

(** X19. A cycle, whatever its outcome, only appends to the history: the
    snapshots of every tournament before the cycle are, in their order,
    the first snapshots after it, and no update count gets smaller.  So
    the revision number of an event never decreases from one feed to a
    feed generated after the cycle. *)
Theorem Sync_history_grows (gto : GtoService) (clock : nat -> Time)
    (s s' : TournamentService Db.Repo) (o : outcome unit) :
  Sync gto clock s = (s', o) ->
  (forall id, exists h h',
      GetTournamentHistory (repo s) id = DbOk h
      /\ GetTournamentHistory (repo s') id = DbOk h'
      /\ h `prefix_of` h')
  /\ (forall id counts counts',
        GetUpdateCount (repo s) = DbOk counts ->
        GetUpdateCount (repo s') = DbOk counts' ->
        countOf counts id <= countOf counts' id)
  /\ (forall visit visit' now now' cid cid' s1 s2 cal cal' e e',
        CreateIcs s visit now cid = (s1, Ok cal) ->
        CreateIcs s' visit' now' cid' = (s2, Ok cal') ->
        e ∈ Events cal -> e' ∈ Events cal' -> UID e = UID e' ->
        Sequence e <= Sequence e').
Proof.
  intros Hs. apply Sync_history_prefix in Hs.
  assert (Hcount : forall id counts counts',
            GetUpdateCount (repo s) = DbOk counts ->
            GetUpdateCount (repo s') = DbOk counts' ->
            countOf counts id <= countOf counts' id).
  { intros id counts counts' Hc Hc'.
    destruct (countOf_historyCount (repo s)) as (uc & Huc & Hn).
    destruct (countOf_historyCount (repo s')) as (uc' & Huc' & Hn').
    unfold GetUpdateCount in Hc, Hc'.
    cbn [GetCalendarUpdateCount Repo_CalendarRepo] in Hc, Hc'.
    rewrite Huc in Hc. rewrite Huc' in Hc'. injection Hc as <-. injection Hc' as <-.
    rewrite Hn, Hn'. by apply historyCount_prefix. }
  split; [|split; [exact Hcount|]].
  - intros id. eexists _, _. split; [reflexivity|]. split; [reflexivity|].
    destruct Hs as [k ->]. rewrite filter_app, fmap_app. by apply prefix_app_r.
  - intros visit visit' now now' cid cid' s1 s2 cal cal' e e' H1 H2 He He' Huid.
    apply CreateIcs_cases in H1
      as [(_ & _ & [=])|[(_ & [=] & _)|(row & config & _ & _ & _ & [= ->])]].
    apply CreateIcs_cases in H2
      as [(_ & _ & [=])|[(_ & [=] & _)|(row' & config' & _ & _ & _ & [= ->])]].
    cbn [Events] in He, He'.
    apply list_elem_of_In, in_flat_map in He as (t & _ & He).
    apply list_elem_of_In, in_flat_map in He' as (t' & _ & He').
    apply list_elem_of_In in He, He'.
    assert (Hid : Id t = Id t').
    { eapply (eventsOf_uid_owner _ _ t t' (UID e)).
      - apply list_elem_of_fmap. by exists e.
      - rewrite Huid. apply list_elem_of_fmap. by exists e'. }
    apply eventsOf_sequence in He as [-> _]. apply eventsOf_sequence in He' as [-> _].
    rewrite Hid. by apply Hcount.
Qed.

Lemma Sync_history_grows_witness :
  Sync gtoNoon clockNoon afterMorning = (afterNoon, Ok tt)
  /\ forall id counts counts',
       GetUpdateCount (repo afterMorning) = DbOk counts ->
       GetUpdateCount (repo afterNoon) = DbOk counts' ->
       countOf counts id <= countOf counts' id.
Proof.
  assert (H : Sync gtoNoon clockNoon afterMorning = (afterNoon, Ok tt)).
  { vm_compute. reflexivity. }
  split; [exact H|].
  exact (proj1 (proj2 (Sync_history_grows _ _ _ _ _ H))).
Defined.

(** X20. A round that stores a changed tournament and returns normally
    appends one snapshot to the history of its id, and that snapshot is
    the record the round leaves in memory, with the registration phases
    of the detail page; the histories of the other ids stay as they
    are. *)
Theorem syncRound_snapshot (gto : GtoService) (now : Time) (f : Tournament)
    (s s' : TournamentService Db.Repo) :
  syncRound gto now f s = (s', Ok tt) ->
  changed (stored s (Id f)) f = true ->
  exists details h,
    FetchEventDetails gto (Id f) = Ok details
    /\ stored s' (Id f) = Some (appliedRecord f details)
    /\ GetTournamentHistory (repo s) (Id f) = DbOk h
    /\ GetTournamentHistory (repo s') (Id f) = DbOk (h ++ [appliedRecord f details])%list
    /\ forall id, id <> Id f ->
         GetTournamentHistory (repo s') id = GetTournamentHistory (repo s) id.
Proof.
  intros Hr Hch. pose proof Hr as Hcases. apply syncRound_cases in Hcases
    as [(_ & _ & _ & _ & [Hno|Hno])|(_ & details & t' & Hd & _)]; [congruence|done|].
  destruct (syncRound_applied _ _ _ _ _ _ _ Hr Hch Hd) as (Ht & Hh & _).
  destruct (syncRound_tables _ _ _ _ _ _ _ Hr Hch Hd)
    as (t1 & _ & _ & _ & Hst & _ & _ & _ & [(_ & _ & Hhist)|((m & [=]) & _)]).
  pose proof (stored_insert_eq s s' _ _ Ht Hh) as Hst'.
  assert (t1 = appliedRecord f details) by congruence. subst t1.
  exists details. eexists. split; [done|]. split; [done|]. split; [reflexivity|].
  cbn [GetTournamentHistory Repo_TournamentRepo]. unfold Db.GetTournamentHistory.
  rewrite Hhist. split.
  - rewrite filter_app, fmap_app. do 2 f_equal.
    rewrite filter_cons_True by done. done.
  - intros id Hne. rewrite filter_app. f_equal.
    rewrite filter_cons_False by (cbn; congruence). by rewrite app_nil_r.
Qed.

Lemma syncRound_snapshot_witness :
  syncRound gtoNoon (clockNoon 0%nat) fetchedNoon afterMorning = (afterNoonRound, Ok tt)
  /\ changed (stored afterMorning (Id fetchedNoon)) fetchedNoon = true
  /\ exists details h,
       FetchEventDetails gtoNoon (Id fetchedNoon) = Ok details
       /\ stored afterNoonRound (Id fetchedNoon) = Some (appliedRecord fetchedNoon details)
       /\ GetTournamentHistory (repo afterMorning) (Id fetchedNoon) = DbOk h
       /\ GetTournamentHistory (repo afterNoonRound) (Id fetchedNoon)
          = DbOk (h ++ [appliedRecord fetchedNoon details])%list.
Proof.
  assert (H : syncRound gtoNoon (clockNoon 0%nat) fetchedNoon afterMorning
              = (afterNoonRound, Ok tt)).
  { vm_compute. reflexivity. }
  assert (Hch : changed (stored afterMorning (Id fetchedNoon)) fetchedNoon = true).
  { vm_compute. reflexivity. }
  split; [exact H|]. split; [exact Hch|].
  destruct (syncRound_snapshot _ _ _ _ _ H Hch) as (details & h & H1 & H2 & H3 & H4 & _).
  exists details, h. split; [exact H1|]. split; [exact H2|]. split; [exact H3|exact H4].
Defined.

End History.
Section ListingPage.
Import GoTime GoStrings Ical Model Gto.
Variable queryId : string -> option string.
Variable ToLower : string -> string.

Lemma parseUpdateRow_cases (ti li : nat) (updates : gmap Z tournamentUpdate)
    (row : list listingCell) :
  parseUpdateRow queryId ToLower ti li updates row = updates
  \/ exists id u,
       updates !! id = None
       /\ parseUpdateRow queryId ToLower ti li updates row = <[id := u]> updates
       /\ (status u = TOURNAMENT_STATUS_ANNOUNCED
           \/ status u = TOURNAMENT_STATUS_CANCELLED
           \/ status u = TOURNAMENT_STATUS_PROVISIONAL).
Proof.
  unfold parseUpdateRow.
  destruct (head (cellLinks (cellAt row ti))) as [[href|]|]; [|by left..].
  destruct (extractTournamentID queryId href) as [id| |]; [|by left..].
  destruct (String.eqb _ ""); [by left|].
  case_bool_decide as Hin; [by left|].
  destruct (ParseInLocation _ _ Berlin) as [lastUpdate| |]; [|by left..].
  right. eexists id, _. split; [|split; [reflexivity|]].
  - destruct (updates !! id) eqn:Hu; [|done]. destruct Hin. by eauto.
  - cbn [status]. destruct (String.eqb (ToLower _) "abgesagt"); [by eauto|].
    destruct (String.eqb (ToLower _) "vorläufig"); by eauto.
Qed.

(** The loop over the body rows keeps what it has and adds entries with
    one of three statuses. *)
Lemma parseUpdateRows_fold (ti li : nat) (rows : list (list listingCell)) :
  forall updates : gmap Z tournamentUpdate,
    let result := foldl (parseUpdateRow queryId ToLower ti li) updates rows in
    updates ⊆ result
    /\ forall id u, result !! id = Some u ->
         updates !! id = Some u
         \/ status u = TOURNAMENT_STATUS_ANNOUNCED
         \/ status u = TOURNAMENT_STATUS_CANCELLED
         \/ status u = TOURNAMENT_STATUS_PROVISIONAL.
Proof.
  induction rows as [|row rows IH]; intros updates; cbn [foldl]; cbv zeta.
  - split; [reflexivity|]. by eauto.
  - destruct (IH (parseUpdateRow queryId ToLower ti li updates row)) as [Hsub Hst].
    destruct (parseUpdateRow_cases ti li updates row) as [Heq|(k & v & Hk & Heq & Hv)];
      rewrite Heq in *; [split; [exact Hsub|exact Hst]|].
    split.
    + etrans; [|exact Hsub]. by apply insert_subseteq.
    + intros id u Hu. destruct (Hst id u Hu) as [Hin|?]; [|by right].
      apply lookup_insert_Some in Hin as [[<- <-]|[_ Hin]]; [by right|by left].
Qed.

(** X21. Whatever the listing page holds, every entry the listing parser
    returns has the status announced, cancelled or provisional, never
    done.  Hence the merged fetch never returns a record with the status
    done, and a record for an id that the schedule feed lacks is returned
    only as a cancelled one, without title and dates. *)
Theorem parseTournamentUpdates_statuses (table : option listingTable)
    (updates : gmap Z tournamentUpdate) :
  parseTournamentUpdates queryId ToLower table = Ok updates ->
  (forall id u, updates !! id = Some u ->
     status u = TOURNAMENT_STATUS_ANNOUNCED
     \/ status u = TOURNAMENT_STATUS_CANCELLED
     \/ status u = TOURNAMENT_STATUS_PROVISIONAL)
  /\ forall (visit : gmap Z tournamentUpdate -> list (Z * tournamentUpdate))
       (icsEvents : list VEvent) (feed result : gmap Z Tournament),
       visit updates ≡ₚ map_to_list updates ->
       parseIcsEvents icsEvents = Ok feed ->
       FetchTournaments (parseTournamentUpdates queryId ToLower table) visit
                        (Ok icsEvents) = Ok result ->
       forall id t, result !! id = Some t ->
         Status t <> TOURNAMENT_STATUS_DONE
         /\ (feed !! id = None ->
             Status t = TOURNAMENT_STATUS_CANCELLED
             /\ Title t = "" /\ StartDate t = zeroTime /\ EndDate t = zeroTime).
Proof.
  intros Hparse.
  assert (Hst : forall id u, updates !! id = Some u ->
            status u = TOURNAMENT_STATUS_ANNOUNCED
            \/ status u = TOURNAMENT_STATUS_CANCELLED
            \/ status u = TOURNAMENT_STATUS_PROVISIONAL).
  { unfold parseTournamentUpdates in Hparse.
    destruct table as [table|]; [|done].
    destruct (columnIndex "Letzte Änderung" _) as [li|]; [|done].
    destruct (columnIndex "Turnier" _) as [ti|]; [|done].
    injection Hparse as <-. intros id u Hu.
    destruct (parseUpdateRows_fold ti li (bodyRows table) ∅) as [_ H].
    destruct (H id u Hu) as [Hin|?]; [|done]. by rewrite lookup_empty in Hin. }
  split; [exact Hst|].
  intros visit icsEvents feed result Hperm Hfeed Hfetch id t Ht.
  rewrite Hparse in Hfetch. unfold FetchTournaments in Hfetch. cbn [bind] in Hfetch.
  rewrite Hfeed in Hfetch. cbn [bind] in Hfetch. injection Hfetch as <-.
  assert (Hnd : NoDup (visit updates).*1).
  { rewrite Hperm. apply NoDup_fst_map_to_list. }
  destruct (decide (id ∈ (visit updates).*1)) as [Hin|Hnotin].
  2:{ rewrite foldl_mergeUpdate_notin in Ht by done. by rewrite lookup_empty in Ht. }
  apply list_elem_of_fmap in Hin as ([k v] & -> & Hin). cbn in Ht.
  rewrite (foldl_mergeUpdate_in feed _ ∅ k v Hnd Hin), lookup_empty in Ht.
  destruct (merged feed k v) as [t'|] eqn:Hm; [|done]. injection Ht as ->.
  pose proof (merged_spec _ _ _ _ Hm) as (Hs & _ & _).
  assert (Hu : updates !! k = Some v).
  { apply elem_of_map_to_list. by rewrite <- Hperm. }
  pose proof (Hst _ _ Hu) as Hok. cbn [fst].
  split.
  - rewrite Hs. destruct Hok as [Hx|[Hx|Hx]]; rewrite Hx; done.
  - intros Hnone. unfold merged, mergeUpdate in Hm. rewrite Hnone in Hm.
    case_bool_decide as Hcd; [|by rewrite lookup_empty in Hm].
    rewrite lookup_insert_eq in Hm. injection Hm as <-. cbn.
    split; [|done].
    destruct Hok as [Hx|[Hx|Hx]]; [|done|]; rewrite Hx in Hcd;
      apply elem_of_cons in Hcd as [Hcd|Hcd]; try done;
      apply list_elem_of_singleton in Hcd; done.
Qed.

(** X22. In the listing the first row of an id counts: rows that follow
    never change or remove what the rows before them gave, and a row
    that cannot be read is passed over without an error. *)
Theorem parseTournamentUpdates_first_row (headers : list string)
    (rows more : list (list listingCell)) (updates : gmap Z tournamentUpdate) :
  parseTournamentUpdates queryId ToLower
    (Some {| headerCells := headers; bodyRows := rows |}) = Ok updates ->
  exists updates',
    parseTournamentUpdates queryId ToLower
      (Some {| headerCells := headers; bodyRows := (rows ++ more)%list |}) = Ok updates'
    /\ forall id u, updates !! id = Some u -> updates' !! id = Some u.
Proof.
  unfold parseTournamentUpdates. cbn [headerCells bodyRows].
  destruct (columnIndex "Letzte Änderung" headers) as [li|]; [|done].
  destruct (columnIndex "Turnier" headers) as [ti|]; [|done].
  intros [= <-]. eexists. split; [reflexivity|].
  rewrite foldl_app. intros id u Hu.
  destruct (parseUpdateRows_fold ti li more
              (foldl (parseUpdateRow queryId ToLower ti li) ∅ rows)) as [Hsub _].
  by eapply lookup_weaken.
Qed.

End ListingPage.
Section ListingPageSample.
Import GoTime GoStrings Ical Model Gto.

Lemma sampleListing_Ok : sampleListing = Ok sampleUpdates.
Proof.
  unfold sampleUpdates, sampleListing, parseTournamentUpdates. cbn [headerCells bodyRows].
  assert (H1 : columnIndex "Letzte Änderung" sampleHeaders = Some 3%nat)
    by (vm_compute; reflexivity).
  assert (H2 : columnIndex "Turnier" sampleHeaders = Some 1%nat)
    by (vm_compute; reflexivity).
  rewrite H1, H2. reflexivity.
Qed.

Lemma parseTournamentUpdates_statuses_witness :
  parseTournamentUpdates sampleQueryId (fun s => s)
    (Some {| headerCells := sampleHeaders; bodyRows := sampleRows |}) = Ok sampleUpdates
  /\ forall id u, sampleUpdates !! id = Some u ->
       status u = TOURNAMENT_STATUS_ANNOUNCED
       \/ status u = TOURNAMENT_STATUS_CANCELLED
       \/ status u = TOURNAMENT_STATUS_PROVISIONAL.
Proof.
  split; [exact sampleListing_Ok|].
  exact (proj1 (parseTournamentUpdates_statuses sampleQueryId (fun s => s) _ _
                  sampleListing_Ok)).
Defined.

Lemma parseTournamentUpdates_first_row_witness :
  parseTournamentUpdates sampleQueryId (fun s => s)
    (Some {| headerCells := sampleHeaders; bodyRows := sampleRows |}) = Ok sampleUpdates
  /\ exists updates',
       parseTournamentUpdates sampleQueryId (fun s => s)
         (Some {| headerCells := sampleHeaders;
                  bodyRows := (sampleRows ++ sampleMoreRows)%list |}) = Ok updates'
       /\ forall id u, sampleUpdates !! id = Some u -> updates' !! id = Some u.
Proof.
  split; [exact sampleListing_Ok|].
  exact (parseTournamentUpdates_first_row sampleQueryId (fun s => s) sampleHeaders
           sampleRows sampleMoreRows sampleUpdates sampleListing_Ok).
Defined.

End ListingPageSample.
Section FetchedFeed.
Import GoTime GoStrings Ical Model Gto.

(** X23. The records the merged fetch returns sit under their own id and
    carry no registrations; so, in whatever order a cycle visits the
    returned map, it meets every id once, and every fetched record comes
    without registrations. *)
Theorem FetchTournaments_records
    (updates : outcome (gmap Z tournamentUpdate))
    (visit : gmap Z tournamentUpdate -> list (Z * tournamentUpdate))
    (icsEvents : outcome (list VEvent)) (result : gmap Z Tournament) :
  FetchTournaments updates visit icsEvents = Ok result ->
  (forall id t, result !! id = Some t -> Id t = id /\ Registrations t = [])
  /\ (forall order : list (Z * Tournament),
        order ≡ₚ map_to_list result ->
        NoDup (Id <$> order.*2)
        /\ Forall (λ t, Registrations t = []) order.*2).
Proof.
  unfold FetchTournaments.
  destruct updates as [upd| |]; cbn [bind]; [|done..].
  destruct icsEvents as [evs| |]; cbn [bind]; [|done..].
  destruct (parseIcsEvents evs) as [feed| |] eqn:Hfeed; cbn [bind]; [|done..].
  intros [= <-].
  assert (Hfeed' : forall id t, feed !! id = Some t -> Id t = id /\ Registrations t = []).
  { eapply parseIcsEventsFrom_entries; [|exact Hfeed]. intros ? ?. by rewrite lookup_empty. }
  assert (Hres : forall l (acc : gmap Z Tournament),
            (forall id t, acc !! id = Some t -> Id t = id /\ Registrations t = []) ->
            forall id t, foldl (mergeUpdate feed) acc l !! id = Some t ->
                         Id t = id /\ Registrations t = []).
  { induction l as [|[k u] l IH]; intros acc Hacc; cbn [foldl]; [done|].
    apply IH. intros id t. unfold mergeUpdate.
    destruct (feed !! k) as [t0|] eqn:Hk.
    - intros [[<- <-]|[_ Hlk]]%lookup_insert_Some; [|by apply Hacc].
      cbn. by apply Hfeed'.
    - case_bool_decide; [|by apply Hacc].
      intros [[<- <-]|[_ Hlk]]%lookup_insert_Some; [done|by apply Hacc]. }
  assert (Hent : forall id t, foldl (mergeUpdate feed) ∅ (visit upd) !! id = Some t ->
                   Id t = id /\ Registrations t = []).
  { apply Hres. intros ? ?. by rewrite lookup_empty. }
  split; [done|].
  intros order Hperm.
  assert (Hin : forall e, e ∈ order -> Id e.2 = e.1 /\ Registrations e.2 = []).
  { intros [k t] He. rewrite Hperm in He. apply elem_of_map_to_list in He.
    by apply Hent. }
  split.
  - assert (Heq : Id <$> order.*2 = order.*1).
    { rewrite <- list_fmap_compose. apply list_fmap_ext.
      intros i e He. apply Hin. by eapply list_elem_of_lookup_2. }
    rewrite Heq, Hperm. apply NoDup_fst_map_to_list.
  - apply Forall_fmap, Forall_forall. intros e He. by apply Hin.
Qed.

Lemma FetchTournaments_records_witness :
  FetchTournaments (Ok listing0) map_to_list (Ok feed0) = Ok mergedFetch0
  /\ forall id t, mergedFetch0 !! id = Some t -> Id t = id /\ Registrations t = [].
Proof.
  assert (H : FetchTournaments (Ok listing0) map_to_list (Ok feed0) = Ok mergedFetch0).
  { vm_compute. reflexivity. }
  split; [exact H|].
  exact (proj1 (FetchTournaments_records _ _ _ _ H)).
Defined.

(** The loop of [parseIcsEvents], whatever it starts from. *)
Lemma parseIcsEventsFrom_ids (events : list VEvent) :
  forall acc feed : gmap Z Tournament,
    parseIcsEventsFrom events acc = Ok feed ->
    (forall id,
       is_Some (feed !! id) <->
       is_Some (acc !! id)
       \/ exists event k, event ∈ events /\ typeAndId (EventId event) = Ok (k, id))
    /\ (forall id t,
          feed !! id = Some t ->
          (forall event, event ∈ events ->
             typeAndId (EventId event) <> Ok (EVENT_TYPE_TURNAMENT, id)) ->
          acc !! id = Some t \/ (acc !! id = None /\ t = newTournament id "")).
Proof.
  induction events as [|event rest IH]; intros acc feed; cbn [parseIcsEventsFrom].
  - intros [= <-]. split.
    + intros id. split; [by left|]. intros [?|(e & k & He & _)]; [done|].
      by apply elem_of_nil in He.
    + intros id t Ht _. by left.
  - destruct (typeAndId (EventId event)) as [[k tid]| |] eqn:Hty; cbn [bind]; [|done..].
    set (acc1 := match acc !! tid with
                 | Some _ => acc
                 | None => <[tid := newTournament tid ""]> acc
                 end).
    set (t1 := match acc !! tid with
               | Some tournament => tournament
               | None => newTournament tid ""
               end).
    assert (Hpair : match acc !! tid with
                    | Some tournament => (tournament, acc)
                    | None => (newTournament tid "", <[tid := newTournament tid ""]> acc)
                    end = (t1, acc1)).
    { unfold t1, acc1. by destruct (acc !! tid). }
    rewrite Hpair.
    assert (Hacc1 : forall id, is_Some (acc1 !! id) <-> is_Some (acc !! id) \/ id = tid).
    { intros id. unfold acc1. destruct (acc !! tid) as [t0|] eqn:Ht0.
      - split; [by left|]. intros [?| ->]; [done|]. by eauto.
      - rewrite lookup_insert_is_Some. destruct (decide (tid = id)) as [->|Hne]; [|split; [intros [?|[_ ?]]; [done|by left]|intros [?|?]; [right; by split|congruence]]].
        split; [by right|]. intros _. by left. }
    assert (Hacc1' : forall id t, acc1 !! id = Some t ->
              acc !! id = Some t \/ (acc !! id = None /\ t = newTournament id "")).
    { intros id t. unfold acc1. destruct (acc !! tid) as [t0|] eqn:Ht0; [by left|].
      intros [[<- <-]|[_ H]]%lookup_insert_Some; [by right|by left]. }
    destruct (k =? EVENT_TYPE_REGISTRATION) eqn:Hk.
    + intros Hrest. destruct (IH _ _ Hrest) as [H1 H2]. split.
      * intros id. rewrite H1, Hacc1. split.
        -- intros [[?| ->]|(e & k' & He & Hty')]; [by left| |].
           ++ right. exists event, k. split; [by apply elem_of_cons; left|done].
           ++ right. exists e, k'. split; [by apply elem_of_cons; right|done].
        -- intros [?|(e & k' & He & Hty')]; [by left; left|].
           apply elem_of_cons in He as [->|He].
           ++ left. right. congruence.
           ++ right. by exists e, k'.
      * intros id t Ht Hno. destruct (H2 id t Ht) as [Hin|[Hnone ->]].
        -- intros e He. apply Hno, elem_of_cons. by right.
        -- by apply Hacc1'.
        -- right. split; [|done]. destruct (acc !! id) eqn:Ha; [|done].
           assert (is_Some (acc1 !! id)) as [? ?] by (apply Hacc1; left; by eauto).
           congruence.
    + destruct (parseTournament event t1) as [t1'| |] eqn:Hpt; cbn [bind]; [|done..].
      intros Hrest. destruct (IH _ _ Hrest) as [H1 H2]. split.
      * intros id. rewrite H1, lookup_insert_is_Some, Hacc1. split.
        -- intros [[->|[_ [?| ->]]]|(e & k' & He & Hty')].
           ++ right. exists event, k. split; [by apply elem_of_cons; left|done].
           ++ by left.
           ++ right. exists event, k. split; [by apply elem_of_cons; left|done].
           ++ right. exists e, k'. split; [by apply elem_of_cons; right|done].
        -- intros [?|(e & k' & He & Hty')].
           ++ left. destruct (decide (tid = id)); [by left|right]. split; [done|by left].
           ++ apply elem_of_cons in He as [->|He].
              ** left. left. congruence.
              ** right. by exists e, k'.
      * intros id t Ht Hno.
        assert (Hne : tid <> id).
        { intros ->. apply (Hno event); [by apply elem_of_cons; left|].
          rewrite Hty. do 2 f_equal.
          unfold typeAndId in Hty.
          destruct (CutSuffix _ _) as [s0 ok]. destruct (negb ok); [done|].
          destruct (SplitAfterN s0 "-" 3 !! 1%nat); [|done].
          case_bool_decide.
          - destruct (SplitAfterN s0 "-" 3 !! 2%nat); [|done]. cbn [bind] in Hty.
            destruct (Atoi _); [|done]. injection Hty as <- _. done.
          - cbn [bind] in Hty. destruct (Atoi _); [|done]. by injection Hty as <- _. }
        destruct (H2 id t Ht) as [Hin|[Hnone ->]].
        -- intros e He. apply Hno, elem_of_cons. by right.
        -- rewrite lookup_insert_ne in Hin by done. by apply Hacc1'.
        -- rewrite lookup_insert_ne in Hnone by done.
           right. split; [|done]. destruct (acc !! id) eqn:Ha; [|done].
           assert (is_Some (acc1 !! id)) as [? ?] by (apply Hacc1; left; by eauto).
           congruence.
Qed.

(** X24. When the schedule feed parses, it gives a record for an id exactly
    when some entry, of a tournament or of a registration, names the id;
    and an id that only registration entries name gets a record that has
    nothing but the id: no title and no dates. *)
Theorem parseIcsEvents_ids (events : list VEvent) (feed : gmap Z Tournament) :
  parseIcsEvents events = Ok feed ->
  (forall id,
     is_Some (feed !! id) <->
     exists event k, event ∈ events /\ typeAndId (EventId event) = Ok (k, id))
  /\ (forall id t,
        feed !! id = Some t ->
        (forall event, event ∈ events ->
           typeAndId (EventId event) <> Ok (EVENT_TYPE_TURNAMENT, id)) ->
        t = newTournament id "").
Proof.
  intros H. apply parseIcsEventsFrom_ids in H as [H1 H2]. split.
  - intros id. rewrite H1, lookup_empty. split; [|by right].
    intros [[? [=]]|?]; done.
  - intros id t Ht Hno. destruct (H2 id t Ht Hno) as [Hin|[_ ->]]; [|done].
    by rewrite lookup_empty in Hin.
Qed.

Lemma parseIcsEvents_ids_witness :
  parseIcsEvents feed0 = Ok parsedFeed0
  /\ forall id,
       is_Some (parsedFeed0 !! id) <->
       exists event k, event ∈ feed0 /\ typeAndId (EventId event) = Ok (k, id).
Proof.
  assert (H : parseIcsEvents feed0 = Ok parsedFeed0) by (vm_compute; reflexivity).
  split; [exact H|].
  exact (proj1 (parseIcsEvents_ids feed0 parsedFeed0 H)).
Defined.

End FetchedFeed.
Section CalendarListing.
Import GoTime GoStrings Model Service Web.

(** X25. In a store built with the repository's methods the administration
    list names every calendar once: the ids of the listed calendars are
    distinct, and a calendar is listed exactly when the lookup by its id
    returns it. *)
Theorem GetAllCalendars_lists (r : Db.Repo) :
  reachable r ->
  exists calendars,
    CalendarService.GetAllCalendars r = DbOk calendars
    /\ NoDup (CalId_ <$> calendars)
    /\ forall cal,
         cal ∈ calendars <-> GetCalendar r (CalendarId (CalId_ cal)) = DbOk (Some cal).
Proof.
  intros Hr. pose proof (reachable_calendars r Hr) as Hrows.
  eexists. split; [reflexivity|].
  assert (Hkeys : CalId_ <$> (Db.calendar <$> (map_to_list (Db.calendars_table r)).*2)
                  = (map_to_list (Db.calendars_table r)).*1).
  { rewrite <- !list_fmap_compose. apply list_fmap_ext.
    intros i [id row] Hi. cbn.
    apply list_elem_of_lookup_2, elem_of_map_to_list in Hi.
    by apply Hrows in Hi as [-> _]. }
  split.
  - rewrite Hkeys. apply NoDup_fst_map_to_list.
  - intros cal. rewrite GetCalendar_by_id. split.
    + intros (row & -> & Hrow)%list_elem_of_fmap.
      apply list_elem_of_fmap in Hrow as ([id row'] & -> & Hin).
      apply elem_of_map_to_list in Hin. cbn.
      destruct (Hrows _ _ Hin) as [-> _]. by rewrite Hin.
    + intros [= H].
      destruct (Db.calendars_table r !! CalId_ cal) as [row|] eqn:Hrow; [|done].
      injection H as <-.
      apply list_elem_of_fmap. exists row. split; [done|].
      apply list_elem_of_fmap. exists (CalId_ (Db.calendar row), row). split; [done|].
      by apply elem_of_map_to_list.
Qed.

Lemma GetAllCalendars_lists_witness :
  reachable (repo reachedService)
  /\ exists calendars,
       CalendarService.GetAllCalendars (repo reachedService) = DbOk calendars
       /\ NoDup (CalId_ <$> calendars).
Proof.
  assert (Hr : reachable (repo reachedService)).
  { apply (reach_CreateCalendar Db.emptyRepo), reach_empty. }
  split; [exact Hr|].
  destruct (GetAllCalendars_lists _ Hr) as (calendars & H1 & H2 & _).
  exists calendars. split; [exact H1|exact H2].
Defined.

End CalendarListing.

Section Pages.
Import GoTime GoStrings Model Service Web.

(** X26. For every language handed to the translator, a text that this
    language does not have, because the language was never loaded or
    because it has no entry for the key, is rendered exactly as in the
    translator's default language, placeholders included. *)
Theorem missing_text_in_default_language (t : Translator)
    (lang key : string) (args : list string) :
  HasLanguage t lang = false
  \/ (exists texts, translations t !! lang = Some texts /\ texts !! key = None) ->
  T t lang key = T t (translatorDefaultLang t) key
  /\ TWithArgs t lang key args = TWithArgs t (translatorDefaultLang t) key args.
Proof.
  intros Hmiss.
  assert (Hnone : translations t !! lang ≫= (λ langMap, langMap !! key) = None).
  { destruct Hmiss as [Hno|(texts & -> & Hkey)]; [|exact Hkey].
    unfold HasLanguage in Hno. apply bool_decide_eq_false in Hno.
    destruct (translations t !! lang) eqn:Hl; [|done].
    destruct Hno. by eauto. }
  assert (HT : T t lang key = T t (translatorDefaultLang t) key).
  { unfold T. rewrite Hnone.
    destruct (String.eqb lang (translatorDefaultLang t)) eqn:Hd; cbn [negb].
    - apply String.eqb_eq in Hd. rewrite <- Hd, Hnone, String.eqb_refl. done.
    - rewrite String.eqb_refl. cbn [negb].
      by destruct (translations t !! translatorDefaultLang t ≫= _). }
  split; [exact HT|]. unfold TWithArgs. by rewrite HT.
Qed.

Lemma missing_text_in_default_language_witness :
  HasLanguage sampleTranslator "fr" = false
  /\ TWithArgs sampleTranslator "fr" "reg.days" ["3"] = "noch 3 Tage".
Proof.
  assert (H : HasLanguage sampleTranslator "fr" = false) by (vm_compute; reflexivity).
  split; [exact H|].
  rewrite (proj2 (missing_text_in_default_language sampleTranslator "fr" "reg.days" ["3"]
                    (or_introl H))).
  vm_compute. reflexivity.
Defined.

(** X27. [sameDay] holds exactly when the two times show the same calendar
    day, each on the wall clock of its own location; the two wall-clock
    readings are then less than a day apart. *)
Theorem sameDay_wall_day (startDate endDate : Time) :
  (sameDay (Some startDate) (Some endDate) = true
   <-> wallDay startDate = wallDay endDate)
  /\ (sameDay (Some startDate) (Some endDate) = true ->
      - secondsPerDay < abs endDate - abs startDate < secondsPerDay).
Proof.
  assert (Hiff : sameDay (Some startDate) (Some endDate) = true
                 <-> wallDay startDate = wallDay endDate).
  { unfold sameDay, Year, Month, Day. rewrite !andb_true_iff, !Z.eqb_eq. split.
    - intros [[Hy Hm] Hd].
      rewrite <- (civilToDays_daysToCivil (wallDay startDate)),
              <- (civilToDays_daysToCivil (wallDay endDate)).
      by rewrite Hy, Hm, Hd.
    - by intros ->. }
  split; [exact Hiff|].
  intros H%Hiff. unfold wallDay, secondsPerDay in *.
  pose proof (Z.div_mod (abs startDate) 86400 ltac:(lia)).
  pose proof (Z.div_mod (abs endDate) 86400 ltac:(lia)).
  pose proof (Z.mod_pos_bound (abs startDate) 86400 ltac:(lia)).
  pose proof (Z.mod_pos_bound (abs endDate) 86400 ltac:(lia)).
  lia.
Qed.

Lemma sameDay_wall_day_witness :
  sameDay (Some sampleNow) (Some (Add sampleNow (3 * Hour_ns))) = true
  /\ - secondsPerDay < abs (Add sampleNow (3 * Hour_ns)) - abs sampleNow < secondsPerDay.
Proof.
  assert (H : sameDay (Some sampleNow) (Some (Add sampleNow (3 * Hour_ns))) = true)
    by (vm_compute; reflexivity).
  split; [exact H|].
  exact (proj2 (sameDay_wall_day sampleNow (Add sampleNow (3 * Hour_ns))) H).
Defined.

(** The flags of one row. *)
Lemma registrationRow_flags (daysOf : Z -> Z) (now : Time) (t : Tournament)
    (phase : Registration) :
  let reg := registrationRow daysOf now t phase in
  (IsActive reg = true ->
   Before (RegistrationStart reg) now = true
   /\ Before now (RegistrationEnd reg) = true
   /\ OpensToday reg = false /\ OpensTomorrow reg = false /\ OpensInDays reg = 0
   /\ (ClosesToday reg = false \/ ClosesTomorrow reg = false)
   /\ 0 <= DaysLeft reg)
  /\ (IsActive reg = false ->
      ClosesToday reg = false /\ ClosesTomorrow reg = false /\ DaysLeft reg = 0
      /\ (OpensToday reg = false \/ OpensTomorrow reg = false)
      /\ 0 <= OpensInDays reg).
Proof.
  cbv zeta. unfold registrationRow. cbv zeta.
  cbn [IsActive OpensToday OpensTomorrow ClosesToday ClosesTomorrow DaysLeft
       OpensInDays RegistrationStart RegistrationEnd].
  unfold After.
  set (tomorrow := Add (Date _ _ _ _ _ _ _ _) _).
  destruct (Before (RegStartDate phase) now && Before now (RegEndDate phase)) eqn:Hact;
    cbn [negb andb].
  - split; [|done]. intros _. apply andb_true_iff in Hact as [H1 H2].
    repeat (split; [done|]). split; [|lia].
    destruct (Before tomorrow (RegEndDate phase)) eqn:Hb.
    + left. rewrite (Before_asym _ _ Hb). by rewrite andb_false_r.
    + by right.
  - split; [done|]. intros _. repeat (split; [done|]). split.
    + destruct (Before tomorrow (RegStartDate phase)) eqn:Hb.
      * left. rewrite (Before_asym _ _ Hb). by rewrite andb_false_r.
      * by right.
    + destruct (Before now (RegStartDate phase)); lia.
Qed.

(** X28. The registrations page collects the phases whose end has not
    passed, in the order of the tournaments and of their phases (the page
    sorts the lists by start afterwards), and puts each on one list: the
    running ones (started before and ending after the moment of the
    request) on the open list, all others on the upcoming
    list.  A running phase carries no opening flag and no days until it
    opens, another one no closing flag and no days left, and no row is
    flagged for today and for tomorrow at once. *)
Theorem registrationRows_split (daysOf : Z -> Z) (l : Location) (clock : Time)
    (tournaments : list Tournament) :
  let now := GoTime.In clock l in
  let rows :=
    t ← tournaments;
    registrationRow daysOf now t
      <$> filter (λ phase, Before (RegEndDate phase) now = false) (Registrations t) in
  registrationRows daysOf l clock tournaments
  = (filter (λ reg, IsActive reg = true) rows, filter (λ reg, IsActive reg = false) rows)
  /\ Forall (λ reg,
       (IsActive reg = true ->
        Before (RegistrationStart reg) now = true
        /\ Before now (RegistrationEnd reg) = true
        /\ OpensToday reg = false /\ OpensTomorrow reg = false /\ OpensInDays reg = 0
        /\ (ClosesToday reg = false \/ ClosesTomorrow reg = false)
        /\ 0 <= DaysLeft reg)
       /\ (IsActive reg = false ->
           ClosesToday reg = false /\ ClosesTomorrow reg = false /\ DaysLeft reg = 0
           /\ (OpensToday reg = false \/ OpensTomorrow reg = false)
           /\ 0 <= OpensInDays reg)) rows.
Proof.
  intros now rows. split.
  - unfold registrationRows. fold now.
    set (inner := λ (t : Tournament)
                    (lists : list RegistrationWithTournament
                             * list RegistrationWithTournament) phase,
                    if Before (RegEndDate phase) now then lists
                    else
                      let reg := registrationRow daysOf now t phase in
                      if IsActive reg then ((lists.1 ++ [reg])%list, lists.2)
                      else (lists.1, (lists.2 ++ [reg])%list)).
    change (foldl (λ lists t, foldl (inner t) lists (Registrations t)) ([], []) tournaments
            = (filter (λ reg, IsActive reg = true) rows,
               filter (λ reg, IsActive reg = false) rows)).
    assert (Hinner : forall t phases lists,
              foldl (inner t) lists phases
              = ((lists.1 ++ filter (λ reg, IsActive reg = true)
                    (registrationRow daysOf now t
                       <$> filter (λ phase, Before (RegEndDate phase) now = false) phases))%list,
                 (lists.2 ++ filter (λ reg, IsActive reg = false)
                    (registrationRow daysOf now t
                       <$> filter (λ phase, Before (RegEndDate phase) now = false) phases))%list)).
    { intros t. induction phases as [|phase phases IH]; intros [o u]; cbn [foldl].
      - cbn. by rewrite !app_nil_r.
      - rewrite IH. unfold inner at 1 2.
        destruct (Before (RegEndDate phase) now) eqn:Hend.
        + rewrite filter_cons_False by (by rewrite Hend). done.
        + rewrite filter_cons_True by done. rewrite fmap_cons. cbv zeta.
          destruct (IsActive (registrationRow daysOf now t phase)) eqn:Hact.
          * rewrite (filter_cons_True (λ reg, IsActive reg = true)) by done.
            rewrite (filter_cons_False (λ reg, IsActive reg = false))
              by (by rewrite Hact).
            cbn [fst snd]. by rewrite <- app_assoc.
          * rewrite (filter_cons_False (λ reg, IsActive reg = true))
              by (by rewrite Hact).
            rewrite (filter_cons_True (λ reg, IsActive reg = false)) by done.
            cbn [fst snd]. by rewrite <- app_assoc. }
    assert (Houter : forall ts lists,
              foldl (λ lists t, foldl (inner t) lists (Registrations t)) lists ts
              = ((lists.1 ++ filter (λ reg, IsActive reg = true)
                    (t ← ts;
                     registrationRow daysOf now t
                       <$> filter (λ phase, Before (RegEndDate phase) now = false)
                                  (Registrations t)))%list,
                 (lists.2 ++ filter (λ reg, IsActive reg = false)
                    (t ← ts;
                     registrationRow daysOf now t
                       <$> filter (λ phase, Before (RegEndDate phase) now = false)
                                  (Registrations t)))%list)).
    { induction ts as [|t ts IH]; intros [o u]; cbn [foldl].
      - cbn. by rewrite !app_nil_r.
      - rewrite IH, Hinner. cbn [fst snd]. rewrite bind_cons, !filter_app.
        by rewrite <- !app_assoc. }
    by rewrite Houter.
  - apply Forall_forall. intros reg Hreg. unfold rows in Hreg.
    apply list_elem_of_bind in Hreg as (t & Hreg & _).
    apply list_elem_of_fmap in Hreg as (phase & -> & _).
    apply registrationRow_flags.
Qed.

End Pages.
